(** * The ELD log generator of [eld/utils.py] and [api/views.py]

    The development follows the Python sources function by function.

    Modelling conventions.
    - Python floats holding hours and miles are idealised as exact
      rationals ([Q]); comparisons are the rational order and equality of
      hour values is [Qeq].  Where the rounding of the floats decides
      what holds, in the loop of [_add_driving], the loop is modelled a
      second time in binary64 arithmetic ([driving_loop64]).
    - [round(x, 2)] rounds the exact quotient, ties to even; Python rounds
      the binary float, so that a value at a tie can differ in its last
      decimal.
    - The tables behind [Trip.objects.create] and
      [LogSheet.objects.create] are lists of rows and the creates succeed;
      a database error inside [post] is not modelled.
    - A naive [datetime] is a point on the proleptic timeline, counted in
      microseconds since midnight of date ordinal 0 (the resolution of
      Python's datetime); a [date] is its ordinal, so that
      [weekday () = (ordinal + 6) mod 7] as in CPython.  The year range of
      datetime (1..9999) is modelled in the binary64 loop only.
    - [timedelta(hours=h)] rounds [h] hours to the nearest microsecond,
      ties to even.
    - [self.log_sheets] is threaded explicitly through every method that
      can reach [_finalize_day].
    - The [while] loop of [_add_driving] is iterated by a fuel argument;
      running out of fuel is [None]. *)

From Stdlib Require Import ZArith QArith Qround Qminmax Qpower Qabs.
From Stdlib Require Import Qreduction Lqa Lia.
From Stdlib Require Import List String Ascii Bool Sorted.
Import ListNotations.

(** ** Time *)

Module Datetime.

Open Scope Z_scope.

Definition datetime := Z.
Definition date := Z.

Bind Scope Z_scope with datetime date.

Definition US_PER_MINUTE : Z := 60000000.
Definition US_PER_HOUR : Z := 3600000000.
Definition US_PER_DAY : Z := 86400000000.

(** [dt.date()], as an ordinal. *)
Definition date_of (t : datetime) : date := t / US_PER_DAY.

(** [dt.hour], [dt.minute]. *)
Definition hour (t : datetime) : Z := (t mod US_PER_DAY) / US_PER_HOUR.
Definition minute (t : datetime) : Z := (t mod US_PER_HOUR) / US_PER_MINUTE.

(** [dt.weekday()]: Monday is 0. *)
Definition weekday (t : datetime) : Z := (date_of t + 6) mod 7.

(** [dt.replace(hour=h, minute=m)]: date, second and microsecond are kept. *)
Definition replace_hour_minute (t : datetime) (h m : Z) : datetime :=
  date_of t * US_PER_DAY + h * US_PER_HOUR + m * US_PER_MINUTE
  + t mod US_PER_MINUTE.

(** [dt.replace(hour=h, minute=m, second=0, microsecond=0)]. *)
Definition replace_hmsu (t : datetime) (h m : Z) : datetime :=
  date_of t * US_PER_DAY + h * US_PER_HOUR + m * US_PER_MINUTE.

(** Python's [round] on a number: nearest integer, ties to even. *)
Definition round_half_even (q : Q) : Z :=
  let f := Qfloor q in
  match Qcompare (q - inject_Z f) (1 # 2) with
  | Lt => f
  | Gt => f + 1
  | Eq => if Z.even f then f else f + 1
  end.

(** [timedelta(hours=h)], in microseconds. *)
Definition timedelta_hours (h : Q) : Z :=
  round_half_even (h * inject_Z US_PER_HOUR).

(** [timedelta(days=n)]. *)
Definition timedelta_days (n : Z) : Z := n * US_PER_DAY.

Definition digit (n : Z) : ascii :=
  ascii_of_nat (48 + Z.to_nat n).

Definition two_digits (n : Z) : string :=
  String (digit (n / 10)) (String (digit (n mod 10)) EmptyString).

(** [dt.strftime('%H:%M')]. *)
Definition strftime_HM (t : datetime) : string :=
  (two_digits (hour t) ++ ":" ++ two_digits (minute t))%string.

End Datetime.

Import Datetime.

Local Open Scope Q_scope.

(** ** Data model *)

Inductive Status := Driving | On_duty | Off_duty | Sleeper_berth.

(** The grid codes ['D'], ['ON'], ['OFF'], ['SB']. *)
Inductive Code := D | ON | OFF | SB.

Record Event := mkEvent {
  ev_status : Status;
  ev_start : string;
  ev_end : string;
  ev_duration : Q;
  ev_activity : option string
}.

Record Totals := mkTotals {
  driving : Q;
  on_duty : Q;
  off_duty : Q;
  sleeper : Q
}.

(** A day log; [log_date] stands for the ['date'] string, the ISO
    rendering of the date. *)
Record DailyLog := mkDailyLog {
  log_date : date;
  grid : list Code;
  events : list Event;
  totals : Totals
}.

Record RouteLeg := mkRouteLeg {
  leg_from : string;
  leg_to : string;
  distance : Q;
  duration : Q;
  geometry : string
}.

(** [route_details]: ['legs'] always holds exactly the two legs built by
    [calculate_route]. *)
Record RouteDetails := mkRouteDetails {
  legs : RouteLeg * RouteLeg;
  total_distance : Q;
  total_duration : Q
}.

(** ** The generator's constants ([__init__]) *)

Definition max_drive_hours : Q := 11.
Definition max_on_duty_hours : Q := 14.
Definition min_rest_hours : Q := 10.
Definition max_cycle_hours : Q := 70.
Definition fuel_interval : Q := 1000.
Definition fuel_time : Q := 1 # 2.
Definition pickup_dropoff_time : Q := 1.

(** ** Day-log lifecycle *)

Definition _init_day_log (d : date) : DailyLog :=
  mkDailyLog d (repeat OFF 96) [] (mkTotals 0 0 0 0).

(** [self.log_sheets.append(day_log)]. *)
Definition _finalize_day (log_sheets : list DailyLog) (day_log : DailyLog)
  : list DailyLog :=
  log_sheets ++ [day_log].

(** ** Event application *)

Definition status_code (s : Status) : Code :=
  match s with
  | Driving => D
  | On_duty => ON
  | Off_duty => OFF
  | Sleeper_berth => SB
  end.

(** [day_log['totals'][total_key] += duration_hours], the key being
    ['sleeper'] for a sleeper berth and the lower-cased status otherwise. *)
Definition add_total (t : Totals) (s : Status) (h : Q) : Totals :=
  match s with
  | Driving => mkTotals (driving t + h) (on_duty t) (off_duty t) (sleeper t)
  | On_duty => mkTotals (driving t) (on_duty t + h) (off_duty t) (sleeper t)
  | Off_duty => mkTotals (driving t) (on_duty t) (off_duty t + h) (sleeper t)
  | Sleeper_berth =>
      mkTotals (driving t) (on_duty t) (off_duty t) (sleeper t + h)
  end.

(** [g[i] = c]; every index painted below is smaller than 96, the length
    of the grid, so Python's IndexError cannot occur. *)
Fixpoint set_slot (g : list Code) (i : nat) (c : Code) : list Code :=
  match g, i with
  | [], _ => []
  | _ :: g', O => c :: g'
  | x :: g', S i' => x :: set_slot g' i' c
  end.

(** [for i in range(start_idx, stop): g[i] = c]. *)
Definition paint (g : list Code) (start_idx stop : Z) (c : Code) : list Code :=
  fold_left (fun g' i => set_slot g' i c)
            (seq (Z.to_nat start_idx) (Z.to_nat (stop - start_idx))) g.

(** [int(t.hour * 4 + t.minute / 15)]. *)
Definition slot_index (t : datetime) : Z := hour t * 4 + minute t / 15.

(** [if activity: event['activity'] = activity]: an empty label is falsy. *)
Definition event_activity (activity : option string) : option string :=
  match activity with
  | Some EmptyString => None
  | a => a
  end.

Definition _add_event (log_sheets : list DailyLog) (day_log : DailyLog)
    (status : Status) (start_time : datetime) (duration_hours : Q)
    (activity : option string)
  : datetime * DailyLog * list DailyLog :=
  let end_time := (start_time + timedelta_hours duration_hours)%Z in
  let '(start_time, end_time, day_log, log_sheets) :=
    if (date_of end_time >? date_of start_time)%Z then
      let log_sheets := _finalize_day log_sheets day_log in
      let day_log := _init_day_log (date_of end_time) in
      let start_time := replace_hour_minute end_time 8 0 in
      let end_time := (start_time + timedelta_hours duration_hours)%Z in
      (start_time, end_time, day_log, log_sheets)
    else (start_time, end_time, day_log, log_sheets) in
  let event := mkEvent status (strftime_HM start_time) (strftime_HM end_time)
                       duration_hours (event_activity activity) in
  let start_idx := slot_index start_time in
  let end_idx := slot_index end_time in
  let day_log :=
    mkDailyLog (log_date day_log)
               (paint (grid day_log) start_idx (Z.min end_idx 96)
                      (status_code status))
               (events day_log ++ [event])
               (add_total (totals day_log) status duration_hours) in
  (end_time, day_log, log_sheets).

(** ** Driving-time consumption *)

(** The locals of [_add_driving] at the head of its [while] loop, together
    with [self.log_sheets]. *)
Record DrivingState := mkDrivingState {
  ds_log_sheets : list DailyLog;
  ds_day_log : DailyLog;
  ds_start_time : datetime;
  ds_drive_time : Q;
  ds_remaining_cycle : Q
}.

(** [min(max_drive_hours - driving, max_on_duty_hours - on_duty,
         remaining_cycle, drive_time)]; like Python's [min], [Qmin] keeps
    the leftmost of equal arguments. *)
Definition available (s : DrivingState) : Q :=
  Qmin (Qmin (Qmin (max_drive_hours - driving (totals (ds_day_log s)))
                   (max_on_duty_hours - on_duty (totals (ds_day_log s))))
             (ds_remaining_cycle s))
       (ds_drive_time s).

(** One pass through the body of the [while] loop. *)
Definition driving_iteration (s : DrivingState) : DrivingState :=
  let avail := available s in
  if Qle_bool avail 0 then
    let log_sheets := _finalize_day (ds_log_sheets s) (ds_day_log s) in
    let start_time :=
      (replace_hour_minute (ds_start_time s) 8 0 + timedelta_days 1)%Z in
    let day_log := _init_day_log (date_of start_time) in
    let '(start_time, day_log, log_sheets) :=
      _add_event log_sheets day_log Sleeper_berth start_time min_rest_hours
                 None in
    let remaining_cycle :=
      if (weekday start_time =? 0)%Z then max_cycle_hours
      else ds_remaining_cycle s in
    mkDrivingState log_sheets day_log start_time (ds_drive_time s)
                   remaining_cycle
  else
    let '(start_time, day_log, log_sheets) :=
      _add_event (ds_log_sheets s) (ds_day_log s) Driving (ds_start_time s)
                 avail None in
    mkDrivingState log_sheets day_log start_time (ds_drive_time s - avail)
                   (ds_remaining_cycle s - avail).

(** [while drive_time > 0: ...]; [None] when the fuel runs out first. *)
Fixpoint driving_loop (fuel : nat) (s : DrivingState) : option DrivingState :=
  if Qle_bool (ds_drive_time s) 0 then Some s
  else
    match fuel with
    | O => None
    | S fuel' => driving_loop fuel' (driving_iteration s)
    end.

(** The locals of [generate_log_sheets] that its helpers thread, together
    with [self.log_sheets]. *)
Record Locals := mkLocals {
  loc_log_sheets : list DailyLog;
  loc_day_log : DailyLog;
  loc_current_time : datetime;
  loc_remaining_cycle : Q
}.

Definition _add_driving (fuel : nat) (l : Locals) (drive_time : Q)
  : option Locals :=
  match driving_loop fuel
          (mkDrivingState (loc_log_sheets l) (loc_day_log l)
                          (loc_current_time l) drive_time
                          (loc_remaining_cycle l)) with
  | None => None
  | Some s => Some (mkLocals (ds_log_sheets s) (ds_day_log s)
                             (ds_start_time s) (ds_remaining_cycle s))
  end.

(** [current_time, day_log = self._add_event(day_log, 'On duty',
    current_time, hours, activity)] inside [generate_log_sheets]. *)
Definition on_duty_event (l : Locals) (hours : Q) (activity : string)
  : Locals :=
  let '(t, dl, ls) :=
    _add_event (loc_log_sheets l) (loc_day_log l) On_duty
               (loc_current_time l) hours (Some activity) in
  mkLocals ls dl t (loc_remaining_cycle l).

(** ** Full-trip generation *)

(** [int(x)]: truncation towards zero. *)
Definition int_of (x : Q) : Z := Z.quot (Qnum x) (Zpos (Qden x)).

(** [max(0, int(total_distance / self.fuel_interval))]. *)
Definition fuel_stops_of (rd : RouteDetails) : Z :=
  Z.max 0 (int_of (total_distance rd / fuel_interval)).

(** [leg2_time / (fuel_stops + 1) if fuel_stops else leg2_time]. *)
Definition time_per_segment_of (leg2_time : Q) (fuel_stops : Z) : Q :=
  if (fuel_stops =? 0)%Z then leg2_time
  else leg2_time / inject_Z (fuel_stops + 1).

(** [range(n)]. *)
Definition range (n : Z) : list Z := map Z.of_nat (seq 0 (Z.to_nat n)).

(** The [for i in range(fuel_stops + 1)] loop, over the indices still to
    be visited. *)
Fixpoint segment_loop (fuel : nat) (fuel_stops : Z) (time_per_segment : Q)
    (indices : list Z) (l : Locals) : option Locals :=
  match indices with
  | [] => Some l
  | i :: indices' =>
      match _add_driving fuel l time_per_segment with
      | None => None
      | Some l =>
          let l := if (i <? fuel_stops)%Z
                   then on_duty_event l fuel_time "Fueling"
                   else l in
          segment_loop fuel fuel_stops time_per_segment indices' l
      end
  end.

(** Lines 99-121 of [generate_log_sheets]: the simulation proper, from an
    established route.  [now] is the value of [datetime.now()] and
    [sheets0] the content of [self.log_sheets] on entry.  The result is
    the state of the locals after the last [_finalize_day]. *)
Definition simulate (fuel : nat) (now : datetime) (sheets0 : list DailyLog)
    (current_cycle_used : Q) (rd : RouteDetails) : option Locals :=
  let fuel_stops := fuel_stops_of rd in
  let current_time := replace_hmsu now 8 0 in
  let remaining_cycle := max_cycle_hours - current_cycle_used in
  let day_log := _init_day_log (date_of current_time) in
  let l := mkLocals sheets0 day_log current_time remaining_cycle in
  let l := on_duty_event l pickup_dropoff_time "Loading" in
  let leg1_time := duration (fst (legs rd)) in
  match _add_driving fuel l leg1_time with
  | None => None
  | Some l =>
      let leg2_time := duration (snd (legs rd)) in
      let time_per_segment := time_per_segment_of leg2_time fuel_stops in
      match segment_loop fuel fuel_stops time_per_segment
                         (range (fuel_stops + 1)) l with
      | None => None
      | Some l =>
          let l := on_duty_event l pickup_dropoff_time "Unloading" in
          Some (mkLocals (_finalize_day (loc_log_sheets l) (loc_day_log l))
                         (loc_day_log l) (loc_current_time l)
                         (loc_remaining_cycle l))
      end
  end.

(** ** The routing provider and [calculate_route] *)

(** What a call of [requests.get] / [requests.post] can come to: an
    exception (time-out, connection error), or a response with its status
    code and its decoded JSON body. *)
Inductive HttpResult (A : Type) :=
| Http_exception
| Http_response (status_code : Z) (body : A).

Arguments Http_exception {A}.
Arguments Http_response {A} status_code body.

(** A coordinate pair, [[lon, lat]], as the provider sends it. *)
Definition Coords := list Q.

(** The geocoder's JSON, as far as [get_coordinates] reads it:
    [None] when ['features'] is absent; a feature is [None] when its
    ['geometry']['coordinates'] path is missing. *)
Record GeocodeBody := mkGeocodeBody {
  features : option (list (option Coords))
}.

(** The first route of the directions JSON: summary distance (metres),
    summary duration (seconds) and geometry. *)
Record RouteBody := mkRouteBody {
  summary_distance : Q;
  summary_duration : Q;
  route_geometry : string
}.

(** What [get_route_leg] returns: the keys [**leg] spreads into a leg. *)
Record LegData := mkLegData {
  ld_distance : Q;
  ld_duration : Q;
  ld_geometry : string
}.

(** [round(x, 2)], on the exact value: two decimals, ties to even. *)
Definition round2 (x : Q) : Q :=
  inject_Z (round_half_even (x * 100)) / 100.

(** Exceptions that leave a method, against a returned value. *)
Inductive Outcome (A : Type) :=
| Return (a : A)
| Raise (message : string).

Arguments Return {A} a.
Arguments Raise {A} message.

Record Generator := mkGenerator {
  current_location : string;
  pickup_location : string;
  dropoff_location : string;
  current_cycle_used : Q;
  route_details : option RouteDetails;
  self_log_sheets : list DailyLog
}.

(** [serializer.validated_data]. *)
Record TripData := mkTripData {
  td_current_location : string;
  td_pickup_location : string;
  td_dropoff_location : string;
  td_current_cycle_used : Q
}.

(** [ELDLogGenerator.__init__]. *)
Definition __init__ (trip_data : TripData) : Generator :=
  mkGenerator (td_current_location trip_data) (td_pickup_location trip_data)
              (td_dropoff_location trip_data)
              (td_current_cycle_used trip_data) None [].

(** Truthiness of a returned coordinate list, as [all(coords.values())]
    tests it: [None] and the empty list are falsy. *)
Definition truthy_coords (c : option Coords) : bool :=
  match c with
  | Some (_ :: _) => true
  | _ => false
  end.

Section Provider.

(** The geocoding request for an address; the body is [None] when
    [response.json()] raises. *)
Variable requests_get : string -> HttpResult (option GeocodeBody).

(** The directions request for two coordinate pairs; the body is [None]
    when the JSON has no first route with a summary. *)
Variable requests_post : Coords -> Coords -> HttpResult (option RouteBody).

Definition get_coordinates (address : string) : option Coords :=
  match requests_get address with
  | Http_exception => None
  | Http_response status_code body =>
      if (status_code =? 200)%Z then
        match body with
        | Some data =>
            match features data with
            | Some (feature :: _) => feature
            | _ => None
            end
        | None => None
        end
      else None
  end.

Definition get_route_leg (start_coords end_coords : Coords)
  : option LegData :=
  match requests_post start_coords end_coords with
  | Http_exception => None
  | Http_response status_code body =>
      if (status_code =? 200)%Z then
        match body with
        | Some route =>
            let distance_miles := summary_distance route / (160934 # 100) in
            let duration_hours := summary_duration route / 3600 in
            Some (mkLegData (round2 distance_miles) (round2 duration_hours)
                            (route_geometry route))
        | None => None
        end
      else None
  end.

Definition calculate_route (self : Generator) : Outcome RouteDetails :=
  let current := get_coordinates (current_location self) in
  let pickup := get_coordinates (pickup_location self) in
  let dropoff := get_coordinates (dropoff_location self) in
  if negb (truthy_coords current && truthy_coords pickup
           && truthy_coords dropoff) then
    Raise "Failed to geocode one or more locations"
  else
    match current, pickup, dropoff with
    | Some current, Some pickup, Some dropoff =>
        match get_route_leg current pickup, get_route_leg pickup dropoff with
        | Some leg1, Some leg2 =>
            Return
              (mkRouteDetails
                 (mkRouteLeg (current_location self) (pickup_location self)
                             (ld_distance leg1) (ld_duration leg1)
                             (ld_geometry leg1),
                  mkRouteLeg (pickup_location self) (dropoff_location self)
                             (ld_distance leg2) (ld_duration leg2)
                             (ld_geometry leg2))
                 (ld_distance leg1 + ld_distance leg2)
                 (ld_duration leg1 + ld_duration leg2))
        | _, _ => Raise "Failed to calculate route"
        end
    | _, _, _ => Raise "Failed to geocode one or more locations"
    end.

(** Lines 95-97: the route the simulation runs on. *)
Definition resolved_route (self : Generator) : Outcome RouteDetails :=
  match route_details self with
  | Some rd => Return rd
  | None => calculate_route self
  end.

(** [generate_log_sheets]: [None] when the fuel runs out; otherwise the
    exception raised, or the returned ['route_details'] and
    ['log_sheets']. *)
Definition generate_log_sheets (fuel : nat) (now : datetime)
    (self : Generator) : option (Outcome (RouteDetails * list DailyLog)) :=
  match resolved_route self with
  | Raise message => Some (Raise message)
  | Return rd =>
      match simulate fuel now (self_log_sheets self)
                     (current_cycle_used self) rd with
      | None => None
      | Some l => Some (Return (rd, loc_log_sheets l))
      end
  end.

(** ** [PlanTripView.post] *)

(** The rows of the two tables. *)
Record Trip := mkTrip {
  trip_id : nat;
  trip_fields : TripData
}.

Record LogSheet := mkLogSheet {
  ls_trip : nat;
  ls_date : date;
  ls_log_data : DailyLog
}.

Record Database := mkDatabase {
  trips : list Trip;
  logsheets : list LogSheet
}.

Inductive ResponseData :=
| Serializer_errors (errors : list string)
| Trip_result (rd : RouteDetails) (sheets : list DailyLog)
| Error_message (error : string).

Record Response := mkResponse {
  resp_data : ResponseData;
  resp_status : Z
}.

Definition HTTP_201_CREATED : Z := 201.
Definition HTTP_400_BAD_REQUEST : Z := 400.

(** The raw request body and [TripInputSerializer]'s validation of it
    ([is_valid], then [errors] or [validated_data]), a component of the
    REST framework. *)
Variable RequestData : Type.
Variable TripInputSerializer : RequestData -> list string + TripData.

(** [Trip.objects.create] on the validated fields. *)
Definition create_trip (db : Database) (fields : TripData)
  : Trip * Database :=
  let trip := mkTrip (S (List.length (trips db))) fields in
  (trip, mkDatabase (trips db ++ [trip]) (logsheets db)).

(** The [for log in trip_data['log_sheets']] loop of
    [LogSheet.objects.create]. *)
Definition create_logsheets (db : Database) (trip : Trip)
    (sheets : list DailyLog) : Database :=
  fold_left
    (fun db log =>
       mkDatabase (trips db)
                  (logsheets db
                   ++ [mkLogSheet (trip_id trip) (log_date log) log]))
    sheets db.

Definition post (fuel : nat) (now : datetime) (db : Database)
    (request_data : RequestData) : option (Response * Database) :=
  match TripInputSerializer request_data with
  | inl errors =>
      Some (mkResponse (Serializer_errors errors) HTTP_400_BAD_REQUEST, db)
  | inr validated_data =>
      let generator := __init__ validated_data in
      match generate_log_sheets fuel now generator with
      | None => None
      | Some (Raise e) =>
          Some (mkResponse (Error_message e) HTTP_400_BAD_REQUEST, db)
      | Some (Return (rd, sheets)) =>
          let '(trip, db) := create_trip db validated_data in
          let db := create_logsheets db trip sheets in
          Some (mkResponse (Trip_result rd sheets) HTTP_201_CREATED, db)
      end
  end.

End Provider.

(** ** Driving-time consumption in binary64 arithmetic

    The hours that [_add_driving] computes with are Python floats.  The
    definitions below repeat [_add_event] and [_add_driving] with every
    sum and difference of hours rounded as binary64 arithmetic rounds it,
    and with the OverflowError that a date outside the years 1 to 9999
    raises.  A float is the rational number it stands for; infinities and
    NaN are not modelled, and no operation of the loop on finite hours
    yields one. *)
Module Binary64.

(** The binary logarithm of [|x|], rounded down, for [x] other than 0. *)
Definition mag (x : Q) : Z :=
  let n := Z.abs (Qnum x) in
  let d := Zpos (Qden x) in
  let k := (Z.log2 n - Z.log2 d)%Z in
  if (if (0 <=? k)%Z then (d * 2 ^ k <=? n)%Z else (d <=? n * 2 ^ (- k))%Z)
  then k else (k - 1)%Z.

(** The exponent of the unit in the last place: 53 bits of precision,
    down to the subnormal numbers. *)
Definition exponent (x : Q) : Z := Z.max (mag x - 52) (-1074).

(** Rounding to the nearest binary64 number, ties to even. *)
Definition round (x : Q) : Q :=
  let x := Qred x in
  inject_Z (round_half_even (x / 2 ^ exponent x)) * 2 ^ exponent x.

(** The binary64 numbers. *)
Definition representable (x : Q) : Prop := round x == x.

(** [x + y] and [x - y] on floats. *)
Definition add (x y : Q) : Q := round (x + y).
Definition sub (x y : Q) : Q := round (x - y).

End Binary64.

(** [date.max.toordinal()], the ordinal of 9999-12-31. *)
Definition MAX_ORDINAL : Z := 3652059.

(** A datetime of the years 1 to 9999. *)
Definition in_range (t : datetime) : bool :=
  ((1 <=? date_of t)%Z && (date_of t <=? MAX_ORDINAL)%Z)%bool.

(** A returned value, or the OverflowError of a date out of range. *)
Inductive Result (A : Type) :=
| Returned (a : A)
| OverflowError.

Arguments Returned {A} a.
Arguments OverflowError {A}.

(** [t + timedelta(...)], the timedelta in microseconds.  Python raises
    OverflowError when the sum is out of range; a timedelta of more than
    999999999 days, which raises OverflowError by itself, takes every
    datetime out of range too. *)
Definition plus_timedelta (t : datetime) (delta : Z) : Result datetime :=
  if in_range (t + delta) then Returned (t + delta)%Z else OverflowError.

(** [_add_event] and [_add_driving] in binary64 arithmetic, under the
    names of the source with 64 appended. *)

(** [day_log['totals'][total_key] += duration_hours]. *)
Definition add_total64 (t : Totals) (s : Status) (h : Q) : Totals :=
  match s with
  | Driving =>
      mkTotals (Binary64.add (driving t) h) (on_duty t) (off_duty t)
               (sleeper t)
  | On_duty =>
      mkTotals (driving t) (Binary64.add (on_duty t) h) (off_duty t)
               (sleeper t)
  | Off_duty =>
      mkTotals (driving t) (on_duty t) (Binary64.add (off_duty t) h)
               (sleeper t)
  | Sleeper_berth =>
      mkTotals (driving t) (on_duty t) (off_duty t)
               (Binary64.add (sleeper t) h)
  end.

(** Lines 141-155 of [_add_event]: the event is recorded in the day
    log. *)
Definition record64 (day_log : DailyLog) (status : Status)
    (start_time end_time : datetime) (duration_hours : Q)
    (activity : option string) : DailyLog :=
  let event := mkEvent status (strftime_HM start_time) (strftime_HM end_time)
                       duration_hours (event_activity activity) in
  let start_idx := slot_index start_time in
  let end_idx := slot_index end_time in
  mkDailyLog (log_date day_log)
             (paint (grid day_log) start_idx (Z.min end_idx 96)
                    (status_code status))
             (events day_log ++ [event])
             (add_total64 (totals day_log) status duration_hours).

Definition _add_event64 (log_sheets : list DailyLog) (day_log : DailyLog)
    (status : Status) (start_time : datetime) (duration_hours : Q)
    (activity : option string)
  : Result (datetime * DailyLog * list DailyLog) :=
  match plus_timedelta start_time (timedelta_hours duration_hours) with
  | OverflowError => OverflowError
  | Returned end_time =>
      if (date_of end_time >? date_of start_time)%Z then
        let log_sheets := _finalize_day log_sheets day_log in
        let day_log := _init_day_log (date_of end_time) in
        let start_time := replace_hour_minute end_time 8 0 in
        match plus_timedelta start_time (timedelta_hours duration_hours) with
        | OverflowError => OverflowError
        | Returned end_time =>
            Returned (end_time,
                      record64 day_log status start_time end_time
                               duration_hours activity,
                      log_sheets)
        end
      else
        Returned (end_time,
                  record64 day_log status start_time end_time duration_hours
                           activity,
                  log_sheets)
  end.

(** [min(self.max_drive_hours - day_log['totals']['driving'],
         self.max_on_duty_hours - day_log['totals']['on_duty'],
         remaining_cycle, drive_time)]. *)
Definition available64 (s : DrivingState) : Q :=
  Qmin (Qmin (Qmin (Binary64.sub max_drive_hours
                                 (driving (totals (ds_day_log s))))
                   (Binary64.sub max_on_duty_hours
                                 (on_duty (totals (ds_day_log s)))))
             (ds_remaining_cycle s))
       (ds_drive_time s).

(** One pass through the body of the [while] loop. *)
Definition driving_iteration64 (s : DrivingState) : Result DrivingState :=
  let avail := available64 s in
  if Qle_bool avail 0 then
    let log_sheets := _finalize_day (ds_log_sheets s) (ds_day_log s) in
    match plus_timedelta (replace_hour_minute (ds_start_time s) 8 0)
                         (timedelta_days 1) with
    | OverflowError => OverflowError
    | Returned start_time =>
        let day_log := _init_day_log (date_of start_time) in
        match _add_event64 log_sheets day_log Sleeper_berth start_time
                           min_rest_hours None with
        | OverflowError => OverflowError
        | Returned (start_time, day_log, log_sheets) =>
            let remaining_cycle :=
              if (weekday start_time =? 0)%Z then max_cycle_hours
              else ds_remaining_cycle s in
            Returned (mkDrivingState log_sheets day_log start_time
                                     (ds_drive_time s) remaining_cycle)
        end
    end
  else
    match _add_event64 (ds_log_sheets s) (ds_day_log s) Driving
                       (ds_start_time s) avail None with
    | OverflowError => OverflowError
    | Returned (start_time, day_log, log_sheets) =>
        Returned (mkDrivingState log_sheets day_log start_time
                                 (Binary64.sub (ds_drive_time s) avail)
                                 (Binary64.sub (ds_remaining_cycle s) avail))
    end.

(** [while drive_time > 0: ...]; [None] when the fuel runs out first. *)
Fixpoint driving_loop64 (fuel : nat) (s : DrivingState)
  : option (Result DrivingState) :=
  if Qle_bool (ds_drive_time s) 0 then Some (Returned s)
  else
    match fuel with
    | O => None
    | S fuel' =>
        match driving_iteration64 s with
        | OverflowError => Some OverflowError
        | Returned s' => driving_loop64 fuel' s'
        end
    end.

Definition _add_driving64 (fuel : nat) (l : Locals) (drive_time : Q)
  : option (Result Locals) :=
  match driving_loop64 fuel
          (mkDrivingState (loc_log_sheets l) (loc_day_log l)
                          (loc_current_time l) drive_time
                          (loc_remaining_cycle l)) with
  | None => None
  | Some OverflowError => Some OverflowError
  | Some (Returned s) =>
      Some (Returned (mkLocals (ds_log_sheets s) (ds_day_log s)
                               (ds_start_time s) (ds_remaining_cycle s)))
  end.

(** * Auxiliary definitions *)

(** [totals[total_key]] for the key of a status. *)
Definition get_total (t : Totals) (s : Status) : Q :=
  match s with
  | Driving => driving t
  | On_duty => on_duty t
  | Off_duty => off_duty t
  | Sleeper_berth => sleeper t
  end.

(** The event record [_add_event] builds for given start and end. *)
Definition event_of (status : Status) (start_time end_time : datetime)
    (duration_hours : Q) (activity : option string) : Event :=
  mkEvent status (strftime_HM start_time) (strftime_HM end_time)
          duration_hours (event_activity activity).

(** The day log after an event has been recorded in it. *)
Definition record_event (day_log : DailyLog) (status : Status)
    (start_time end_time : datetime) (duration_hours : Q)
    (activity : option string) : DailyLog :=
  mkDailyLog (log_date day_log)
             (paint (grid day_log) (slot_index start_time)
                    (Z.min (slot_index end_time) 96) (status_code status))
             (events day_log
              ++ [event_of status start_time end_time duration_hours activity])
             (add_total (totals day_log) status duration_hours).

(** What [_add_driving] returns from a loop state, and the loop state it
    starts from. *)
Definition locals_of (s : DrivingState) : Locals :=
  mkLocals (ds_log_sheets s) (ds_day_log s) (ds_start_time s)
           (ds_remaining_cycle s).

Definition driving_state_of (l : Locals) (drive_time : Q) : DrivingState :=
  mkDrivingState (loc_log_sheets l) (loc_day_log l) (loc_current_time l)
                 drive_time (loc_remaining_cycle l).

(** The start of the rest day: 08:00 (with the seconds carried over) on
    the day after [t]. *)
Definition rest_start (t : datetime) : datetime :=
  (replace_hour_minute t 8 0 + timedelta_days 1)%Z.

(** The locals on entry of the simulation, before the Loading event. *)
Definition initial_locals (now : datetime) (sheets0 : list DailyLog)
    (used : Q) : Locals :=
  mkLocals sheets0 (_init_day_log (date_of (replace_hmsu now 8 0)))
           (replace_hmsu now 8 0) (max_cycle_hours - used).

(** The daily driving total stays within the 11-hour budget. *)
Definition driving_within_budget (d : DailyLog) : Prop :=
  0 <= driving (totals d) <= max_drive_hours.

(** The finalized sheets and the current day are within the budget. *)
Definition budget_invariant (l : Locals) : Prop :=
  Forall driving_within_budget (loc_log_sheets l)
  /\ driving_within_budget (loc_day_log l).

(** The on-duty total of a day is not negative. *)
Definition on_duty_nonneg (d : DailyLog) : Prop := 0 <= on_duty (totals d).

(** Every event recorded so far, day after day. *)
Definition history (l : Locals) : list Event :=
  flat_map events (loc_log_sheets l) ++ events (loc_day_log l).

(** [l'] is [l] after some more events: the finalized sheets of [l] are
    still there, and so is every event recorded by then. *)
Definition extends (l l' : Locals) : Prop :=
  (exists days, loc_log_sheets l' = loc_log_sheets l ++ days)
  /\ (exists evs, history l' = history l ++ evs).

(** The events a call of [_add_driving] records: rests and drives, none
    with an activity label. *)
Definition drive_event (ev : Event) : Prop :=
  ev_activity ev = None
  /\ (ev_status ev = Driving \/ ev_status ev = Sleeper_berth).

(** The hours driven in a list of events. *)
Fixpoint driven (evs : list Event) : Q :=
  match evs with
  | [] => 0
  | ev :: evs' =>
      match ev_status ev with
      | Driving => ev_duration ev + driven evs'
      | _ => driven evs'
      end
  end.

(** The events of driving [hours] hours. *)
Definition drive_events (hours : Q) (evs : list Event) : Prop :=
  Forall drive_event evs /\ driven evs == hours.

Definition is_fueling (ev : Event) : Prop :=
  ev_status ev = On_duty /\ ev_duration ev = fuel_time
  /\ ev_activity ev = Some "Fueling"%string.

(** [interleaved segs evs]: [evs] is the events of the segments [segs] in
    order, with one Fueling event between consecutive segments and none
    after the last. *)
Inductive interleaved : list (list Event) -> list Event -> Prop :=
| interleaved_last seg : interleaved [seg] seg
| interleaved_cons seg f segs evs :
    is_fueling f -> interleaved segs evs ->
    interleaved (seg :: segs) (seg ++ f :: evs).

(** Is the event labelled "Fueling"? *)
Definition fuelingb (ev : Event) : bool :=
  match ev_activity ev with
  | Some a => String.eqb a "Fueling"
  | None => false
  end.

(** The loop started in [s] comes to an end. *)
Inductive halts : DrivingState -> Prop :=
| halts_done s : Qle_bool (ds_drive_time s) 0 = true -> halts s
| halts_step s :
    Qle_bool (ds_drive_time s) 0 = false ->
    halts (driving_iteration s) -> halts s.

Definition Qnat (n : nat) : Q := inject_Z (Z.of_nat n).

(** The day log of a day that has neither driving nor on-duty time yet. *)
Definition fresh (s : DrivingState) : Prop :=
  driving (totals (ds_day_log s)) == 0
  /\ on_duty (totals (ds_day_log s)) == 0.

(** Days from date [d] to the next Monday, [d] included. *)
Definition days_to_monday (d : date) : Z := (- (d + 6)) mod 7.

(** The three statements proved together by induction on the number of
    11-hour days the drive time fits in. *)
Definition halts_fresh_full (n : nat) : Prop :=
  forall s, fresh s -> ds_drive_time s <= 11 * Qnat n ->
            11 <= ds_remaining_cycle s -> halts s.

Definition halts_fresh (n : nat) : Prop :=
  forall s, fresh s -> ds_drive_time s <= 11 * Qnat n -> halts s.

Definition halts_resting (n : nat) : Prop :=
  forall s, ds_drive_time s <= 11 * Qnat n -> available s <= 0 -> halts s.

(** A day opened by a drive that crossed midnight: no on-duty time, some
    driving time. *)
Definition crossed (s : DrivingState) : Prop :=
  on_duty (totals (ds_day_log s)) == 0
  /\ 0 < driving (totals (ds_day_log s)).

(** Oracles of a provider that never answers, for the closed examples. *)
Definition no_get (_ : string) : HttpResult (option GeocodeBody) :=
  Http_exception.
Definition no_post (_ _ : Coords) : HttpResult (option RouteBody) :=
  Http_exception.

(** One of the three geocoding calls yields no usable coordinates. *)
Definition geocode_failed
    (requests_get : string -> HttpResult (option GeocodeBody))
    (trip : TripData) : Prop :=
  truthy_coords (get_coordinates requests_get (td_current_location trip))
  = false
  \/ truthy_coords (get_coordinates requests_get (td_pickup_location trip))
     = false
  \/ truthy_coords (get_coordinates requests_get (td_dropoff_location trip))
     = false.

(** The three locations are geocoded and one of the two legs is not
    computed. *)
Definition route_leg_failed
    (requests_get : string -> HttpResult (option GeocodeBody))
    (requests_post : Coords -> Coords -> HttpResult (option RouteBody))
    (trip : TripData) : Prop :=
  exists current pickup dropoff,
    get_coordinates requests_get (td_current_location trip) = Some current
    /\ get_coordinates requests_get (td_pickup_location trip) = Some pickup
    /\ get_coordinates requests_get (td_dropoff_location trip) = Some dropoff
    /\ (get_route_leg requests_post current pickup = None
        \/ get_route_leg requests_post pickup dropoff = None).

(** The binary64 loop comes to an end from a state: the drive time is
    used up, or an iteration raises, or the loop comes to an end from the
    state after an iteration. *)
Inductive halts64 : DrivingState -> Prop :=
| halts64_done s :
    Qle_bool (ds_drive_time s) 0 = true -> halts64 s
| halts64_raise s :
    Qle_bool (ds_drive_time s) 0 = false ->
    driving_iteration64 s = OverflowError -> halts64 s
| halts64_step s s' :
    Qle_bool (ds_drive_time s) 0 = false ->
    driving_iteration64 s = Returned s' ->
    halts64 s' -> halts64 s.

(** The states of the binary64 loop that the generator reaches: the clock
    is in range, the driving total is a binary64 number, and the on-duty
    total is not within half an hour below 14 (the on-duty totals of the
    generator are multiples of half an hour). *)
Definition ready64 (s : DrivingState) : Prop :=
  in_range (ds_start_time s) = true
  /\ Binary64.representable (driving (totals (ds_day_log s)))
  /\ (on_duty (totals (ds_day_log s)) <= 27 # 2
      \/ 14 <= on_duty (totals (ds_day_log s))).

(** The days left to the end of the date range, and the microseconds left
    to the end of the day. *)
Definition days_left (s : DrivingState) : nat :=
  Z.to_nat (MAX_ORDINAL - date_of (ds_start_time s)).
Definition us_left (s : DrivingState) : nat :=
  Z.to_nat ((date_of (ds_start_time s) + 1) * US_PER_DAY - ds_start_time s).

(** A state in which the binary64 loop makes no progress: an on-duty total
    one unit in the last place below 14, and a driving total so far
    below zero that a drive of that unit does not change it. *)
Definition stalled (s : DrivingState) : Prop :=
  in_range (ds_start_time s) = true
  /\ driving (totals (ds_day_log s)) == - inject_Z (2 ^ 100)
  /\ on_duty (totals (ds_day_log s)) == 14 - (1 # 562949953421312)
  /\ ds_remaining_cycle s == 70
  /\ ds_drive_time s == 100.

(** ** Definitions for the further properties *)

Definition status_eqb (a b : Status) : bool :=
  match a, b with
  | Driving, Driving | On_duty, On_duty | Off_duty, Off_duty
  | Sleeper_berth, Sleeper_berth => true
  | _, _ => false
  end.

(** The hours of the events of one status. *)
Fixpoint status_hours (st : Status) (evs : list Event) : Q :=
  match evs with
  | [] => 0
  | ev :: evs' =>
      if status_eqb (ev_status ev) st
      then ev_duration ev + status_hours st evs'
      else status_hours st evs'
  end.

(** Each total of the day is the sum of the durations of the day's events
    of that status. *)
Definition totals_match_events (d : DailyLog) : Prop :=
  forall st, get_total (totals d) st == status_hours st (events d).

(** No off-duty time, and no rest or the one 10-hour rest. *)
Definition rest_and_off_duty (d : DailyLog) : Prop :=
  off_duty (totals d) = 0
  /\ Forall (fun ev => ev_status ev <> Off_duty) (events d)
  /\ (sleeper (totals d) = 0 \/ sleeper (totals d) = 0 + min_rest_hours).

(** A property of day logs holds of the finalized sheets and of the
    current day. *)
Definition all_days (P : DailyLog -> Prop) (l : Locals) : Prop :=
  Forall P (loc_log_sheets l) /\ P (loc_day_log l).

(** Each event starts at the time of day the event before it ended. *)
Fixpoint contiguous (evs : list Event) : Prop :=
  match evs with
  | ev1 :: (ev2 :: _) as evs' => ev_end ev1 = ev_start ev2 /\ contiguous evs'
  | _ => True
  end.

Fixpoint last_event (evs : list Event) : option Event :=
  match evs with
  | [] => None
  | [ev] => Some ev
  | _ :: evs' => last_event evs'
  end.

(** The events of the day are contiguous and the first one, if any,
    starts at 08:00. *)
Definition day_schedule (d : DailyLog) : Prop :=
  contiguous (events d)
  /\ match events d with
     | ev :: _ => ev_start ev = "08:00"%string
     | [] => True
     end.

(** The schedule of the run so far: every day is scheduled as above, and
    the clock reads the end of the last event of the current day, or 08:00
    when the day has no event yet. *)
Definition schedule_invariant (l : Locals) : Prop :=
  all_days day_schedule l
  /\ match last_event (events (loc_day_log l)) with
     | Some ev => ev_end ev = strftime_HM (loc_current_time l)
     | None => strftime_HM (loc_current_time l) = "08:00"%string
     end.

(** The calendar of the run so far: the clock is on the date of the
    current day log, which holds an event, as every sheet does; the dates
    of the sheets and of the current day increase strictly, from the date
    the run started on. *)
Definition calendar_invariant (today : date) (l : Locals) : Prop :=
  date_of (loc_current_time l) = log_date (loc_day_log l)
  /\ StronglySorted Z.lt (map log_date (loc_log_sheets l))
  /\ Forall (fun d => (log_date d < log_date (loc_day_log l))%Z)
            (loc_log_sheets l)
  /\ Forall (fun d => events d <> []) (loc_log_sheets l)
  /\ events (loc_day_log l) <> []
  /\ hd (log_date (loc_day_log l)) (map log_date (loc_log_sheets l))
     = today.

Definition calendar_and_budget (today : date) (l : Locals) : Prop :=
  calendar_invariant today l /\ budget_invariant l.

(** The generator with other log sheets in [self.log_sheets]. *)
Definition with_log_sheets (self : Generator) (sheets : list DailyLog)
  : Generator :=
  mkGenerator (current_location self) (pickup_location self)
              (dropoff_location self) (current_cycle_used self)
              (route_details self) sheets.

(** The locals with [sheets] in front of the log sheets. *)
Definition prepend_sheets (sheets : list DailyLog) (l : Locals) : Locals :=
  mkLocals (sheets ++ loc_log_sheets l) (loc_day_log l) (loc_current_time l)
           (loc_remaining_cycle l).

(** The rows [post] adds for the log sheets of a trip. *)
Definition logsheet_rows (trip : Trip) (sheets : list DailyLog)
  : list LogSheet :=
  map (fun log => mkLogSheet (trip_id trip) (log_date log) log) sheets.

(** The sum of one total over the sheets. *)
Fixpoint total_over (f : Totals -> Q) (sheets : list DailyLog) : Q :=
  match sheets with
  | [] => 0
  | d :: sheets' => f (totals d) + total_over f sheets'
  end.

(** The loop state with [sheets] in front of the log sheets. *)
Definition prepend_state (sheets : list DailyLog) (s : DrivingState)
  : DrivingState :=
  mkDrivingState (sheets ++ ds_log_sheets s) (ds_day_log s) (ds_start_time s)
                 (ds_drive_time s) (ds_remaining_cycle s).

(** A value with two decimals. *)
Definition two_decimals (x : Q) : Prop := exists n : Z, x == inject_Z n / 100.

(** Oracles of a provider that answers every request alike, for the
    closed examples: one place, and one road of 100 km in 75 minutes. *)
Definition one_place_get (_ : string) : HttpResult (option GeocodeBody) :=
  Http_response 200 (Some (mkGeocodeBody (Some [Some [1; 2]]))).
Definition one_road_post (_ _ : Coords) : HttpResult (option RouteBody) :=
  Http_response 200 (Some (mkRouteBody 100000 4500 "g")).

(** The grid is one block of activity: 96 slots, OFF before slot 32
    (08:00), not OFF from slot 32 up to slot [k], and OFF from slot [k]
    on. *)
Definition grid_block (k : Z) (g : list Code) : Prop :=
  List.length g = 96%nat
  /\ forall j, (j < 96)%nat ->
               nth j g OFF = OFF <-> (Z.of_nat j < 32 \/ k <= Z.of_nat j)%Z.

(** The grids of the run so far, with the calendar: the sheets are blocks,
    and the current day is a block up to the slot of the clock. *)
Definition grid_invariant (today : date) (l : Locals) : Prop :=
  calendar_and_budget today l
  /\ Forall (fun d => exists k, (32 <= k <= 95)%Z /\ grid_block k (grid d))
            (loc_log_sheets l)
  /\ (32 <= slot_index (loc_current_time l))%Z
  /\ grid_block (slot_index (loc_current_time l)) (grid (loc_day_log l)).

(** * Lemmas *)

(** ** Rounding and time *)

Lemma round_half_even_bounds (q : Q) :
  q - (1 # 2) <= inject_Z (round_half_even q)
  /\ inject_Z (round_half_even q) <= q + (1 # 2).
Proof.
  unfold round_half_even.
  pose proof (Qfloor_le q) as Hlo.
  pose proof (Qlt_floor q) as Hhi.
  rewrite inject_Z_plus in Hhi.
  change (inject_Z 1) with 1 in Hhi.
  destruct (Qcompare (q - inject_Z (Qfloor q)) (1 # 2)) eqn:Hc.
  - apply <- Qeq_alt in Hc.
    destruct (Z.even (Qfloor q));
      [|rewrite inject_Z_plus; change (inject_Z 1) with 1]; split; lra.
  - apply <- Qlt_alt in Hc. split; lra.
  - apply <- Qgt_alt in Hc. rewrite inject_Z_plus.
    change (inject_Z 1) with 1. split; lra.
Qed.

Lemma round_half_even_Z (z : Z) : round_half_even (inject_Z z) = z.
Proof.
  unfold round_half_even. rewrite Qfloor_Z.
  assert (H : Qcompare (inject_Z z - inject_Z z) (1 # 2) = Lt).
  { apply -> Qlt_alt. lra. }
  now rewrite H.
Qed.

Lemma timedelta_hours_le (h : Q) (n : Z) :
  h <= inject_Z n -> (timedelta_hours h <= n * US_PER_HOUR)%Z.
Proof.
  intros Hh. unfold timedelta_hours.
  destruct (round_half_even_bounds (h * inject_Z US_PER_HOUR)) as [_ Hhi].
  assert (Hq : inject_Z (round_half_even (h * inject_Z US_PER_HOUR))
               < inject_Z (n * US_PER_HOUR + 1)).
  { rewrite inject_Z_plus, inject_Z_mult.
    assert (Hpos : 0 < inject_Z US_PER_HOUR) by reflexivity.
    assert (Hm : h * inject_Z US_PER_HOUR <= inject_Z n * inject_Z US_PER_HOUR).
    { apply Qmult_le_compat_r; [exact Hh | lra]. }
    change (inject_Z 1) with 1. lra. }
  rewrite <- Zlt_Qlt in Hq. lia.
Qed.

Lemma timedelta_hours_nonneg h : 0 <= h -> (0 <= timedelta_hours h)%Z.
Proof.
  intros Hh. unfold timedelta_hours.
  destruct (round_half_even_bounds (h * inject_Z US_PER_HOUR)) as [Hlo _].
  assert (Hq : inject_Z (-1) < inject_Z (round_half_even
                                           (h * inject_Z US_PER_HOUR))).
  { assert (Hm : 0 <= h * inject_Z US_PER_HOUR).
    { apply Qmult_le_0_compat; [exact Hh | discriminate]. }
    change (inject_Z (-1)) with (-1). lra. }
  rewrite <- Zlt_Qlt in Hq. lia.
Qed.

Lemma timedelta_hours_10 :
  timedelta_hours min_rest_hours = (10 * US_PER_HOUR)%Z.
Proof. reflexivity. Qed.

(** Integer arithmetic with division and remainder by the unit constants. *)
Ltac time_arith := Z.div_mod_to_equations; lia.

Lemma date_of_anchor (t : datetime) :
  date_of (replace_hour_minute t 8 0) = date_of t.
Proof.
  unfold replace_hour_minute, date_of, US_PER_DAY, US_PER_HOUR, US_PER_MINUTE.
  time_arith.
Qed.

Lemma hour_anchor (t : datetime) : hour (replace_hour_minute t 8 0) = 8%Z.
Proof.
  unfold hour, replace_hour_minute, date_of, US_PER_DAY, US_PER_HOUR,
    US_PER_MINUTE.
  time_arith.
Qed.

Lemma minute_anchor (t : datetime) : minute (replace_hour_minute t 8 0) = 0%Z.
Proof.
  unfold minute, replace_hour_minute, date_of, US_PER_DAY, US_PER_HOUR,
    US_PER_MINUTE.
  time_arith.
Qed.

Lemma strftime_anchor (t : datetime) :
  strftime_HM (replace_hour_minute t 8 0) = "08:00"%string.
Proof.
  unfold strftime_HM. now rewrite hour_anchor, minute_anchor.
Qed.

(** The anchored event ends on the anchor's date exactly when 08:00, the
    seconds carried over and the duration stay below 24 hours. *)
Lemma date_of_anchor_plus (t d : Z) :
  (0 <= d)%Z ->
  date_of (replace_hour_minute t 8 0 + d)%Z = date_of t
  <-> (8 * US_PER_HOUR + t mod US_PER_MINUTE + d < US_PER_DAY)%Z.
Proof.
  unfold replace_hour_minute, date_of, US_PER_DAY, US_PER_HOUR, US_PER_MINUTE.
  intros Hd. split; intros H; time_arith.
Qed.

Lemma date_of_day_plus (d x : Z) :
  (0 <= x < US_PER_DAY)%Z -> date_of (d * US_PER_DAY + x) = d.
Proof. unfold date_of, US_PER_DAY. intros H. time_arith. Qed.

Lemma hour_day_plus (d x : Z) : hour (d * US_PER_DAY + x) = hour x.
Proof.
  unfold hour. f_equal.
  rewrite Z.add_comm, Z.mod_add; [reflexivity | discriminate].
Qed.

Lemma minute_day_plus (d x : Z) : minute (d * US_PER_DAY + x) = minute x.
Proof.
  unfold minute. f_equal.
  replace (d * US_PER_DAY + x)%Z with (x + (d * 24) * US_PER_HOUR)%Z
    by (unfold US_PER_DAY, US_PER_HOUR; lia).
  rewrite Z.mod_add; [reflexivity | discriminate].
Qed.

Lemma strftime_day_plus (d x : Z) :
  strftime_HM (d * US_PER_DAY + x) = strftime_HM x.
Proof. unfold strftime_HM. now rewrite hour_day_plus, minute_day_plus. Qed.

Lemma slot_index_day_plus (d x : Z) :
  slot_index (d * US_PER_DAY + x) = slot_index x.
Proof. unfold slot_index. now rewrite hour_day_plus, minute_day_plus. Qed.

Lemma date_of_rest_start t : date_of (rest_start t) = (date_of t + 1)%Z.
Proof.
  unfold rest_start, timedelta_days, replace_hour_minute, date_of,
    US_PER_DAY, US_PER_HOUR, US_PER_MINUTE.
  time_arith.
Qed.

Lemma date_of_rest_end t :
  date_of (rest_start t + 10 * US_PER_HOUR) = (date_of t + 1)%Z.
Proof.
  unfold rest_start, timedelta_days, replace_hour_minute, date_of,
    US_PER_DAY, US_PER_HOUR, US_PER_MINUTE.
  time_arith.
Qed.

Lemma strftime_rest_start t : strftime_HM (rest_start t) = "08:00"%string.
Proof.
  assert (Hh : hour (rest_start t) = 8%Z).
  { unfold hour, rest_start, timedelta_days, replace_hour_minute, date_of,
      US_PER_DAY, US_PER_HOUR, US_PER_MINUTE. time_arith. }
  assert (Hm : minute (rest_start t) = 0%Z).
  { unfold minute, rest_start, timedelta_days, replace_hour_minute, date_of,
      US_PER_DAY, US_PER_HOUR, US_PER_MINUTE. time_arith. }
  unfold strftime_HM. now rewrite Hh, Hm.
Qed.

Lemma strftime_rest_end t :
  strftime_HM (rest_start t + 10 * US_PER_HOUR) = "18:00"%string.
Proof.
  assert (Hh : hour (rest_start t + 10 * US_PER_HOUR) = 18%Z).
  { unfold hour, rest_start, timedelta_days, replace_hour_minute, date_of,
      US_PER_DAY, US_PER_HOUR, US_PER_MINUTE. time_arith. }
  assert (Hm : minute (rest_start t + 10 * US_PER_HOUR) = 0%Z).
  { unfold minute, rest_start, timedelta_days, replace_hour_minute, date_of,
      US_PER_DAY, US_PER_HOUR, US_PER_MINUTE. time_arith. }
  unfold strftime_HM. now rewrite Hh, Hm.
Qed.

Lemma replace_hmsu_8 (now : datetime) :
  replace_hmsu now 8 0 = (date_of now * US_PER_DAY + 8 * US_PER_HOUR)%Z.
Proof. unfold replace_hmsu. lia. Qed.

(** ** [_add_event], case by case *)

Lemma add_event_same_day ls dl st t h act :
  (date_of (t + timedelta_hours h) >? date_of t)%Z = false ->
  _add_event ls dl st t h act
  = ((t + timedelta_hours h)%Z,
     record_event dl st t (t + timedelta_hours h)%Z h act, ls).
Proof. intros H. unfold _add_event. now rewrite H. Qed.

Lemma add_event_next_day ls dl st t h act :
  (date_of (t + timedelta_hours h) >? date_of t)%Z = true ->
  let anchor := replace_hour_minute (t + timedelta_hours h) 8 0 in
  _add_event ls dl st t h act
  = ((anchor + timedelta_hours h)%Z,
     record_event (_init_day_log (date_of (t + timedelta_hours h))) st
                  anchor (anchor + timedelta_hours h)%Z h act,
     _finalize_day ls dl).
Proof. intros H. unfold _add_event. now rewrite H. Qed.

(** Whatever the case, the sheets only grow, by at most the day log that
    was current, and the hours go to the status of the event. *)
Lemma add_event_cases ls dl st t h act :
  exists t' dl',
    _add_event ls dl st t h act
    = (t', record_event dl' st (t' - timedelta_hours h)%Z t' h act,
       if (date_of (t + timedelta_hours h) >? date_of t)%Z
       then ls ++ [dl] else ls)
    /\ (if (date_of (t + timedelta_hours h) >? date_of t)%Z
        then dl' = _init_day_log (date_of (t + timedelta_hours h))
        else dl' = dl).
Proof.
  destruct (date_of (t + timedelta_hours h) >? date_of t)%Z eqn:H.
  - rewrite (add_event_next_day ls dl st t h act H). cbv zeta.
    eexists _, _. split; [|reflexivity].
    unfold _finalize_day. repeat f_equal; lia.
  - rewrite (add_event_same_day ls dl st t h act H).
    eexists _, _. split; [|reflexivity].
    repeat f_equal; lia.
Qed.

Lemma crossing_gtb (t d : Z) :
  (date_of t < date_of (t + d))%Z -> (date_of (t + d) >? date_of t)%Z = true.
Proof. intros H. now apply Z.gtb_lt. Qed.


Lemma record_event_day_plus dl st d a b h act :
  record_event dl st (d * US_PER_DAY + a) (d * US_PER_DAY + b) h act
  = record_event dl st a b h act.
Proof.
  unfold record_event, event_of.
  now rewrite !strftime_day_plus, !slot_index_day_plus.
Qed.

(** An event that starts [x] microseconds into day [d] and ends before
    midnight is recorded in the current day log. *)
Lemma add_event_within_day ls dl st d x h act :
  (0 <= x)%Z -> (0 <= timedelta_hours h)%Z ->
  (x + timedelta_hours h < US_PER_DAY)%Z ->
  _add_event ls dl st (d * US_PER_DAY + x) h act
  = ((d * US_PER_DAY + (x + timedelta_hours h))%Z,
     record_event dl st x (x + timedelta_hours h) h act, ls).
Proof.
  intros Hx Hh Hend.
  rewrite add_event_same_day.
  - rewrite <- (record_event_day_plus dl st d x (x + timedelta_hours h) h act).
    now rewrite Z.add_assoc.
  - rewrite <- Z.add_assoc, !date_of_day_plus by lia.
    rewrite Z.gtb_ltb. apply Z.ltb_irrefl.
Qed.

Lemma on_duty_event_within_day ls dl d x rc h act :
  (0 <= x)%Z -> (0 <= timedelta_hours h)%Z ->
  (x + timedelta_hours h < US_PER_DAY)%Z ->
  on_duty_event (mkLocals ls dl (d * US_PER_DAY + x) rc) h act
  = mkLocals ls
             (record_event dl On_duty x (x + timedelta_hours h) h (Some act))
             (d * US_PER_DAY + (x + timedelta_hours h)) rc.
Proof.
  intros Hx Hh Hend. unfold on_duty_event.
  cbn [loc_log_sheets loc_day_log loc_current_time loc_remaining_cycle].
  now rewrite add_event_within_day.
Qed.

(** The locals after the Loading event that opens every run. *)
Lemma loading_event now sheets0 used :
  on_duty_event (initial_locals now sheets0 used) pickup_dropoff_time
                "Loading"
  = mkLocals sheets0
      (mkDailyLog (date_of now)
         (paint (repeat OFF 96) 32 36 ON)
         [mkEvent On_duty "08:00" "09:00" 1 (Some "Loading"%string)]
         (mkTotals 0 (0 + 1) 0 0))
      (date_of now * US_PER_DAY + 9 * US_PER_HOUR)
      (max_cycle_hours - used).
Proof.
  unfold initial_locals. rewrite replace_hmsu_8.
  generalize (date_of now) as d. intros d.
  rewrite date_of_day_plus by (vm_compute; split; congruence).
  rewrite on_duty_event_within_day by (vm_compute; congruence).
  reflexivity.
Qed.

(** ** The two kinds of loop iteration *)

Lemma add_driving_unfold fuel l dt :
  _add_driving fuel l dt
  = option_map locals_of (driving_loop fuel (driving_state_of l dt)).
Proof.
  unfold _add_driving, driving_state_of.
  now destruct (driving_loop fuel _).
Qed.

Lemma available_bounds s :
  available s <= max_drive_hours - driving (totals (ds_day_log s))
  /\ available s <= max_on_duty_hours - on_duty (totals (ds_day_log s))
  /\ available s <= ds_remaining_cycle s
  /\ available s <= ds_drive_time s.
Proof.
  unfold available.
  set (a := max_drive_hours - driving (totals (ds_day_log s))).
  set (b := max_on_duty_hours - on_duty (totals (ds_day_log s))).
  pose proof (Q.le_min_l (Qmin (Qmin a b) (ds_remaining_cycle s))
                         (ds_drive_time s)) as H1.
  pose proof (Q.le_min_r (Qmin (Qmin a b) (ds_remaining_cycle s))
                         (ds_drive_time s)) as H2.
  pose proof (Q.le_min_l (Qmin a b) (ds_remaining_cycle s)) as H3.
  pose proof (Q.le_min_r (Qmin a b) (ds_remaining_cycle s)) as H4.
  pose proof (Q.le_min_l a b) as H5.
  pose proof (Q.le_min_r a b) as H6.
  repeat split; lra.
Qed.

(** [available] is positive exactly when each of its four arguments is. *)
Lemma available_pos s :
  0 < max_drive_hours - driving (totals (ds_day_log s)) ->
  0 < max_on_duty_hours - on_duty (totals (ds_day_log s)) ->
  0 < ds_remaining_cycle s -> 0 < ds_drive_time s ->
  0 < available s.
Proof.
  intros Ha Hb Hc Hd. unfold available.
  repeat apply Q.min_glb_lt; assumption.
Qed.

Lemma Qle_bool_false x y : Qle_bool x y = false <-> y < x.
Proof.
  split; intros H.
  - apply Qnot_le_lt. intros Hle. apply Qle_bool_iff in Hle. congruence.
  - destruct (Qle_bool x y) eqn:E; [|reflexivity].
    apply Qle_bool_iff in E. lra.
Qed.

Lemma available_cases s :
  available s == max_drive_hours - driving (totals (ds_day_log s))
  \/ available s == max_on_duty_hours - on_duty (totals (ds_day_log s))
  \/ available s == ds_remaining_cycle s
  \/ available s == ds_drive_time s.
Proof.
  unfold available.
  set (a := max_drive_hours - driving (totals (ds_day_log s))).
  set (b := max_on_duty_hours - on_duty (totals (ds_day_log s))).
  destruct (Q.min_spec (Qmin (Qmin a b) (ds_remaining_cycle s))
                       (ds_drive_time s)) as [[_ H1] | [_ H1]];
    [|right; right; right; exact H1].
  destruct (Q.min_spec (Qmin a b) (ds_remaining_cycle s))
    as [[_ H2] | [_ H2]]; [|right; right; left; now rewrite H1].
  destruct (Q.min_spec a b) as [[_ H3] | [_ H3]];
    [left | right; left]; now rewrite H1, H2.
Qed.

(** Deciding the two loop tests, in the order. *)
Lemma Qle_bool_cases x :
  (Qle_bool x 0 = true /\ x <= 0) \/ (Qle_bool x 0 = false /\ 0 < x).
Proof.
  destruct (Qle_bool x 0) eqn:E.
  - left. split; [reflexivity | now apply Qle_bool_iff].
  - right. split; [reflexivity | now apply Qle_bool_false].
Qed.

(** The rest iteration: the day is finalized, and the next day opens with
    a 10-hour sleeper-berth event from 08:00. *)
Lemma rest_iteration s :
  Qle_bool (available s) 0 = true ->
  let t1 := rest_start (ds_start_time s) in
  let t2 := (t1 + 10 * US_PER_HOUR)%Z in
  driving_iteration s
  = mkDrivingState
      (ds_log_sheets s ++ [ds_day_log s])
      (record_event (_init_day_log (date_of (ds_start_time s) + 1))
                    Sleeper_berth t1 t2 min_rest_hours None)
      t2 (ds_drive_time s)
      (if (weekday t2 =? 0)%Z then max_cycle_hours
       else ds_remaining_cycle s).
Proof.
  intros Hav t1 t2. unfold driving_iteration. rewrite Hav.
  fold (rest_start (ds_start_time s)). fold t1.
  rewrite add_event_same_day.
  - rewrite timedelta_hours_10. fold t2. unfold t1 at 1.
    now rewrite date_of_rest_start.
  - rewrite timedelta_hours_10. unfold t1.
    rewrite date_of_rest_end, date_of_rest_start.
    rewrite Z.gtb_ltb. apply Z.ltb_irrefl.
Qed.

(** The driving iteration: [available] hours are driven, in the current
    day or, when the event crosses midnight, in a fresh one. *)
Lemma drive_iteration s :
  Qle_bool (available s) 0 = false ->
  exists t' dl',
    driving_iteration s
    = mkDrivingState
        (if (date_of (ds_start_time s + timedelta_hours (available s))
             >? date_of (ds_start_time s))%Z
         then ds_log_sheets s ++ [ds_day_log s] else ds_log_sheets s)
        (record_event dl' Driving (t' - timedelta_hours (available s)) t'
                      (available s) None)
        t' (ds_drive_time s - available s)
        (ds_remaining_cycle s - available s)
    /\ (if (date_of (ds_start_time s + timedelta_hours (available s))
            >? date_of (ds_start_time s))%Z
        then dl' = _init_day_log
                     (date_of (ds_start_time s
                               + timedelta_hours (available s)))
        else dl' = ds_day_log s).
Proof.
  intros Hav. unfold driving_iteration. rewrite Hav.
  destruct (add_event_cases (ds_log_sheets s) (ds_day_log s) Driving
              (ds_start_time s) (available s) None) as (t' & dl' & He & Hdl).
  rewrite He. now exists t', dl'.
Qed.

Lemma rest_step s :
  Qle_bool (available s) 0 = true ->
  ds_drive_time (driving_iteration s) = ds_drive_time s
  /\ driving (totals (ds_day_log (driving_iteration s))) = 0
  /\ on_duty (totals (ds_day_log (driving_iteration s))) = 0
  /\ date_of (ds_start_time (driving_iteration s))
     = (date_of (ds_start_time s) + 1)%Z
  /\ ds_remaining_cycle (driving_iteration s)
     = (if (weekday (ds_start_time (driving_iteration s)) =? 0)%Z
        then max_cycle_hours else ds_remaining_cycle s).
Proof.
  intros Hav. rewrite (rest_iteration s Hav).
  cbn [ds_drive_time ds_day_log ds_start_time ds_remaining_cycle
       record_event totals add_total _init_day_log driving on_duty].
  repeat split. apply date_of_rest_end.
Qed.

Lemma drive_step s :
  Qle_bool (available s) 0 = false ->
  ds_drive_time (driving_iteration s) = ds_drive_time s - available s
  /\ ds_remaining_cycle (driving_iteration s)
     = ds_remaining_cycle s - available s
  /\ ((driving (totals (ds_day_log (driving_iteration s)))
        = driving (totals (ds_day_log s)) + available s
       /\ on_duty (totals (ds_day_log (driving_iteration s)))
          = on_duty (totals (ds_day_log s)))
      \/ (driving (totals (ds_day_log (driving_iteration s)))
          = 0 + available s
          /\ on_duty (totals (ds_day_log (driving_iteration s))) = 0)).
Proof.
  intros Hav. destruct (drive_iteration s Hav) as (t' & dl' & -> & Hdl).
  cbn [ds_drive_time ds_day_log ds_remaining_cycle record_event totals
       add_total driving on_duty].
  split; [reflexivity|]. split; [reflexivity|].
  destruct (_ >? _)%Z; subst dl'; [right | left]; split; reflexivity.
Qed.

(** A drive that fits the budgets and the day is one Driving event. *)
Lemma add_driving_single fuel ls dl d x rc dt :
  let s := mkDrivingState ls dl (d * US_PER_DAY + x) dt rc in
  Qle_bool dt 0 = false ->
  Qle_bool (available s) 0 = false ->
  Qle_bool (dt - available s) 0 = true ->
  (0 <= x)%Z -> (0 <= timedelta_hours (available s))%Z ->
  (x + timedelta_hours (available s) < US_PER_DAY)%Z ->
  _add_driving (S fuel) (mkLocals ls dl (d * US_PER_DAY + x) rc) dt
  = Some (mkLocals ls
            (record_event dl Driving x (x + timedelta_hours (available s))
                          (available s) None)
            (d * US_PER_DAY + (x + timedelta_hours (available s)))
            (rc - available s)).
Proof.
  intros s Hdt Hav Hdone Hx Hh Hend.
  unfold _add_driving.
  cbn [loc_log_sheets loc_day_log loc_current_time loc_remaining_cycle].
  fold s. cbn [driving_loop]. cbn [ds_drive_time s]. rewrite Hdt.
  unfold driving_iteration. rewrite Hav.
  cbn [ds_log_sheets ds_day_log ds_start_time ds_drive_time
       ds_remaining_cycle s].
  fold s. rewrite add_event_within_day by assumption.
  destruct fuel; cbn [driving_loop ds_drive_time]; rewrite Hdone; reflexivity.
Qed.

(** A drive of no time at all leaves the locals as they are. *)
Lemma add_driving_nothing fuel l dt :
  Qle_bool dt 0 = true -> _add_driving fuel l dt = Some l.
Proof.
  intros Hdt. unfold _add_driving.
  destruct fuel; cbn [driving_loop ds_drive_time]; rewrite Hdt;
    now destruct l.
Qed.

(** ** Invariants of a run *)

(** A property of the locals that events and loop iterations preserve
    holds when [_add_driving] returns, at every turn of the segment loop,
    and at the end of the simulation. *)
Section Invariant.

Variable Inv : Locals -> Prop.

Hypothesis Inv_event :
  forall l h act, Inv l -> Inv (on_duty_event l h act).

Hypothesis Inv_iteration :
  forall s, Inv (locals_of s) -> 0 < ds_drive_time s ->
            Inv (locals_of (driving_iteration s)).

Lemma driving_loop_invariant fuel :
  forall s s', driving_loop fuel s = Some s' ->
               Inv (locals_of s) -> Inv (locals_of s').
Proof.
  induction fuel as [|fuel IH]; intros s s' Hloop Hinv; cbn in Hloop;
    destruct (Qle_bool (ds_drive_time s) 0) eqn:Hdt;
    try (injection Hloop as <-; exact Hinv); try discriminate.
  apply (IH _ _ Hloop). apply Inv_iteration; [exact Hinv|].
  now apply Qle_bool_false.
Qed.

Lemma add_driving_invariant fuel l dt l' :
  _add_driving fuel l dt = Some l' -> Inv l -> Inv l'.
Proof.
  rewrite add_driving_unfold. intros Hrun Hinv.
  destruct (driving_loop fuel (driving_state_of l dt)) as [s'|] eqn:Hloop;
    [|discriminate].
  injection Hrun as <-.
  apply (driving_loop_invariant fuel _ _ Hloop). now destruct l.
Qed.

Lemma segment_loop_invariant fuel fuel_stops seg indices :
  forall l l', segment_loop fuel fuel_stops seg indices l = Some l' ->
               Inv l -> Inv l'.
Proof.
  induction indices as [|i indices IH]; intros l l' Hrun Hinv; cbn in Hrun.
  - now injection Hrun as <-.
  - destruct (_add_driving fuel l seg) as [l1|] eqn:Hdrive; [|discriminate].
    apply (IH _ _ Hrun).
    pose proof (add_driving_invariant _ _ _ _ Hdrive Hinv) as Hinv1.
    destruct (i <? fuel_stops)%Z; [now apply Inv_event | exact Hinv1].
Qed.

(** The locals on return are those after the Unloading event, with the
    last day finalized. *)
Lemma simulate_invariant fuel now sheets0 used rd l :
  simulate fuel now sheets0 used rd = Some l ->
  Inv (initial_locals now sheets0 used) ->
  exists l', Inv l'
             /\ l = mkLocals (_finalize_day (loc_log_sheets l')
                                            (loc_day_log l'))
                             (loc_day_log l') (loc_current_time l')
                             (loc_remaining_cycle l').
Proof.
  unfold simulate. fold (initial_locals now sheets0 used).
  intros Hrun Hinv.
  destruct (_add_driving fuel _ (duration (fst (legs rd)))) as [l1|] eqn:H1;
    [|discriminate].
  destruct (segment_loop fuel _ _ _ l1) as [l2|] eqn:H2; [|discriminate].
  injection Hrun as <-.
  eexists. split; [|reflexivity].
  apply Inv_event.
  apply (segment_loop_invariant _ _ _ _ _ _ H2).
  apply (add_driving_invariant _ _ _ _ H1).
  now apply Inv_event.
Qed.

End Invariant.

(** ** The remaining cycle hours *)

Lemma on_duty_event_cycle l h act :
  loc_remaining_cycle (on_duty_event l h act) = loc_remaining_cycle l.
Proof.
  unfold on_duty_event.
  now destruct (_add_event _ _ _ _ _ _) as [[t dl] ls].
Qed.

(** What an iteration does to the remaining cycle: a rest keeps it, or
    sets it to 70 when the rest day is a Monday; a drive takes the
    positive [available] hours off it. *)
Lemma iteration_cycle s :
  (Qle_bool (available s) 0 = true
   /\ date_of (ds_start_time (driving_iteration s))
      = (date_of (ds_start_time s) + 1)%Z
   /\ ((weekday (ds_start_time (driving_iteration s)) = 0%Z
        /\ ds_remaining_cycle (driving_iteration s) = max_cycle_hours)
       \/ (weekday (ds_start_time (driving_iteration s)) <> 0%Z
           /\ ds_remaining_cycle (driving_iteration s)
              = ds_remaining_cycle s)))
  \/ (0 < available s
      /\ ds_remaining_cycle (driving_iteration s)
         = ds_remaining_cycle s - available s).
Proof.
  destruct (Qle_bool (available s) 0) eqn:Hav.
  - left. split; [reflexivity|].
    rewrite (rest_iteration s Hav). cbn [ds_start_time ds_remaining_cycle].
    split; [apply date_of_rest_end|].
    destruct (weekday _ =? 0)%Z eqn:Hw.
    + left. split; [now apply Z.eqb_eq | reflexivity].
    + right. split; [now apply Z.eqb_neq | reflexivity].
  - right. split; [now apply Qle_bool_false|].
    destruct (drive_iteration s Hav) as (t' & dl' & -> & _). reflexivity.
Qed.

Lemma iteration_cycle_nonneg s :
  0 <= ds_remaining_cycle s -> 0 <= ds_remaining_cycle (driving_iteration s).
Proof.
  intros Hrc. pose proof (available_bounds s) as (_ & _ & Hle & _).
  destruct (iteration_cycle s)
    as [(_ & _ & [[_ ->] | [_ ->]]) | [_ ->]];
    unfold max_cycle_hours; lra.
Qed.

Lemma iteration_cycle_le_70 s :
  ds_remaining_cycle s <= max_cycle_hours ->
  ds_remaining_cycle (driving_iteration s) <= max_cycle_hours.
Proof.
  intros Hrc.
  destruct (iteration_cycle s)
    as [(_ & _ & [[_ ->] | [_ ->]]) | [Hpos ->]];
    unfold max_cycle_hours in *; lra.
Qed.

(** ** The daily driving budget *)

Lemma init_day_log_within_budget d : driving_within_budget (_init_day_log d).
Proof. unfold driving_within_budget, max_drive_hours. cbn. lra. Qed.

Lemma budget_invariant_event l h act :
  budget_invariant l -> budget_invariant (on_duty_event l h act).
Proof.
  intros [Hsheets Hday]. unfold on_duty_event.
  destruct (add_event_cases (loc_log_sheets l) (loc_day_log l) On_duty
              (loc_current_time l) h (Some act)) as (t' & dl' & -> & Hdl).
  unfold budget_invariant. cbn [loc_log_sheets loc_day_log].
  destruct (_ >? _)%Z; subst dl'.
  - split; [apply Forall_app; split; auto|].
    apply init_day_log_within_budget.
  - split; assumption.
Qed.

Lemma budget_invariant_iteration s :
  budget_invariant (locals_of s) -> 0 < ds_drive_time s ->
  budget_invariant (locals_of (driving_iteration s)).
Proof.
  intros [Hsheets Hday] _. cbn [locals_of loc_log_sheets loc_day_log] in *.
  destruct (Qle_bool (available s) 0) eqn:Hav.
  - rewrite (rest_iteration s Hav). unfold budget_invariant.
    cbn [locals_of loc_log_sheets loc_day_log ds_log_sheets ds_day_log].
    split; [apply Forall_app; split; auto|].
    apply init_day_log_within_budget.
  - destruct (drive_iteration s Hav) as (t' & dl' & -> & Hdl).
    apply Qle_bool_false in Hav.
    pose proof (available_bounds s) as (Hle & _).
    unfold budget_invariant, driving_within_budget in *.
    cbn [locals_of loc_log_sheets loc_day_log ds_log_sheets ds_day_log
         record_event totals add_total driving].
    destruct (_ >? _)%Z; subst dl'.
    + split; [apply Forall_app; split; auto|].
      cbn [_init_day_log totals driving]. lra.
    + split; [assumption | lra].
Qed.

(** ** The history of a run only grows *)

Lemma extends_refl l : extends l l.
Proof.
  split; [exists [] | exists []]; now rewrite app_nil_r.
Qed.

Lemma extends_trans l1 l2 l3 : extends l1 l2 -> extends l2 l3 -> extends l1 l3.
Proof.
  intros [[d1 Hd1] [e1 He1]] [[d2 Hd2] [e2 He2]]. split.
  - exists (d1 ++ d2). now rewrite Hd2, Hd1, app_assoc.
  - exists (e1 ++ e2). now rewrite He2, He1, app_assoc.
Qed.

(** Recording an event, in the current day or in a fresh one, adds one
    event to the history. *)
Lemma add_event_history ls dl st t h act :
  exists t' dl' ls' ev,
    _add_event ls dl st t h act = (t', dl', ls')
    /\ ev_status ev = st /\ ev_duration ev = h
    /\ ev_activity ev = event_activity act
    /\ (exists days, ls' = ls ++ days)
    /\ flat_map events ls' ++ events dl'
       = (flat_map events ls ++ events dl) ++ [ev].
Proof.
  destruct (add_event_cases ls dl st t h act) as (t' & dl0 & -> & Hdl).
  eexists _, _, _, (event_of st (t' - timedelta_hours h)%Z t' h act).
  split; [reflexivity|].
  cbn [event_of ev_status ev_duration ev_activity record_event events].
  repeat (split; [reflexivity|]).
  destruct (_ >? _)%Z; subst dl0.
  - split; [now exists [dl]|].
    rewrite flat_map_app. cbn [flat_map _init_day_log events app].
    now rewrite app_nil_r, <- app_assoc.
  - split; [exists []; now rewrite app_nil_r|].
    now rewrite app_assoc.
Qed.

Lemma on_duty_event_history l h act :
  exists ev,
    ev_status ev = On_duty /\ ev_duration ev = h
    /\ ev_activity ev = event_activity (Some act)
    /\ (exists days,
           loc_log_sheets (on_duty_event l h act) = loc_log_sheets l ++ days)
    /\ history (on_duty_event l h act) = history l ++ [ev].
Proof.
  unfold on_duty_event, history.
  destruct (add_event_history (loc_log_sheets l) (loc_day_log l) On_duty
              (loc_current_time l) h (Some act))
    as (t' & dl' & ls' & ev & -> & H1 & H2 & H3 & H4 & H5).
  exists ev. cbn [loc_log_sheets loc_day_log]. auto.
Qed.

Lemma on_duty_event_extends l h act : extends l (on_duty_event l h act).
Proof.
  destruct (on_duty_event_history l h act) as (ev & _ & _ & _ & Hd & He).
  split; [exact Hd | now exists [ev]].
Qed.

(** An iteration of the driving loop adds one event without an activity
    label: a Sleeper-berth rest or a Driving event. *)
Lemma driving_iteration_history s :
  exists ev,
    (ev_status ev = Sleeper_berth \/ ev_status ev = Driving)
    /\ ev_activity ev = None
    /\ (exists days,
           ds_log_sheets (driving_iteration s) = ds_log_sheets s ++ days)
    /\ history (locals_of (driving_iteration s))
       = history (locals_of s) ++ [ev].
Proof.
  unfold history. cbn [locals_of loc_log_sheets loc_day_log].
  destruct (Qle_bool (available s) 0) eqn:Hav.
  - rewrite (rest_iteration s Hav).
    cbn [ds_log_sheets ds_day_log record_event events _init_day_log app].
    match goal with
    | |- context [flat_map events _ ++ [?e]] => exists e
    end.
    split; [left; reflexivity|]. split; [reflexivity|].
    split; [now exists [ds_day_log s]|].
    rewrite flat_map_app. cbn [flat_map]. now rewrite app_nil_r.
  - unfold driving_iteration. rewrite Hav.
    destruct (add_event_history (ds_log_sheets s) (ds_day_log s) Driving
                (ds_start_time s) (available s) None)
      as (t' & dl' & ls' & ev & -> & H1 & H2 & H3 & H4 & H5).
    exists ev. cbn [ds_log_sheets ds_day_log]. auto.
Qed.

Lemma driving_iteration_extends s :
  extends (locals_of s) (locals_of (driving_iteration s)).
Proof.
  destruct (driving_iteration_history s) as (ev & _ & _ & Hd & He).
  split; [exact Hd | now exists [ev]].
Qed.

Lemma extends_event l0 l h act :
  extends l0 l -> extends l0 (on_duty_event l h act).
Proof.
  intros H. apply (extends_trans _ _ _ H), on_duty_event_extends.
Qed.

Lemma extends_iteration l0 s :
  extends l0 (locals_of s) -> 0 < ds_drive_time s ->
  extends l0 (locals_of (driving_iteration s)).
Proof.
  intros H _. apply (extends_trans _ _ _ H), driving_iteration_extends.
Qed.

Lemma history_finalize ls dl :
  flat_map events (_finalize_day ls dl) = flat_map events ls ++ events dl.
Proof.
  unfold _finalize_day. rewrite flat_map_app. cbn [flat_map].
  now rewrite app_nil_r.
Qed.

Lemma driving_iteration_event s :
  exists ev,
    history (locals_of (driving_iteration s)) = history (locals_of s) ++ [ev]
    /\ ev_activity ev = None
    /\ ((Qle_bool (available s) 0 = true
         /\ ev_status ev = Sleeper_berth
         /\ ds_drive_time (driving_iteration s) = ds_drive_time s)
        \/ (Qle_bool (available s) 0 = false
            /\ ev_status ev = Driving
            /\ ev_duration ev = available s
            /\ ds_drive_time (driving_iteration s)
               = ds_drive_time s - available s)).
Proof.
  unfold history. cbn [locals_of loc_log_sheets loc_day_log].
  destruct (Qle_bool (available s) 0) eqn:Hav.
  - rewrite (rest_iteration s Hav).
    cbn [ds_log_sheets ds_day_log ds_drive_time record_event events
         _init_day_log app].
    match goal with
    | |- context [flat_map events _ ++ [?e]] => exists e
    end.
    split; [|split; [reflexivity | left; auto]].
    rewrite flat_map_app. cbn [flat_map]. now rewrite app_nil_r.
  - unfold driving_iteration. rewrite Hav.
    destruct (add_event_history (ds_log_sheets s) (ds_day_log s) Driving
                (ds_start_time s) (available s) None)
      as (t' & dl' & ls' & ev & -> & H1 & H2 & H3 & H4 & H5).
    exists ev. cbn [ds_log_sheets ds_day_log ds_drive_time].
    split; [exact H5|]. split; [exact H3|]. right. auto.
Qed.

Lemma driven_app evs1 evs2 : driven (evs1 ++ evs2) == driven evs1 + driven evs2.
Proof.
  induction evs1 as [|ev evs1 IH]; cbn [driven app]; [lra|].
  destruct (ev_status ev); lra.
Qed.

(** The loop records the events of driving exactly the drive time. *)
Lemma driving_loop_events fuel :
  forall s s', driving_loop fuel s = Some s' ->
               0 <= ds_drive_time s ->
               exists evs,
                 history (locals_of s') = history (locals_of s) ++ evs
                 /\ drive_events (ds_drive_time s) evs.
Proof.
  induction fuel as [|fuel IH]; intros s s' Hloop Hdt; cbn in Hloop;
    destruct (Qle_bool (ds_drive_time s) 0) eqn:Hzero; try discriminate;
    try (injection Hloop as <-; exists []; rewrite app_nil_r;
         apply Qle_bool_iff in Hzero;
         split; [reflexivity | split; [constructor | cbn; lra]]).
  apply Qle_bool_false in Hzero.
  pose proof (available_bounds s) as (_ & _ & _ & Hle).
  destruct (driving_iteration_event s)
    as (ev & Hhist & Hact & [(Hav & Hst & Hdt') | (Hav & Hst & Hdur & Hdt')]).
  - destruct (IH _ _ Hloop) as (evs & Hevs & Hall & Hsum);
      [rewrite Hdt'; lra|].
    exists (ev :: evs). split.
    + rewrite Hevs, Hhist, <- app_assoc. reflexivity.
    + split; [constructor; [split; auto | exact Hall]|].
      cbn [driven]. rewrite Hst. now rewrite Hsum, Hdt'.
  - destruct (IH _ _ Hloop) as (evs & Hevs & Hall & Hsum);
      [rewrite Hdt'; lra|].
    exists (ev :: evs). split.
    + rewrite Hevs, Hhist, <- app_assoc. reflexivity.
    + split; [constructor; [split; auto | exact Hall]|].
      cbn [driven]. rewrite Hst, Hdur, Hsum, Hdt'. lra.
Qed.

Lemma add_driving_events fuel l dt l' :
  _add_driving fuel l dt = Some l' -> 0 <= dt ->
  exists evs, history l' = history l ++ evs /\ drive_events dt evs.
Proof.
  rewrite add_driving_unfold. intros Hrun Hdt.
  destruct (driving_loop fuel (driving_state_of l dt)) as [s'|] eqn:Hloop;
    [|discriminate].
  injection Hrun as <-.
  destruct (driving_loop_events fuel _ _ Hloop Hdt) as (evs & Hevs & Hd).
  exists evs. split; [|exact Hd]. rewrite Hevs. now destruct l.
Qed.

(** ** Fuel stops and segments *)

Lemma fueling_event l :
  exists f,
    is_fueling f
    /\ history (on_duty_event l fuel_time "Fueling") = history l ++ [f].
Proof.
  destruct (on_duty_event_history l fuel_time "Fueling")
    as (ev & Hst & Hdur & Hact & _ & Hhist).
  exists ev. split; [|exact Hhist]. now repeat split.
Qed.

(** The segment loop over the indices [a, a+1, ..., fuel_stops]. *)
Lemma segment_loop_shape fuel fuel_stops seg :
  0 <= seg ->
  forall k a l l',
    (Z.of_nat (a + S k) = fuel_stops + 1)%Z ->
    segment_loop fuel fuel_stops seg (map Z.of_nat (seq a (S k))) l = Some l' ->
    exists segs body,
      history l' = history l ++ body
      /\ interleaved segs body
      /\ List.length segs = S k
      /\ Forall (drive_events seg) segs.
Proof.
  intros Hseg. induction k as [|k IH]; intros a l l' Hlen Hrun;
    cbn [seq map segment_loop] in Hrun;
    destruct (_add_driving fuel l seg) as [l1|] eqn:Hdrive; try discriminate;
    destruct (add_driving_events fuel l seg l1 Hdrive Hseg)
      as (evs & Hevs & Hd).
  - assert (Hlast : (Z.of_nat a <? fuel_stops)%Z = false)
      by (apply Z.ltb_ge; lia).
    rewrite Hlast in Hrun. injection Hrun as <-.
    exists [evs], evs. split; [exact Hevs|].
    split; [constructor|]. split; [reflexivity | now constructor].
  - assert (Hfuel : (Z.of_nat a <? fuel_stops)%Z = true)
      by (apply Z.ltb_lt; lia).
    rewrite Hfuel in Hrun.
    destruct (fueling_event l1) as (f & Hf & Hhist).
    destruct (IH (S a) _ _ ltac:(lia) Hrun)
      as (segs & body & Hbody & Hinter & Hcount & Hall).
    exists (evs :: segs), (evs ++ f :: body).
    split.
    { rewrite Hbody, Hhist, Hevs, <- !app_assoc. reflexivity. }
    split; [now constructor|].
    split; [cbn; now rewrite Hcount | now constructor].
Qed.

Lemma filter_drive_events evs :
  Forall drive_event evs -> filter fuelingb evs = [].
Proof.
  induction 1 as [|ev evs [Hact _] _ IH]; [reflexivity|].
  cbn [filter]. unfold fuelingb at 1. now rewrite Hact.
Qed.

Lemma interleaved_fuelings segs body :
  interleaved segs body ->
  Forall (fun seg => Forall drive_event seg) segs ->
  S (List.length (filter fuelingb body)) = List.length segs.
Proof.
  induction 1 as [seg | seg f segs evs Hf Hinter IH]; intros Hall.
  - inversion Hall as [|? ? Hseg _]; subst.
    now rewrite (filter_drive_events seg Hseg).
  - inversion Hall as [|? ? Hseg Hrest]; subst.
    rewrite filter_app, (filter_drive_events seg Hseg).
    cbn [app filter List.length].
    destruct Hf as (_ & _ & Hact). unfold fuelingb at 1. rewrite Hact.
    cbn [String.eqb Ascii.eqb Bool.eqb List.length]. cbn.
    now rewrite (IH Hrest).
Qed.

Lemma fuel_stops_floor rd :
  0 <= total_distance rd ->
  fuel_stops_of rd = Qfloor (total_distance rd / fuel_interval)
  /\ (0 <= fuel_stops_of rd)%Z.
Proof.
  intros Hdist. unfold fuel_stops_of, int_of.
  assert (Hq : 0 <= total_distance rd / fuel_interval).
  { unfold fuel_interval. apply Qle_shift_div_l; [reflexivity | lra]. }
  destruct (total_distance rd / fuel_interval) as [n d] eqn:E.
  assert (Hn : (0 <= n)%Z).
  { unfold Qle in Hq. cbn in Hq. lia. }
  cbn [Qnum Qden Qfloor].
  rewrite Z.quot_div_nonneg by lia.
  assert (0 <= n / Z.pos d)%Z by (apply Z.div_pos; lia).
  split; lia.
Qed.

Lemma time_per_segment_equal leg2_time fuel_stops :
  (0 <= fuel_stops)%Z ->
  time_per_segment_of leg2_time fuel_stops * inject_Z (fuel_stops + 1)
  == leg2_time.
Proof.
  intros Hfs. unfold time_per_segment_of.
  destruct (fuel_stops =? 0)%Z eqn:E.
  - apply Z.eqb_eq in E. subst. change (inject_Z (0 + 1)) with 1. ring.
  - field. intros H.
    assert (Hpos : 0 < inject_Z (fuel_stops + 1)).
    { rewrite <- (Zlt_Qlt 0). lia. }
    lra.
Qed.

Lemma time_per_segment_nonneg leg2_time fuel_stops :
  (0 <= fuel_stops)%Z -> 0 <= leg2_time ->
  0 <= time_per_segment_of leg2_time fuel_stops.
Proof.
  intros Hfs Hleg. unfold time_per_segment_of.
  destruct (fuel_stops =? 0)%Z; [exact Hleg|].
  apply Qle_shift_div_l; [|lra].
  rewrite <- (Zlt_Qlt 0). lia.
Qed.

(** ** Termination of the driving loop *)

(** In the exact arithmetic of these lemmas, hours as rationals and dates
    without an upper end, the loop of [_add_driving] halts from every
    state.  The loop in binary64 arithmetic, where a subtraction can leave
    [drive_time] as it was and the dates end with the year 9999, is
    [driving_loop64], further down. *)

Lemma halts_fuel s :
  halts s -> exists fuel s', driving_loop fuel s = Some s'.
Proof.
  induction 1 as [s Hdt | s Hdt _ (fuel & s' & IH)].
  - exists O, s. cbn. now rewrite Hdt.
  - exists (S fuel), s'. cbn. now rewrite Hdt.
Qed.

Lemma driving_loop_more_fuel fuel :
  forall s s' extra,
    driving_loop fuel s = Some s' -> driving_loop (fuel + extra) s = Some s'.
Proof.
  induction fuel as [|fuel IH]; intros s s' extra Hloop; cbn in Hloop.
  - destruct (Qle_bool (ds_drive_time s) 0) eqn:Hdt; [|discriminate].
    destruct extra; cbn; now rewrite Hdt.
  - cbn. destruct (Qle_bool (ds_drive_time s) 0); [exact Hloop|].
    now apply IH.
Qed.

Lemma Qnat_S n : Qnat (S n) == Qnat n + 1.
Proof.
  unfold Qnat. rewrite Nat2Z.inj_succ. unfold Z.succ.
  now rewrite inject_Z_plus.
Qed.

Lemma Qnat_nonneg n : 0 <= Qnat n.
Proof. unfold Qnat. rewrite <- (Zle_Qle 0). lia. Qed.

Lemma archimedean (q : Q) : exists n, q <= Qnat n.
Proof.
  exists (Z.to_nat (Qceiling q)). unfold Qnat.
  apply Qle_trans with (inject_Z (Qceiling q)); [apply Qle_ceiling|].
  rewrite <- Zle_Qle. lia.
Qed.

(** With no cycle hours left the loop rests day after day, and reaches a
    Monday, where the cycle is set to 70, within a week. *)
Lemma rests_until_monday (k : nat) :
  forall s,
    (days_to_monday (date_of (ds_start_time s) + 1) <= Z.of_nat k)%Z ->
    0 < ds_drive_time s ->
    ds_remaining_cycle s <= 0 ->
    (forall s', fresh s' -> ds_drive_time s' = ds_drive_time s ->
                ds_remaining_cycle s' = max_cycle_hours -> halts s') ->
    halts s.
Proof.
  induction k as [|k IH]; intros s Hk Hdt Hrc Hmonday;
    (assert (Hav : Qle_bool (available s) 0 = true);
     [apply Qle_bool_iff;
      pose proof (available_bounds s) as (_ & _ & Hle & _); lra|]);
    destruct (rest_step s Hav) as (Hdt1 & Hd1 & Ho1 & Hdate & Hrc1);
    (apply halts_step; [now apply Qle_bool_false|]);
    destruct (weekday (ds_start_time (driving_iteration s)) =? 0)%Z eqn:Hw;
    try (apply Hmonday; [split; [now rewrite Hd1 | now rewrite Ho1]
                        | exact Hdt1 | exact Hrc1]).
  - exfalso. apply Z.eqb_neq in Hw. apply Hw.
    unfold weekday. rewrite Hdate.
    unfold days_to_monday in Hk. time_arith.
  - apply IH.
    + apply Z.eqb_neq in Hw. unfold weekday in Hw. rewrite Hdate in *.
      unfold days_to_monday in *. time_arith.
    + now rewrite Hdt1.
    + now rewrite Hrc1.
    + intros s' Hf Hdt' Hrc'. apply Hmonday; [exact Hf | | exact Hrc'].
      now rewrite Hdt', Hdt1.
Qed.

Lemma days_to_monday_bound d : (days_to_monday d <= Z.of_nat 6)%Z.
Proof. unfold days_to_monday. time_arith. Qed.

Lemma halts_fresh_of_full n : halts_fresh_full n -> halts_fresh n.
Proof.
  intros Hfull s [Hd Ho] Hdt.
  destruct (Qle_bool_cases (ds_drive_time s)) as [[Hz _] | [Hz Hpos]];
    [now apply halts_done|].
  destruct (Qlt_le_dec (ds_remaining_cycle s) 11) as [Hrc | Hrc];
    [|now apply Hfull].
  pose proof (available_bounds s) as (Hb1 & Hb2 & Hb3 & Hb4).
  pose proof (available_cases s) as Hcases.
  unfold max_drive_hours, max_on_duty_hours in *.
  destruct (Qle_bool_cases (available s)) as [[Hav Hle] | [Hav Hgt]].
  - apply (rests_until_monday 6); [apply days_to_monday_bound | exact Hpos | |].
    + destruct Hcases as [H | [H | [H | H]]]; lra.
    + intros s' Hf Hdt' Hrc'. apply Hfull; [exact Hf | now rewrite Hdt' |].
      rewrite Hrc'. unfold max_cycle_hours. lra.
  - apply halts_step; [exact Hz|].
    destruct (drive_step s Hav) as (Hdt1 & Hrc1 & _).
    destruct (Qle_bool_cases (ds_drive_time (driving_iteration s)))
      as [[Hz1 _] | [Hz1 Hpos1]]; [now apply halts_done|].
    rewrite Hdt1 in Hpos1.
    apply (rests_until_monday 6);
      [apply days_to_monday_bound | now rewrite Hdt1 | |].
    + rewrite Hrc1. destruct Hcases as [H | [H | [H | H]]]; lra.
    + intros s' Hf Hdt' Hrc'. apply Hfull; [exact Hf | |].
      * rewrite Hdt', Hdt1. lra.
      * rewrite Hrc'. unfold max_cycle_hours. lra.
Qed.

Lemma halts_resting_of_fresh n : halts_fresh n -> halts_resting n.
Proof.
  intros Hfresh s Hdt Hav.
  destruct (Qle_bool_cases (ds_drive_time s)) as [[Hz _] | [Hz Hpos]];
    [now apply halts_done|].
  apply halts_step; [exact Hz|].
  apply Qle_bool_iff in Hav.
  destruct (rest_step s Hav) as (Hdt1 & Hd1 & Ho1 & _).
  apply Hfresh; [split; [now rewrite Hd1 | now rewrite Ho1]|].
  now rewrite Hdt1.
Qed.

Lemma halts_fresh_full_S n : halts_resting n -> halts_fresh_full (S n).
Proof.
  intros Hrest s [Hd Ho] Hdt Hrc.
  rewrite Qnat_S in Hdt.
  destruct (Qle_bool_cases (ds_drive_time s)) as [[Hz _] | [Hz Hpos]];
    [now apply halts_done|].
  pose proof (available_bounds s) as (Hb1 & Hb2 & Hb3 & Hb4).
  pose proof (available_cases s) as Hcases.
  assert (Hgt : 0 < available s).
  { apply available_pos; unfold max_drive_hours, max_on_duty_hours; lra. }
  unfold max_drive_hours, max_on_duty_hours in *.
  apply halts_step; [exact Hz|].
  destruct (drive_step s (proj2 (Qle_bool_false _ _) Hgt))
    as (Hdt1 & Hrc1 & Hday).
  destruct (Qle_bool_cases (ds_drive_time (driving_iteration s)))
    as [[Hz1 _] | [Hz1 Hpos1]]; [now apply halts_done|].
  pose proof (available_bounds (driving_iteration s)) as (Hc1 & _).
  unfold max_drive_hours in Hc1.
  rewrite Hdt1 in Hpos1.
  assert (Ha : available s == 11)
    by (destruct Hcases as [H | [H | [H | H]]]; lra).
  apply Hrest.
  - rewrite Hdt1. lra.
  - destruct Hday as [[Hd1 _] | [Hd1 _]]; rewrite Hd1 in Hc1; lra.
Qed.

Lemma halts_fresh_all n :
  halts_fresh_full n /\ halts_fresh n /\ halts_resting n.
Proof.
  induction n as [|n (_ & _ & IH)].
  - assert (H0 : halts_fresh_full 0).
    { intros s _ Hdt _. apply halts_done, Qle_bool_iff.
      change (Qnat 0) with 0 in Hdt. lra. }
    split; [exact H0|].
    split; [now apply halts_fresh_of_full|].
    now apply halts_resting_of_fresh, halts_fresh_of_full.
  - pose proof (halts_fresh_full_S n IH) as HS.
    split; [exact HS|].
    split; [now apply halts_fresh_of_full|].
    now apply halts_resting_of_fresh, halts_fresh_of_full.
Qed.

(** A state whose next iteration is a rest. *)
Lemma resting_halts s : available s <= 0 -> halts s.
Proof.
  intros Hav. destruct (archimedean (ds_drive_time s)) as [n Hn].
  destruct (halts_fresh_all n) as (_ & _ & H). apply H; [|exact Hav].
  pose proof (Qnat_nonneg n). lra.
Qed.

(** Two drives in a row, each followed by another one, in a day without
    on-duty time: both exhaust the day's driving budget, so both open a new
    day, and together they take 11 hours. *)
Lemma crossed_halts_n (n : nat) :
  forall s, crossed s -> ds_drive_time s <= 11 * Qnat n -> halts s.
Proof.
  induction n as [|n IH]; intros s [Ho Hd] Hdt.
  { apply halts_done, Qle_bool_iff. change (Qnat 0) with 0 in Hdt. lra. }
  rewrite Qnat_S in Hdt.
  destruct (Qle_bool_cases (ds_drive_time s)) as [[Hz _] | [Hz Hpos]];
    [now apply halts_done|].
  destruct (Qle_bool_cases (available s)) as [[_ Hle] | [Hav Hgt]];
    [now apply resting_halts|].
  apply halts_step; [exact Hz|].
  set (s1 := driving_iteration s) in *.
  destruct (drive_step s Hav) as (Hdt1 & Hrc1 & Hday1).
  fold s1 in Hdt1, Hrc1, Hday1.
  destruct (Qle_bool_cases (ds_drive_time s1)) as [[Hz1 _] | [Hz1 Hpos1]];
    [now apply halts_done|].
  destruct (Qle_bool_cases (available s1)) as [[_ Hle1] | [Hav1 Hgt1]];
    [now apply resting_halts|].
  pose proof (available_bounds s) as (Hb1 & Hb2 & Hb3 & Hb4).
  pose proof (available_cases s) as Hcases.
  pose proof (available_bounds s1) as (Hc1 & Hc2 & Hc3 & Hc4).
  pose proof (available_cases s1) as Hcases1.
  unfold max_drive_hours, max_on_duty_hours in *.
  rewrite Hdt1 in Hpos1, Hc4, Hcases1. rewrite Hrc1 in Hc3, Hcases1.
  assert (Ha : available s == 11 - driving (totals (ds_day_log s)))
    by (destruct Hcases as [H | [H | [H | H]]]; lra).
  destruct Hday1 as [[Hd1 Ho1] | [Hd1 Ho1]];
    rewrite Hd1 in Hc1, Hcases1; rewrite Ho1 in Hc2, Hcases1; [lra|].
  apply halts_step; [exact Hz1|].
  set (s2 := driving_iteration s1) in *.
  destruct (drive_step s1 Hav1) as (Hdt2 & Hrc2 & Hday2).
  fold s2 in Hdt2, Hrc2, Hday2.
  destruct (Qle_bool_cases (ds_drive_time s2)) as [[Hz2 _] | [Hz2 Hpos2]];
    [now apply halts_done|].
  destruct (Qle_bool_cases (available s2)) as [[_ Hle2] | [Hav2 Hgt2]];
    [now apply resting_halts|].
  pose proof (available_bounds s2) as (He1 & He2 & He3 & He4).
  unfold max_drive_hours, max_on_duty_hours in *.
  rewrite Hdt2, Hdt1 in Hpos2, He4. rewrite Hrc2, Hrc1 in He3.
  assert (Ha1 : available s1 == driving (totals (ds_day_log s)))
    by (destruct Hcases1 as [H | [H | [H | H]]]; lra).
  destruct Hday2 as [[Hd2 Ho2] | [Hd2 Ho2]];
    rewrite Hd2 in He1; [rewrite Hd1 in He1; lra|].
  apply IH.
  - split; [now rewrite Ho2 | rewrite Hd2; lra].
  - rewrite Hdt2, Hdt1. lra.
Qed.

Lemma crossed_halts s : crossed s -> halts s.
Proof.
  intros Hs. destruct (archimedean (ds_drive_time s)) as [n Hn].
  apply (crossed_halts_n n s Hs).
  pose proof (Qnat_nonneg n). lra.
Qed.

(** In a day with on-duty time [o], drives that are followed by another
    drive in the same day take [14 - o] hours each. *)
Lemma halts_n (n : nat) :
  forall s,
    ds_drive_time s
    <= Qnat n * (max_on_duty_hours - on_duty (totals (ds_day_log s))) ->
    halts s.
Proof.
  induction n as [|n IH]; intros s Hdt.
  { apply halts_done, Qle_bool_iff. change (Qnat 0) with 0 in Hdt. lra. }
  assert (Hsucc : Qnat (S n)
                  * (max_on_duty_hours - on_duty (totals (ds_day_log s)))
                  == Qnat n
                     * (max_on_duty_hours - on_duty (totals (ds_day_log s)))
                     + (max_on_duty_hours - on_duty (totals (ds_day_log s))))
    by (rewrite Qnat_S; ring).
  rewrite Hsucc in Hdt. clear Hsucc.
  destruct (Qle_bool_cases (ds_drive_time s)) as [[Hz _] | [Hz Hpos]];
    [now apply halts_done|].
  destruct (Qle_bool_cases (available s)) as [[_ Hle] | [Hav Hgt]];
    [now apply resting_halts|].
  apply halts_step; [exact Hz|].
  set (s1 := driving_iteration s) in *.
  destruct (drive_step s Hav) as (Hdt1 & Hrc1 & Hday1).
  fold s1 in Hdt1, Hrc1, Hday1.
  destruct (Qle_bool_cases (ds_drive_time s1)) as [[Hz1 _] | [Hz1 Hpos1]];
    [now apply halts_done|].
  destruct (Qle_bool_cases (available s1)) as [[_ Hle1] | [Hav1 Hgt1]];
    [now apply resting_halts|].
  destruct Hday1 as [[Hd1 Ho1] | [Hd1 Ho1]].
  - apply IH. rewrite Ho1, Hdt1.
    pose proof (available_bounds s) as (Hb1 & Hb2 & Hb3 & Hb4).
    pose proof (available_cases s) as Hcases.
    pose proof (available_bounds s1) as (Hc1 & _ & Hc3 & Hc4).
    rewrite Hdt1 in Hpos1. rewrite Hrc1 in Hc3. rewrite Hd1 in Hc1.
    set (c := max_on_duty_hours - on_duty (totals (ds_day_log s))) in *.
    set (p := Qnat n * c) in *.
    assert (Ha : available s == c)
      by (destruct Hcases as [H | [H | [H | H]]]; lra).
    lra.
  - apply crossed_halts. split; [now rewrite Ho1 | rewrite Hd1; lra].
Qed.

(** The loop comes to an end from every state. *)
Lemma driving_loop_halts s : halts s.
Proof.
  destruct (Qlt_le_dec 0 (max_on_duty_hours - on_duty (totals (ds_day_log s))))
    as [Hc | Hc].
  - destruct (archimedean
                (ds_drive_time s
                 / (max_on_duty_hours - on_duty (totals (ds_day_log s)))))
      as [n Hn].
    apply (halts_n n).
    apply Qmult_le_compat_r with
      (z := max_on_duty_hours - on_duty (totals (ds_day_log s))) in Hn;
      [|lra].
    rewrite Qmult_comm, Qmult_div_r in Hn; [exact Hn | lra].
  - apply resting_halts.
    pose proof (available_bounds s) as (_ & Hb & _). lra.
Qed.

Lemma add_driving_returns l dt :
  exists fuel l', forall extra, _add_driving (fuel + extra) l dt = Some l'.
Proof.
  destruct (halts_fuel _ (driving_loop_halts (driving_state_of l dt)))
    as (fuel & s' & Hloop).
  exists fuel, (locals_of s'). intros extra.
  rewrite add_driving_unfold.
  now rewrite (driving_loop_more_fuel fuel _ _ extra Hloop).
Qed.

Lemma segment_loop_returns fuel_stops seg indices :
  forall l,
    exists fuel l',
      forall extra,
        segment_loop (fuel + extra) fuel_stops seg indices l = Some l'.
Proof.
  induction indices as [|i indices IH]; intros l.
  - exists O, l. reflexivity.
  - destruct (add_driving_returns l seg) as (f1 & l1 & H1).
    destruct (IH (if (i <? fuel_stops)%Z
                  then on_duty_event l1 fuel_time "Fueling" else l1))
      as (f2 & l2 & H2).
    exists (f1 + f2)%nat, l2. intros extra. cbn [segment_loop].
    replace (f1 + f2 + extra)%nat with (f1 + (f2 + extra))%nat by lia.
    rewrite H1.
    replace (f1 + (f2 + extra))%nat with (f2 + (f1 + extra))%nat by lia.
    apply H2.
Qed.

Lemma simulate_returns now sheets0 used rd :
  exists fuel l,
    forall extra, simulate (fuel + extra) now sheets0 used rd = Some l.
Proof.
  unfold simulate.
  set (l0 := on_duty_event _ pickup_dropoff_time "Loading").
  destruct (add_driving_returns l0 (duration (fst (legs rd))))
    as (f1 & l1 & H1).
  destruct (segment_loop_returns (fuel_stops_of rd)
              (time_per_segment_of (duration (snd (legs rd)))
                                   (fuel_stops_of rd))
              (range (fuel_stops_of rd + 1)) l1) as (f2 & l2 & H2).
  eexists (f1 + f2)%nat, _. intros extra.
  replace (f1 + f2 + extra)%nat with (f1 + (f2 + extra))%nat by lia.
  rewrite H1.
  replace (f1 + (f2 + extra))%nat with (f2 + (f1 + extra))%nat by lia.
  rewrite H2. reflexivity.
Qed.

(** With enough fuel [generate_log_sheets] returns the log sheets of the
    route it runs on. *)
Lemma generate_log_sheets_returns requests_get requests_post now self rd :
  resolved_route requests_get requests_post self = Return rd ->
  exists fuel sheets,
    forall extra,
      generate_log_sheets requests_get requests_post (fuel + extra) now self
      = Some (Return (rd, sheets)).
Proof.
  intros Hroute.
  destruct (simulate_returns now (self_log_sheets self)
              (current_cycle_used self) rd) as (fuel & l & Hsim).
  exists fuel, (loc_log_sheets l). intros extra.
  unfold generate_log_sheets. now rewrite Hroute, Hsim.
Qed.

(** ** The single-day run *)

Lemma simulate_single_day (fuel : nat) (now : datetime)
    (from1 to1 geometry1 from2 to2 geometry2 : string)
    (distance1 distance2 total : Q) :
  let rd :=
    mkRouteDetails (mkRouteLeg from1 to1 distance1 2 geometry1,
                    mkRouteLeg from2 to2 distance2 3 geometry2) 500 total in
  exists l g,
    simulate (S fuel) now [] 0 rd = Some l
    /\ loc_log_sheets l
       = [mkDailyLog (date_of now) g
            [mkEvent On_duty "08:00" "09:00" 1 (Some "Loading"%string);
             mkEvent Driving "09:00" "11:00" 2 None;
             mkEvent Driving "11:00" "14:00" 3 None;
             mkEvent On_duty "14:00" "15:00" 1 (Some "Unloading"%string)]
            (mkTotals 5 2 0 0)].
Proof.
  intros rd. unfold simulate. rewrite replace_hmsu_8.
  generalize (date_of now) as d. intros d.
  replace (fuel_stops_of rd) with 0%Z by reflexivity.
  cbn [legs fst snd duration rd].
  rewrite date_of_day_plus by (vm_compute; split; congruence).
  rewrite on_duty_event_within_day by (vm_compute; congruence).
  rewrite add_driving_single by (vm_compute; congruence).
  change (range (0 + 1)) with [0%Z].
  cbn [segment_loop time_per_segment_of Z.eqb Z.ltb Z.compare].
  rewrite add_driving_single by (vm_compute; congruence).
  rewrite on_duty_event_within_day by (vm_compute; congruence).
  match goal with
  | |- exists l g, Some ?x = Some l /\ _ => exists x, (grid (loc_day_log x))
  end.
  split; [reflexivity|]. vm_compute. reflexivity.
Qed.

(** ** Provider failures *)

(** A request that raises, or is answered with another status than 200,
    yields no coordinates and no leg. *)
Lemma get_coordinates_none requests_get address :
  requests_get address = Http_exception
  \/ (exists status_code body,
         requests_get address = Http_response status_code body
         /\ status_code <> 200%Z) ->
  get_coordinates requests_get address = None.
Proof.
  unfold get_coordinates.
  intros [-> | (status_code & body & -> & Hcode)]; [reflexivity|].
  apply Z.eqb_neq in Hcode. now rewrite Hcode.
Qed.

Lemma get_route_leg_none requests_post start_coords end_coords :
  requests_post start_coords end_coords = Http_exception
  \/ (exists status_code body,
         requests_post start_coords end_coords
         = Http_response status_code body
         /\ status_code <> 200%Z) ->
  get_route_leg requests_post start_coords end_coords = None.
Proof.
  unfold get_route_leg.
  intros [-> | (status_code & body & -> & Hcode)]; [reflexivity|].
  apply Z.eqb_neq in Hcode. now rewrite Hcode.
Qed.

Lemma calculate_route_failure requests_get requests_post (trip : TripData) :
  geocode_failed requests_get trip
  \/ route_leg_failed requests_get requests_post trip ->
  calculate_route requests_get requests_post (__init__ trip)
  = Raise "Failed to geocode one or more locations"
  \/ calculate_route requests_get requests_post (__init__ trip)
     = Raise "Failed to calculate route".
Proof.
  unfold geocode_failed, route_leg_failed, calculate_route.
  cbn [__init__ current_location pickup_location dropoff_location].
  intros [Hgeo | (c & p & d & Hc & Hp & Hd & Hleg)].
  - left.
    destruct (truthy_coords (get_coordinates requests_get
                               (td_current_location trip))),
             (truthy_coords (get_coordinates requests_get
                               (td_pickup_location trip))),
             (truthy_coords (get_coordinates requests_get
                               (td_dropoff_location trip)));
      cbn [andb negb]; try reflexivity;
      destruct Hgeo as [H | [H | H]]; discriminate.
  - rewrite Hc, Hp, Hd.
    destruct (truthy_coords (Some c) && truthy_coords (Some p)
              && truthy_coords (Some d)); cbn [negb]; [|now left].
    right. destruct Hleg as [H | H]; rewrite H; [reflexivity|].
    now destruct (get_route_leg requests_post c p).
Qed.

(** ** Properties of every day log of a run *)

Section DayInvariant.

Variable P : DailyLog -> Prop.

Hypothesis P_init : forall d, P (_init_day_log d).

Hypothesis P_work :
  forall dl st t1 t2 h act,
    st = Driving \/ st = On_duty ->
    P dl -> P (record_event dl st t1 t2 h act).

Hypothesis P_rest :
  forall d t1 t2,
    P (record_event (_init_day_log d) Sleeper_berth t1 t2 min_rest_hours
                    None).

Lemma all_days_event l h act :
  all_days P l -> all_days P (on_duty_event l h act).
Proof.
  intros [Hsheets Hday]. unfold on_duty_event.
  destruct (add_event_cases (loc_log_sheets l) (loc_day_log l) On_duty
              (loc_current_time l) h (Some act)) as (t' & dl' & -> & Hdl).
  unfold all_days. cbn [loc_log_sheets loc_day_log].
  destruct (_ >? _)%Z; subst dl'.
  - split; [apply Forall_app; split; auto|].
    apply P_work; [now right | apply P_init].
  - split; [assumption|]. apply P_work; [now right | assumption].
Qed.

Lemma all_days_iteration s :
  all_days P (locals_of s) -> 0 < ds_drive_time s ->
  all_days P (locals_of (driving_iteration s)).
Proof.
  intros [Hsheets Hday] _. cbn [locals_of loc_log_sheets loc_day_log] in *.
  destruct (Qle_bool (available s) 0) eqn:Hav.
  - rewrite (rest_iteration s Hav). unfold all_days.
    cbn [locals_of loc_log_sheets loc_day_log ds_log_sheets ds_day_log].
    split; [apply Forall_app; split; auto|]. apply P_rest.
  - destruct (drive_iteration s Hav) as (t' & dl' & -> & Hdl).
    unfold all_days.
    cbn [locals_of loc_log_sheets loc_day_log ds_log_sheets ds_day_log].
    destruct (_ >? _)%Z; subst dl'.
    + split; [apply Forall_app; split; auto|].
      apply P_work; [now left | apply P_init].
    + split; [assumption|]. apply P_work; [now left | assumption].
Qed.

(** What holds of the sheets the generator starts with holds of the
    sheets it returns. *)
Lemma run_all_days requests_get requests_post fuel now self rd sheets :
  Forall P (self_log_sheets self) ->
  generate_log_sheets requests_get requests_post fuel now self
  = Some (Return (rd, sheets)) ->
  Forall P sheets.
Proof.
  intros Hsheets0 Hrun. unfold generate_log_sheets in Hrun.
  destruct (resolved_route requests_get requests_post self) as [rd'|];
    [|discriminate].
  destruct (simulate fuel now (self_log_sheets self)
                     (current_cycle_used self) rd') as [l|] eqn:Hsim;
    [|discriminate].
  injection Hrun as _ <-.
  destruct (simulate_invariant (all_days P) all_days_event
              all_days_iteration _ _ _ _ _ _ Hsim)
    as (l' & [Hl1 Hl2] & ->).
  - split; [exact Hsheets0 | apply P_init].
  - cbn [loc_log_sheets]. unfold _finalize_day.
    apply Forall_app. split; [exact Hl1|]. now constructor.
Qed.

End DayInvariant.

(** ** The totals of a day log *)

Lemma status_hours_app st evs1 evs2 :
  status_hours st (evs1 ++ evs2)
  == status_hours st evs1 + status_hours st evs2.
Proof.
  induction evs1 as [|ev evs1 IH]; cbn [status_hours app]; [lra|].
  destruct (status_eqb (ev_status ev) st); lra.
Qed.

Lemma totals_match_record dl st t1 t2 h act :
  totals_match_events dl ->
  totals_match_events (record_event dl st t1 t2 h act).
Proof.
  intros H st'. cbn [record_event totals events].
  rewrite status_hours_app. unfold event_of.
  cbn [status_hours ev_status ev_duration].
  pose proof (H st') as Hst'.
  destruct st, st'; cbn [add_total get_total driving on_duty off_duty sleeper
                         status_eqb] in *; lra.
Qed.

Lemma totals_match_init d : totals_match_events (_init_day_log d).
Proof. intros st. destruct st; cbn; lra. Qed.

(** As [simulate_invariant], for a property that only the On-duty events
    of the run (an hour of loading or unloading, half an hour of fueling)
    need to preserve, from the locals after the Loading event. *)
Section RunInvariant.

Variable Inv : Locals -> Prop.

Hypothesis Inv_event :
  forall l h act,
    h = pickup_dropoff_time \/ h = fuel_time ->
    Inv l -> Inv (on_duty_event l h act).

Hypothesis Inv_iteration :
  forall s, Inv (locals_of s) -> 0 < ds_drive_time s ->
            Inv (locals_of (driving_iteration s)).

Lemma segment_loop_run_invariant fuel fuel_stops seg indices :
  forall l l', segment_loop fuel fuel_stops seg indices l = Some l' ->
               Inv l -> Inv l'.
Proof.
  induction indices as [|i indices IH]; intros l l' Hrun Hinv; cbn in Hrun.
  - now injection Hrun as <-.
  - destruct (_add_driving fuel l seg) as [l1|] eqn:Hdrive; [|discriminate].
    apply (IH _ _ Hrun).
    pose proof (add_driving_invariant Inv Inv_iteration _ _ _ _ Hdrive Hinv)
      as Hinv1.
    destruct (i <? fuel_stops)%Z; [apply Inv_event; auto | exact Hinv1].
Qed.

Lemma simulate_run_invariant fuel now sheets0 used rd l :
  simulate fuel now sheets0 used rd = Some l ->
  Inv (on_duty_event (initial_locals now sheets0 used) pickup_dropoff_time
                     "Loading") ->
  exists l', Inv l'
             /\ l = mkLocals (_finalize_day (loc_log_sheets l')
                                            (loc_day_log l'))
                             (loc_day_log l') (loc_current_time l')
                             (loc_remaining_cycle l').
Proof.
  unfold simulate. fold (initial_locals now sheets0 used).
  intros Hrun Hinv.
  destruct (_add_driving fuel _ (duration (fst (legs rd)))) as [l1|] eqn:H1;
    [|discriminate].
  destruct (segment_loop fuel _ _ _ l1) as [l2|] eqn:H2; [|discriminate].
  injection Hrun as <-.
  eexists. split; [|reflexivity].
  apply Inv_event; [now left|].
  apply (segment_loop_run_invariant _ _ _ _ _ _ H2).
  apply (add_driving_invariant Inv Inv_iteration _ _ _ _ H1).
  exact Hinv.
Qed.

End RunInvariant.

(** ** The on-duty hours of a run *)

Lemma fuel_stops_nonneg rd : (0 <= fuel_stops_of rd)%Z.
Proof. unfold fuel_stops_of. lia. Qed.

(** An On-duty event adds its hours to the on-duty hours of the history;
    an iteration of the driving loop adds none. *)
Lemma on_duty_event_on_duty l h act :
  status_hours On_duty (history (on_duty_event l h act))
  == status_hours On_duty (history l) + h.
Proof.
  destruct (on_duty_event_history l h act)
    as (ev & Hst & Hdur & _ & _ & ->).
  rewrite status_hours_app. cbn [status_hours]. rewrite Hst, Hdur.
  cbn [status_eqb]. lra.
Qed.

Lemma driving_iteration_on_duty s :
  status_hours On_duty (history (locals_of (driving_iteration s)))
  == status_hours On_duty (history (locals_of s)).
Proof.
  destruct (driving_iteration_history s) as (ev & Hst & _ & _ & ->).
  rewrite status_hours_app. cbn [status_hours].
  destruct Hst as [-> | ->]; cbn [status_eqb]; lra.
Qed.

Lemma add_driving_on_duty fuel l dt l' :
  _add_driving fuel l dt = Some l' ->
  status_hours On_duty (history l') == status_hours On_duty (history l).
Proof.
  intros Hrun.
  apply (add_driving_invariant
           (fun l' => status_hours On_duty (history l')
                      == status_hours On_duty (history l))
           ltac:(intros s Hs _; cbv beta in *;
                 now rewrite driving_iteration_on_duty)
           fuel l dt l' Hrun).
  reflexivity.
Qed.

Lemma segment_loop_on_duty fuel fuel_stops seg :
  forall k a l l',
    (Z.of_nat (a + S k) = fuel_stops + 1)%Z ->
    segment_loop fuel fuel_stops seg (map Z.of_nat (seq a (S k))) l = Some l' ->
    status_hours On_duty (history l')
    == status_hours On_duty (history l) + Qnat k * fuel_time.
Proof.
  induction k as [|k IH]; intros a l l' Hlen Hrun;
    cbn [seq map segment_loop] in Hrun;
    destruct (_add_driving fuel l seg) as [l1|] eqn:Hdrive; try discriminate;
    pose proof (add_driving_on_duty fuel l seg l1 Hdrive) as Ho1.
  - assert (Hlast : (Z.of_nat a <? fuel_stops)%Z = false)
      by (apply Z.ltb_ge; lia).
    rewrite Hlast in Hrun. injection Hrun as <-.
    change (Qnat 0) with 0. lra.
  - assert (Hfuel : (Z.of_nat a <? fuel_stops)%Z = true)
      by (apply Z.ltb_lt; lia).
    rewrite Hfuel in Hrun.
    pose proof (on_duty_event_on_duty l1 fuel_time "Fueling") as Ho2.
    pose proof (IH (S a) _ _ ltac:(lia) Hrun) as Ho3.
    rewrite (Qnat_S k). unfold fuel_time in *.
    assert (E : (Qnat k + 1) * (1 # 2) == Qnat k * (1 # 2) + (1 # 2))
      by ring.
    rewrite E, Ho3, Ho2, Ho1. ring.
Qed.

(** The on-duty totals of the sheets are the on-duty hours of their
    events. *)
Lemma total_over_on_duty sheets :
  Forall totals_match_events sheets ->
  total_over on_duty sheets == status_hours On_duty (flat_map events sheets).
Proof.
  induction 1 as [|d sheets Hd _ IH]; cbn [total_over flat_map];
    [reflexivity|].
  rewrite status_hours_app.
  pose proof (Hd On_duty) as H. cbn [get_total] in H. lra.
Qed.

(** One of several non-negative totals is at most their sum. *)
Lemma total_over_bound f sheets d :
  Forall (fun d => 0 <= f (totals d)) sheets -> In d sheets ->
  f (totals d) <= total_over f sheets.
Proof.
  induction 1 as [|d' sheets Hd Hall IH]; intros Hin; [contradiction|].
  assert (Hrest : 0 <= total_over f sheets).
  { clear - Hall. induction Hall as [|x l Hx _ IHl]; cbn [total_over]; lra. }
  cbn [total_over]. destruct Hin as [-> | Hin]; [lra|].
  specialize (IH Hin). lra.
Qed.

(** The on-duty hours of a run: loading, unloading and the fuel stops. *)
Lemma run_on_duty_hours requests_get requests_post fuel now self rd sheets :
  self_log_sheets self = [] ->
  generate_log_sheets requests_get requests_post fuel now self
  = Some (Return (rd, sheets)) ->
  total_over on_duty sheets == 2 + inject_Z (fuel_stops_of rd) * fuel_time.
Proof.
  intros Hsheets0 Hrun.
  assert (Hmatch : Forall totals_match_events sheets).
  { revert Hrun. apply run_all_days.
    - apply totals_match_init.
    - intros dl st t1 t2 h act _. apply totals_match_record.
    - intros d t1 t2. apply totals_match_record, totals_match_init.
    - rewrite Hsheets0. constructor. }
  rewrite (total_over_on_duty sheets Hmatch).
  pose proof (fuel_stops_nonneg rd) as Hfs.
  unfold generate_log_sheets in Hrun. rewrite Hsheets0 in Hrun.
  destruct (resolved_route requests_get requests_post self) as [rd'|];
    [|discriminate].
  destruct (simulate fuel now [] (current_cycle_used self) rd') as [l|]
    eqn:Hsim; [|discriminate].
  injection Hrun as <- <-.
  unfold simulate in Hsim.
  fold (initial_locals now [] (current_cycle_used self)) in Hsim.
  set (fs := fuel_stops_of rd') in *.
  set (seg := time_per_segment_of (duration (snd (legs rd'))) fs) in *.
  set (l0 := on_duty_event _ pickup_dropoff_time "Loading") in Hsim.
  destruct (_add_driving fuel l0 (duration (fst (legs rd')))) as [l1|] eqn:H1;
    [|discriminate].
  destruct (segment_loop fuel fs seg _ l1) as [l2|] eqn:H2; [|discriminate].
  injection Hsim as <-.
  pose proof (on_duty_event_on_duty
                (initial_locals now [] (current_cycle_used self))
                pickup_dropoff_time "Loading") as Ho0.
  fold l0 in Ho0.
  change (history (initial_locals _ _ _)) with (@nil Event) in Ho0.
  cbn [status_hours] in Ho0.
  pose proof (add_driving_on_duty fuel l0 _ l1 H1) as Ho1.
  unfold range in H2.
  replace (Z.to_nat (fs + 1)) with (S (Z.to_nat fs)) in H2 by lia.
  pose proof (segment_loop_on_duty fuel fs seg (Z.to_nat fs) 0 l1 l2
                ltac:(lia) H2) as Ho2.
  pose proof (on_duty_event_on_duty l2 pickup_dropoff_time "Unloading")
    as Ho3.
  cbn [loc_log_sheets]. rewrite history_finalize.
  fold (history (on_duty_event l2 pickup_dropoff_time "Unloading")).
  assert (Hk : Qnat (Z.to_nat fs) == inject_Z fs).
  { unfold Qnat. now rewrite Z2Nat.id by lia. }
  rewrite Hk in Ho2. unfold pickup_dropoff_time in *.
  rewrite Ho3, Ho2, Ho1, Ho0. ring.
Qed.

(** No event of a run makes an on-duty total negative. *)
Lemma on_duty_nonneg_event l h act :
  h = pickup_dropoff_time \/ h = fuel_time ->
  all_days on_duty_nonneg l -> all_days on_duty_nonneg (on_duty_event l h act).
Proof.
  intros Hh [Hsheets Hday]. unfold on_duty_event.
  destruct (add_event_cases (loc_log_sheets l) (loc_day_log l) On_duty
              (loc_current_time l) h (Some act)) as (t' & dl' & -> & Hdl).
  assert (Hpos : 0 <= h)
    by (destruct Hh as [-> | ->]; unfold pickup_dropoff_time, fuel_time; lra).
  unfold all_days, on_duty_nonneg in *. cbn [loc_log_sheets loc_day_log].
  cbn [record_event totals add_total on_duty].
  destruct (_ >? _)%Z; subst dl'.
  - split; [apply Forall_app; split; auto|].
    cbn [_init_day_log totals on_duty]. lra.
  - split; [assumption | lra].
Qed.

Lemma on_duty_nonneg_iteration s :
  all_days on_duty_nonneg (locals_of s) -> 0 < ds_drive_time s ->
  all_days on_duty_nonneg (locals_of (driving_iteration s)).
Proof.
  intros [Hsheets Hday] _. cbn [locals_of loc_log_sheets loc_day_log] in *.
  unfold all_days, on_duty_nonneg in *.
  destruct (Qle_bool (available s) 0) eqn:Hav.
  - rewrite (rest_iteration s Hav).
    cbn [locals_of loc_log_sheets loc_day_log ds_log_sheets ds_day_log].
    split; [apply Forall_app; split; auto|].
    cbn [record_event _init_day_log totals add_total on_duty]. lra.
  - destruct (drive_iteration s Hav) as (t' & dl' & -> & Hdl).
    cbn [locals_of loc_log_sheets loc_day_log ds_log_sheets ds_day_log].
    cbn [record_event totals add_total on_duty].
    destruct (_ >? _)%Z; subst dl'.
    + split; [apply Forall_app; split; auto|].
      cbn [_init_day_log totals on_duty]. lra.
    + split; assumption.
Qed.

Lemma run_on_duty_nonneg requests_get requests_post fuel now self rd sheets :
  self_log_sheets self = [] ->
  generate_log_sheets requests_get requests_post fuel now self
  = Some (Return (rd, sheets)) ->
  Forall on_duty_nonneg sheets.
Proof.
  intros Hsheets0 Hrun. unfold generate_log_sheets in Hrun.
  rewrite Hsheets0 in Hrun.
  destruct (resolved_route requests_get requests_post self) as [rd'|];
    [|discriminate].
  destruct (simulate fuel now [] (current_cycle_used self) rd') as [l|]
    eqn:Hsim; [|discriminate].
  injection Hrun as _ <-.
  destruct (simulate_run_invariant (all_days on_duty_nonneg)
              on_duty_nonneg_event on_duty_nonneg_iteration _ _ _ _ _ _ Hsim)
    as (l' & [Hl1 Hl2] & ->).
  - apply on_duty_nonneg_event; [now left|].
    split; [constructor|]. unfold on_duty_nonneg. cbn. lra.
  - cbn [loc_log_sheets]. unfold _finalize_day.
    apply Forall_app. split; [exact Hl1|]. now constructor.
Qed.

(** A route under 3000 miles has at most two fuel stops. *)
Lemma fuel_stops_below rd :
  total_distance rd < 3000 -> (fuel_stops_of rd <= 2)%Z.
Proof.
  intros Hdist. unfold fuel_stops_of, int_of.
  assert (Hq : total_distance rd / fuel_interval < 3).
  { unfold fuel_interval. apply Qlt_shift_div_r; [reflexivity | lra]. }
  destruct (total_distance rd / fuel_interval) as [n d].
  unfold Qlt in Hq. cbn in Hq. cbn [Qnum Qden].
  assert (Hn : (n < 3 * Z.pos d)%Z) by lia.
  destruct (Z.le_gt_cases 0 n) as [H0 | H0].
  - rewrite Z.quot_div_nonneg by lia.
    assert (n / Z.pos d < 3)%Z by (apply Z.div_lt_upper_bound; lia). lia.
  - assert (Z.quot n (Z.pos d) <= 0)%Z.
    { apply Z.quot_le_upper_bound; lia. }
    lia.
Qed.

(** ** Rounding to binary64 *)

(** Powers of two *)
Lemma pow2_pos e : 0 < 2 ^ e.
Proof. apply Qpower_0_lt. reflexivity. Qed.

Lemma pow2_add a b : 2 ^ (a + b) == 2 ^ a * 2 ^ b.
Proof. apply Qpower_plus. discriminate. Qed.

Lemma pow2_le a b : (a <= b)%Z -> 2 ^ a <= 2 ^ b.
Proof. intros H. apply Qpower_le_compat_l; [exact H | discriminate]. Qed.

Lemma pow2_lt a b : (a < b)%Z -> 2 ^ a < 2 ^ b.
Proof. intros H. apply Qpower_lt_compat_l; [exact H | reflexivity]. Qed.

Lemma pow2_lt_inv a b : 2 ^ a < 2 ^ b -> (a < b)%Z.
Proof. intros H. apply (Qpower_lt_compat_l_inv 2); [exact H | reflexivity]. Qed.

Lemma pow2_Z e : (0 <= e)%Z -> 2 ^ e == inject_Z (2 ^ e).
Proof. intros H. now rewrite Zpower_Qpower. Qed.

Lemma pow2_sub a b : 2 ^ (a - b) == 2 ^ a / 2 ^ b.
Proof.
  unfold Z.sub. rewrite pow2_add, Qpower_opp. reflexivity.
Qed.

Lemma pow2_S a : 2 ^ (a + 1) == 2 * 2 ^ a.
Proof. rewrite pow2_add. change (2 ^ 1) with 2. ring. Qed.

(** log2 of a positive integer, in Q *)
Lemma log2_bounds (n : Z) :
  (0 < n)%Z -> 2 ^ Z.log2 n <= inject_Z n /\ inject_Z n < 2 ^ (Z.log2 n + 1).
Proof.
  intros Hn. destruct (Z.log2_spec n Hn) as [Hlo Hhi].
  pose proof (Z.log2_nonneg n) as H0.
  rewrite !pow2_Z by lia. rewrite <- Zle_Qle, <- Zlt_Qlt.
  split; [exact Hlo|]. now rewrite <- Z.add_1_r in Hhi.
Qed.

Lemma Qabs_frac x :
  Qabs x * inject_Z (Zpos (Qden x)) == inject_Z (Z.abs (Qnum x)).
Proof.
  destruct x as [n d]. unfold Qabs. cbn [Qnum Qden].
  unfold Qeq, Qmult, inject_Z. cbn. lia.
Qed.

Lemma mag_test x :
  let n := Z.abs (Qnum x) in
  let d := Zpos (Qden x) in
  let k := (Z.log2 n - Z.log2 d)%Z in
  (if (0 <=? k)%Z then (d * 2 ^ k <=? n)%Z else (d <=? n * 2 ^ (- k))%Z) = true
  <-> 2 ^ k * inject_Z d <= inject_Z n.
Proof.
  intros n d k.
  destruct (0 <=? k)%Z eqn:Hk.
  - apply Z.leb_le in Hk. rewrite pow2_Z by exact Hk.
    rewrite <- inject_Z_mult, <- Zle_Qle, Z.leb_le. lia.
  - apply Z.leb_gt in Hk.
    assert (E : 2 ^ k * inject_Z (2 ^ (- k)) == 1).
    { rewrite <- pow2_Z by lia. rewrite <- pow2_add.
      replace (k + - k)%Z with 0%Z by lia. reflexivity. }
    assert (Hp : 0 < inject_Z (2 ^ (- k))).
    { rewrite <- pow2_Z by lia. apply pow2_pos. }
    pose proof (pow2_pos k) as Hk2.
    rewrite Z.leb_le, Zle_Qle, inject_Z_mult.
    set (P := inject_Z (2 ^ (- k))) in *. set (p := 2 ^ k) in *.
    split; intros H.
    + assert (H1 : p * inject_Z d <= p * (inject_Z n * P)).
      { apply Qmult_le_l; assumption. }
      assert (E1 : p * (inject_Z n * P) == inject_Z n * (p * P)) by ring.
      rewrite E1, E in H1. lra.
    + assert (H1 : (p * inject_Z d) * P <= inject_Z n * P).
      { apply Qmult_le_compat_r; [exact H | lra]. }
      assert (E1 : p * inject_Z d * P == inject_Z d * (p * P)) by ring.
      rewrite E1, E in H1. lra.
Qed.

(** [mag x] is the binary logarithm of [|x|], rounded down. *)
Lemma mag_spec x :
  ~ x == 0 ->
  2 ^ Binary64.mag x <= Qabs x /\ Qabs x < 2 ^ (Binary64.mag x + 1).
Proof.
  intros Hx.
  pose proof (Qabs_frac x) as Hfrac.
  pose proof (mag_test x) as Htest. cbv zeta in Htest.
  unfold Binary64.mag.
  set (n := Z.abs (Qnum x)) in *. set (d := Zpos (Qden x)) in *.
  set (k := (Z.log2 n - Z.log2 d)%Z) in *.
  assert (Hn : (0 < n)%Z).
  { subst n. destruct x as [xn xd]. unfold Qeq in Hx. cbn in *. lia. }
  assert (Hd : (0 < d)%Z) by (subst d; lia).
  destruct (log2_bounds n Hn) as [Hn1 Hn2].
  destruct (log2_bounds d Hd) as [Hd1 Hd2].
  assert (Hdq : 0 < inject_Z d)
    by (change 0 with (inject_Z 0); now rewrite <- Zlt_Qlt).
  assert (Ea : 2 ^ Z.log2 n == 2 ^ k * 2 ^ Z.log2 d).
  { rewrite <- pow2_add. subst k. now replace (Z.log2 n - Z.log2 d + Z.log2 d)%Z
      with (Z.log2 n) by lia. }
  pose proof (pow2_pos k) as Hk. pose proof (pow2_pos (Z.log2 d)) as Hld.
  pose proof (pow2_pos (Z.log2 n)) as Hln.
  rewrite pow2_S in Hn2, Hd2.
  (* upper: |x| d = n < 2 * 2^k * 2^ld <= 2 * 2^k * d *)
  assert (Hup : Qabs x * inject_Z d < 2 * 2 ^ k * inject_Z d).
  { rewrite Hfrac. rewrite Ea in Hn2.
    assert (2 ^ k * 2 ^ Z.log2 d <= 2 ^ k * inject_Z d)
      by (apply Qmult_le_l; assumption).
    lra. }
  (* lower: 2^k * d < 2^k * 2 * 2^ld = 2 * 2^ln <= 2 n *)
  assert (Hlow : 2 ^ k * inject_Z d < 2 * (Qabs x * inject_Z d)).
  { rewrite Hfrac.
    assert (2 ^ k * inject_Z d < 2 ^ k * (2 * 2 ^ Z.log2 d))
      by (apply Qmult_lt_l; assumption).
    lra. }
  assert (Hcancel : forall a b, a * inject_Z d < b * inject_Z d -> a < b).
  { intros a b H. now apply Qmult_lt_r in H. }
  assert (Hcancel' : forall a b, a * inject_Z d <= b * inject_Z d -> a <= b).
  { intros a b H. now apply Qmult_le_r in H. }
  destruct (if (0 <=? k)%Z then _ else _) eqn:Ht.
  - pose proof (proj1 Htest eq_refl) as Ht'. rewrite <- Hfrac in Ht'.
    rewrite pow2_S.
    split; [now apply Hcancel' | now apply Hcancel].
  - assert (Hnt : ~ 2 ^ k * inject_Z d <= inject_Z n).
    { intros H. apply Htest in H. discriminate. }
    apply Qnot_le_lt in Hnt. rewrite <- Hfrac in Hnt.
    replace (k - 1 + 1)%Z with k by lia.
    split; [|now apply Hcancel].
    assert (E : 2 ^ k == 2 * 2 ^ (k - 1)).
    { rewrite <- pow2_S. now replace (k - 1 + 1)%Z with k by lia. }
    rewrite E in Hlow.
    apply Hcancel'. apply Qlt_le_weak.
    assert (E2 : 2 * 2 ^ (k - 1) * inject_Z d == 2 * (2 ^ (k - 1) * inject_Z d))
      by ring.
    rewrite E2 in Hlow. lra.
Qed.

(** The binary logarithm is determined by its bounds. *)
Lemma mag_unique x e :
  2 ^ e <= Qabs x -> Qabs x < 2 ^ (e + 1) -> Binary64.mag x = e.
Proof.
  intros Hlo Hhi.
  assert (Hx : ~ x == 0).
  { intros H. rewrite H in Hlo. pose proof (pow2_pos e). 
    change (Qabs 0) with 0 in Hlo. lra. }
  destruct (mag_spec x Hx) as [Hlo' Hhi'].
  assert (H1 : (e < Binary64.mag x + 1)%Z) by (apply pow2_lt_inv; lra).
  assert (H2 : (Binary64.mag x < e + 1)%Z) by (apply pow2_lt_inv; lra).
  lia.
Qed.

(** [round_half_even] between integers *)
Lemma round_half_even_comp a b :
  a == b -> round_half_even a = round_half_even b.
Proof.
  intros H. unfold round_half_even. rewrite (Qfloor_comp a b H).
  assert (E : a - inject_Z (Qfloor b) == b - inject_Z (Qfloor b))
    by (rewrite H; reflexivity).
  now rewrite (Qcompare_comp _ _ E (1 # 2) (1 # 2) (Qeq_refl _)).
Qed.

Lemma round_half_even_le_Z a z : a <= inject_Z z -> (round_half_even a <= z)%Z.
Proof.
  intros H. destruct (round_half_even_bounds a) as [Hlo Hhi].
  destruct (Qlt_le_dec a (inject_Z z)) as [Hlt | Hge].
  - pose proof (Qfloor_le a) as Hf.
    assert (Hfz : (Qfloor a < z)%Z).
    { rewrite Zlt_Qlt. lra. }
    unfold round_half_even.
    destruct (Qcompare _ _); [destruct (Z.even _)| |]; lia.
  - assert (E : a == inject_Z z) by lra.
    rewrite (round_half_even_comp _ _ E), round_half_even_Z. lia.
Qed.

Lemma Z_le_round_half_even a z : inject_Z z <= a -> (z <= round_half_even a)%Z.
Proof.
  intros H.
  assert (Hf : (z <= Qfloor a)%Z).
  { rewrite <- (Qfloor_Z z). now apply Qfloor_resp_le. }
  unfold round_half_even.
  destruct (Qcompare _ _); [destruct (Z.even _)| |]; lia.
Qed.

(** Rounding *)
Lemma round_comp x y : x == y -> Binary64.round x = Binary64.round y.
Proof. intros H. unfold Binary64.round. now rewrite (Qred_complete x y H). Qed.

Lemma round_0 : Binary64.round 0 == 0.
Proof. reflexivity. Qed.

Lemma round_nonpos v : v <= 0 -> Binary64.round v <= 0.
Proof.
  intros Hv. unfold Binary64.round.
  set (q := Binary64.exponent (Qred v)).
  pose proof (pow2_pos q) as Hq.
  assert (H : Qred v / 2 ^ q <= inject_Z 0).
  { rewrite Qred_correct. change (inject_Z 0) with 0.
    apply Qle_shift_div_r; [exact Hq | lra]. }
  apply round_half_even_le_Z in H. rewrite Zle_Qle in H.
  change (inject_Z 0) with 0 in H.
  setoid_replace 0 with (0 * 2 ^ q) by ring.
  apply Qmult_le_compat_r; lra.
Qed.

Lemma round_nonneg v : 0 <= v -> 0 <= Binary64.round v.
Proof.
  intros Hv. unfold Binary64.round.
  set (q := Binary64.exponent (Qred v)).
  pose proof (pow2_pos q) as Hq.
  assert (H : inject_Z 0 <= Qred v / 2 ^ q).
  { rewrite Qred_correct. change (inject_Z 0) with 0.
    apply Qle_shift_div_l; [exact Hq | lra]. }
  apply Z_le_round_half_even in H. rewrite Zle_Qle in H.
  change (inject_Z 0) with 0 in H.
  apply Qmult_le_0_compat; lra.
Qed.

Lemma mag_Qred x : ~ x == 0 ->
  2 ^ Binary64.mag (Qred x) <= Qabs x
  /\ Qabs x < 2 ^ (Binary64.mag (Qred x) + 1).
Proof.
  intros Hx.
  assert (Hx' : ~ Qred x == 0) by now rewrite Qred_correct.
  destruct (mag_spec (Qred x) Hx') as [H1 H2].
  assert (E : Qabs (Qred x) == Qabs x) by apply Qabs_wd, Qred_correct.
  rewrite E in H1, H2. now split.
Qed.

(** A number of at least a normal power of two rounds to no less. *)
Lemma round_ge_pow2 k v :
  (-1022 <= k)%Z -> 2 ^ k <= v -> 2 ^ k <= Binary64.round v.
Proof.
  intros Hk Hv. pose proof (pow2_pos k) as Hpk.
  assert (Hv0 : ~ v == 0) by (intros H; rewrite H in Hv; lra).
  destruct (mag_Qred v Hv0) as [Hlo Hhi].
  rewrite Qabs_pos in Hlo, Hhi by lra.
  set (m := Binary64.mag (Qred v)) in *.
  assert (Hkm : (k <= m)%Z).
  { assert (k < m + 1)%Z by (apply pow2_lt_inv; lra). lia. }
  unfold Binary64.round, Binary64.exponent. fold m.
  rewrite Z.max_l by lia.
  pose proof (pow2_pos (m - 52)) as Hq.
  assert (H : inject_Z (2 ^ 52) <= Qred v / 2 ^ (m - 52)).
  { rewrite Qred_correct, <- pow2_Z by lia.
    apply Qle_shift_div_l; [exact Hq|].
    rewrite <- pow2_add. now replace (52 + (m - 52))%Z with m by lia. }
  apply Z_le_round_half_even in H. rewrite Zle_Qle in H.
  rewrite <- pow2_Z in H by lia.
  apply Qle_trans with (2 ^ m); [now apply pow2_le|].
  assert (E : 2 ^ m == 2 ^ 52 * 2 ^ (m - 52)).
  { rewrite <- pow2_add. now replace (52 + (m - 52))%Z with m by lia. }
  rewrite E. apply Qmult_le_compat_r; lra.
Qed.

(** The rounding of a number is an integer multiple of the unit in its
    last place. *)
Lemma round_scaled x :
  let q := Binary64.exponent (Qred x) in
  Binary64.round x == inject_Z (round_half_even (x / 2 ^ q)) * 2 ^ q.
Proof.
  intros q. unfold Binary64.round. fold q.
  assert (E : Qred x / 2 ^ q == x / 2 ^ q) by now rewrite Qred_correct.
  now rewrite (round_half_even_comp _ _ E).
Qed.

(** A number whose scaled value is an integer is its own rounding. *)
Lemma round_of_integer x z :
  x / 2 ^ Binary64.exponent (Qred x) == inject_Z z -> Binary64.round x == x.
Proof.
  intros H. rewrite round_scaled. cbv zeta.
  rewrite (round_half_even_comp _ _ H), round_half_even_Z, <- H.
  field. apply Qpower_not_0. discriminate.
Qed.

Lemma Qabs_scaled m e : Qabs (inject_Z m * 2 ^ e) == inject_Z (Z.abs m) * 2 ^ e.
Proof.
  rewrite Qabs_Qmult. rewrite (Qabs_pos (2 ^ e)) by apply Qlt_le_weak, pow2_pos.
  apply Qmult_comp; [|reflexivity].
  unfold Qabs, inject_Z. reflexivity.
Qed.

(** Every [m * 2 ^ e] with at most 53 bits in [m] and [e] at least the
    least exponent is a binary64 number. *)
Lemma round_exact m e :
  (Z.abs m <= 2 ^ 53)%Z -> (-1074 <= e)%Z ->
  Binary64.round (inject_Z m * 2 ^ e) == inject_Z m * 2 ^ e.
Proof.
  intros Hm He. set (x := inject_Z m * 2 ^ e).
  pose proof (pow2_pos e) as Hpe.
  destruct (Z.eq_dec m 0) as [-> | Hm0].
  { assert (E : x == 0) by (subst x; ring).
    rewrite (round_comp _ _ E), E. reflexivity. }
  assert (Hx : ~ x == 0).
  { subst x. intros H. apply Qmult_integral in H. destruct H as [H | H].
    - unfold Qeq, inject_Z in H. cbn in H. lia.
    - lra. }
  destruct (mag_Qred x Hx) as [Hlo Hhi].
  set (g := Binary64.mag (Qred x)) in *.
  assert (Habs : Qabs x == inject_Z (Z.abs m) * 2 ^ e) by apply Qabs_scaled.
  assert (Hm53 : inject_Z (Z.abs m) <= 2 ^ 53).
  { rewrite pow2_Z by lia. now rewrite <- Zle_Qle. }
  assert (Hg : (g <= 53 + e)%Z).
  { assert (2 ^ g <= 2 ^ (53 + e)).
    { rewrite pow2_add. rewrite Habs in Hlo.
      apply Qle_trans with (inject_Z (Z.abs m) * 2 ^ e); [exact Hlo|].
      apply Qmult_le_compat_r; lra. }
    destruct (Z.le_gt_cases g (53 + e)) as [H1 | H1]; [exact H1|].
    apply pow2_lt in H1. lra. }
  set (q := Binary64.exponent (Qred x)).
  assert (Hq : q = Z.max (g - 52) (-1074)) by reflexivity.
  destruct (Z.le_gt_cases q e) as [Hqe | Hqe].
  - apply (round_of_integer x (m * 2 ^ (e - q))). fold q.
    rewrite inject_Z_mult, <- pow2_Z by lia. rewrite pow2_sub.
    subst x. field. apply Qpower_not_0. discriminate.
  - assert (Hge : g = (53 + e)%Z) by lia.
    assert (Hqe1 : q = (e + 1)%Z) by lia.
    (* then |m| is exactly 2 ^ 53 *)
    assert (Hm2 : (2 ^ 53 <= Z.abs m)%Z).
    { rewrite Habs, Hge, pow2_add in Hlo.
      apply Qmult_le_r in Hlo; [|exact Hpe].
      rewrite pow2_Z in Hlo by lia. now rewrite <- Zle_Qle in Hlo. }
    assert (Hm3 : m = (2 * (m / 2))%Z).
    { assert (Z.abs m = 2 ^ 53)%Z by lia.
      assert (m mod 2 = 0)%Z.
      { destruct (Z.abs_eq_or_opp m) as [E | E]; rewrite E in H.
        - rewrite H. reflexivity.
        - assert (m = - 2 ^ 53)%Z by lia. subst m. reflexivity. }
      pose proof (Z.div_mod m 2). lia. }
    apply (round_of_integer x (m / 2)). fold q. rewrite Hqe1, pow2_S.
    subst x. rewrite Hm3 at 1. rewrite inject_Z_mult.
    change (inject_Z 2) with 2. field. lra.
Qed.

(** Rounding yields a binary64 number. *)
Lemma round_round x : Binary64.round (Binary64.round x) == Binary64.round x.
Proof.
  pose proof (round_scaled x) as Hs. cbv zeta in Hs.
  set (q := Binary64.exponent (Qred x)) in *.
  set (z := round_half_even (x / 2 ^ q)) in *.
  rewrite (round_comp _ _ Hs).
  apply Qeq_trans with (inject_Z z * 2 ^ q); [|symmetry; exact Hs].
  apply round_exact; [|unfold q, Binary64.exponent; lia].
  pose proof (pow2_pos q) as Hq.
  destruct (Qeq_dec x 0) as [E | Hx].
  { assert (E' : x / 2 ^ q == inject_Z 0) by (rewrite E; reflexivity).
    unfold z. rewrite (round_half_even_comp _ _ E'), round_half_even_Z.
    lia. }
  destruct (mag_Qred x Hx) as [_ Hhi].
  set (g := Binary64.mag (Qred x)) in *.
  assert (Hgq : (g + 1 <= 53 + q)%Z)
    by (unfold q, Binary64.exponent; fold g; lia).
  assert (Hb : Qabs x < 2 ^ 53 * 2 ^ q).
  { rewrite <- pow2_add. apply Qlt_le_trans with (2 ^ (g + 1)); [exact Hhi|].
    now apply pow2_le. }
  apply Qabs_Qlt_condition in Hb. destruct Hb as [Hb1 Hb2].
  assert (H1 : x / 2 ^ q <= inject_Z (2 ^ 53)).
  { rewrite <- pow2_Z by lia. apply Qle_shift_div_r; [exact Hq | lra]. }
  assert (H2 : inject_Z (- 2 ^ 53) <= x / 2 ^ q).
  { rewrite inject_Z_opp, <- pow2_Z by lia.
    apply Qle_shift_div_l; [exact Hq|].
    assert (E : - 2 ^ 53 * 2 ^ q == - (2 ^ 53 * 2 ^ q)) by ring.
    rewrite E. lra. }
  apply round_half_even_le_Z in H1. apply Z_le_round_half_even in H2.
  fold z in H1, H2. lia.
Qed.

(** The binary64 numbers of one binade are the multiples of its unit. *)
Lemma representable_grid d k :
  Binary64.representable d -> (-1022 <= k)%Z -> 2 ^ k <= d -> d < 2 ^ (k + 1) ->
  exists z, d == inject_Z z * 2 ^ (k - 52).
Proof.
  intros Hd Hk Hlo Hhi. pose proof (pow2_pos k) as Hpk.
  assert (Hmag : Binary64.mag (Qred d) = k).
  { apply mag_unique.
    - assert (E : Qabs (Qred d) == d)
        by (rewrite (Qabs_wd _ _ (Qred_correct d)); apply Qabs_pos; lra).
      now rewrite E.
    - assert (E : Qabs (Qred d) == d)
        by (rewrite (Qabs_wd _ _ (Qred_correct d)); apply Qabs_pos; lra).
      now rewrite E. }
  unfold Binary64.representable in Hd. rewrite round_scaled in Hd.
  cbv zeta in Hd.
  unfold Binary64.exponent in Hd. rewrite Hmag, Z.max_l in Hd by lia.
  eexists. symmetry. exact Hd.
Qed.

(** Subtraction from 11 is exact just below 11 (Sterbenz). *)
Lemma sub_11_exact d :
  Binary64.representable d -> 21 # 2 < d -> d < 11 ->
  Binary64.round (11 - d) == 11 - d.
Proof.
  intros Hd Hlo Hhi.
  destruct (representable_grid d 3 Hd ltac:(lia)) as [z Hz].
  { assert (E : 2 ^ 3 == 8) by (vm_compute; reflexivity). rewrite E. lra. }
  { assert (E : 2 ^ (3 + 1) == 16) by (vm_compute; reflexivity).
    rewrite E. lra. }
  replace (3 - 52)%Z with (-49)%Z in Hz by lia.
  pose proof (pow2_pos (-49)) as Hp.
  assert (E1 : 2 ^ 49 * 2 ^ (-49) == 1).
  { rewrite <- pow2_add. reflexivity. }
  assert (E : 11 - d == inject_Z (11 * 2 ^ 49 - z) * 2 ^ (-49)).
  { rewrite Hz. unfold Z.sub.
    rewrite inject_Z_plus, inject_Z_opp, inject_Z_mult.
    rewrite <- (pow2_Z 49) by lia. change (inject_Z 11) with 11.
    setoid_replace ((11 * 2 ^ 49 + - inject_Z z) * 2 ^ (-49))
      with (11 * (2 ^ 49 * 2 ^ (-49)) - inject_Z z * 2 ^ (-49)) by ring.
    rewrite E1. ring. }
  rewrite (round_comp _ _ E), E.
  apply round_exact; [|lia].
  set (w := (11 * 2 ^ 49 - z)%Z) in *.
  assert (H1 : 0 < inject_Z w * 2 ^ (-49)) by (rewrite <- E; lra).
  assert (H2 : inject_Z w * 2 ^ (-49) < 1 # 2) by (rewrite <- E; lra).
  assert (Hw1 : 0 < inject_Z w).
  { destruct (Qlt_le_dec 0 (inject_Z w)) as [H | H]; [exact H|].
    assert (inject_Z w * 2 ^ (-49) <= 0 * 2 ^ (-49))
      by (apply Qmult_le_compat_r; lra).
    lra. }
  assert (Hw2 : inject_Z w < 2 ^ 48).
  { assert (H3 : inject_Z w * 2 ^ (-49) * 2 ^ 49 < (1 # 2) * 2 ^ 49).
    { apply Qmult_lt_compat_r; [apply pow2_pos | exact H2]. }
    assert (E2 : inject_Z w * 2 ^ (-49) * 2 ^ 49
                 == inject_Z w * (2 ^ 49 * 2 ^ (-49))) by ring.
    rewrite E2, E1 in H3.
    assert (E3 : (1 # 2) * 2 ^ 49 == 2 ^ 48).
    { replace 49%Z with (48 + 1)%Z by lia. rewrite pow2_S. field. }
    rewrite E3 in H3. lra. }
  rewrite pow2_Z in Hw2 by lia.
  change 0 with (inject_Z 0) in Hw1.
  rewrite <- Zlt_Qlt in Hw1, Hw2.
  assert (2 ^ 48 < 2 ^ 53)%Z by (apply Z.pow_lt_mono_r; lia).
  lia.
Qed.

(** The rounding on some values: the float of 0.1, the third of 7, the
    difference that does not lower 130, and a tie at half the least
    subnormal number, which goes to 0. *)
Lemma round_examples :
  Binary64.round (1 # 10) == 3602879701896397 # 36028797018963968
  /\ Binary64.round (7 # 3) == 5254199565265579 # 2251799813685248
  /\ Binary64.round (130 - (1 # 70368744177664)) == 130
  /\ Binary64.round (/ 2 ^ 1075) == 0
  /\ Binary64.round (3 * / 2 ^ 1075) == 2 * / 2 ^ 1074.
Proof. repeat split; vm_compute; reflexivity. Qed.

(** ** The binary64 loop of [_add_driving] *)

Lemma in_range_spec t :
  in_range t = true
  <-> (1 <= date_of t <= MAX_ORDINAL)%Z.
Proof.
  unfold in_range. rewrite andb_true_iff, !Z.leb_le. tauto.
Qed.

Lemma plus_returned t delta t' :
  plus_timedelta t delta = Returned t' ->
  t' = (t + delta)%Z /\ in_range t' = true.
Proof.
  unfold plus_timedelta.
  destruct (in_range (t + delta)) eqn:E; [|discriminate].
  intros H. injection H as <-. now split.
Qed.

(** What [_add_event] returns when it returns: the event in the current
    day, or in a fresh day from the anchor. *)
Lemma add_event64_cases ls dl st t h act r :
  _add_event64 ls dl st t h act = Returned r ->
  let end0 := (t + timedelta_hours h)%Z in
  let anchor := replace_hour_minute end0 8 0 in
  ((date_of end0 <= date_of t)%Z
   /\ in_range end0 = true
   /\ r = (end0, record64 dl st t end0 h act, ls))
  \/ ((date_of t < date_of end0)%Z
      /\ in_range (anchor + timedelta_hours h) = true
      /\ r = ((anchor + timedelta_hours h)%Z,
              record64 (_init_day_log (date_of end0)) st anchor
                              (anchor + timedelta_hours h)%Z h act,
              ls ++ [dl])).
Proof.
  intros Hcall end0 anchor. unfold _add_event64 in Hcall.
  destruct (plus_timedelta t (timedelta_hours h)) as [e|] eqn:Hplus;
    [|discriminate].
  apply plus_returned in Hplus. destruct Hplus as [He Hin].
  fold end0 in He. subst e.
  destruct (date_of end0 >? date_of t)%Z eqn:Hc.
  - apply Z.gtb_lt in Hc. right. fold anchor in Hcall.
    destruct (plus_timedelta anchor (timedelta_hours h)) as [e|] eqn:Hplus;
      [|discriminate].
    apply plus_returned in Hplus. destruct Hplus as [He Hin']. subst e.
    injection Hcall as <-. now repeat split.
  - left. injection Hcall as <-.
    assert (date_of end0 <= date_of t)%Z.
    { rewrite Z.gtb_ltb in Hc. now apply Z.ltb_ge in Hc. }
    now repeat split.
Qed.

Lemma add_event64_same_day ls dl st t h act :
  in_range (t + timedelta_hours h) = true ->
  (date_of (t + timedelta_hours h) >? date_of t)%Z = false ->
  _add_event64 ls dl st t h act
  = Returned
      ((t + timedelta_hours h)%Z,
       record64 dl st t (t + timedelta_hours h)%Z h act, ls).
Proof.
  intros H1 H2. unfold _add_event64, plus_timedelta.
  now rewrite H1, H2.
Qed.

Lemma add_event64_overflow ls dl st t h act :
  in_range (t + timedelta_hours h) = false ->
  _add_event64 ls dl st t h act = OverflowError.
Proof.
  intros H. unfold _add_event64, plus_timedelta. now rewrite H.
Qed.

(** The rest iteration, when it does not raise. *)
Lemma rest_iteration64 s :
  Qle_bool (available64 s) 0 = true ->
  let t1 := rest_start (ds_start_time s) in
  let t2 := (t1 + 10 * US_PER_HOUR)%Z in
  driving_iteration64 s = OverflowError
  \/ (in_range t2 = true
      /\ driving_iteration64 s
         = Returned
             (mkDrivingState
                (ds_log_sheets s ++ [ds_day_log s])
                (record64
                   (_init_day_log (date_of (ds_start_time s) + 1))
                   Sleeper_berth t1 t2 min_rest_hours None)
                t2 (ds_drive_time s)
                (if (weekday t2 =? 0)%Z then max_cycle_hours
                 else ds_remaining_cycle s))).
Proof.
  intros Hav t1 t2. unfold driving_iteration64. rewrite Hav.
  change (plus_timedelta (replace_hour_minute (ds_start_time s) 8 0)
                        (timedelta_days 1))
    with (if in_range t1 then Returned t1
          else @OverflowError datetime).
  destruct (in_range t1); [|now left].
  assert (Hd1 : date_of t1 = (date_of (ds_start_time s) + 1)%Z)
    by apply date_of_rest_start.
  assert (Hd2 : date_of t2 = (date_of (ds_start_time s) + 1)%Z)
    by apply date_of_rest_end.
  assert (Ht2 : (t1 + timedelta_hours min_rest_hours)%Z = t2)
    by now rewrite timedelta_hours_10.
  destruct (in_range t2) eqn:Hin2.
  - right. split; [reflexivity|].
    rewrite add_event64_same_day.
    + rewrite Ht2, Hd1. reflexivity.
    + now rewrite Ht2.
    + rewrite Ht2, Hd1, Hd2, Z.gtb_ltb. apply Z.ltb_irrefl.
  - left. rewrite add_event64_overflow; [reflexivity | now rewrite Ht2].
Qed.

(** The drive iteration, when it does not raise. *)
Lemma drive_iteration64 s :
  Qle_bool (available64 s) 0 = false ->
  let avail := available64 s in
  let end0 := (ds_start_time s + timedelta_hours avail)%Z in
  let anchor := replace_hour_minute end0 8 0 in
  driving_iteration64 s = OverflowError
  \/ ((date_of end0 <= date_of (ds_start_time s))%Z
      /\ in_range end0 = true
      /\ driving_iteration64 s
         = Returned
             (mkDrivingState
                (ds_log_sheets s)
                (record64 (ds_day_log s) Driving (ds_start_time s)
                                 end0 avail None)
                end0
                (Binary64.sub (ds_drive_time s) avail)
                (Binary64.sub (ds_remaining_cycle s) avail)))
  \/ ((date_of (ds_start_time s) < date_of end0)%Z
      /\ in_range (anchor + timedelta_hours avail) = true
      /\ driving_iteration64 s
         = Returned
             (mkDrivingState
                (ds_log_sheets s ++ [ds_day_log s])
                (record64 (_init_day_log (date_of end0)) Driving
                                 anchor (anchor + timedelta_hours avail)%Z
                                 avail None)
                (anchor + timedelta_hours avail)%Z
                (Binary64.sub (ds_drive_time s) avail)
                (Binary64.sub (ds_remaining_cycle s) avail))).
Proof.
  intros Hav avail end0 anchor. unfold driving_iteration64.
  rewrite Hav. fold avail.
  destruct (_add_event64 (ds_log_sheets s) (ds_day_log s) Driving
              (ds_start_time s) avail None) as [[[t' dl'] ls']|] eqn:Hcall;
    [|now left].
  right.
  destruct (add_event64_cases _ _ _ _ _ _ _ Hcall)
    as [(Hd & Hin & E) | (Hd & Hin & E)]; injection E as -> -> ->.
  - left. now repeat split.
  - right. now repeat split.
Qed.

Lemma available64_bounds s :
  available64 s
  <= Binary64.sub max_drive_hours (driving (totals (ds_day_log s)))
  /\ available64 s
     <= Binary64.sub max_on_duty_hours (on_duty (totals (ds_day_log s)))
  /\ available64 s <= ds_remaining_cycle s
  /\ available64 s <= ds_drive_time s.
Proof.
  unfold available64.
  set (a := Binary64.sub max_drive_hours _).
  set (b := Binary64.sub max_on_duty_hours _).
  pose proof (Q.le_min_l (Qmin (Qmin a b) (ds_remaining_cycle s))
                         (ds_drive_time s)) as H1.
  pose proof (Q.le_min_r (Qmin (Qmin a b) (ds_remaining_cycle s))
                         (ds_drive_time s)) as H2.
  pose proof (Q.le_min_l (Qmin a b) (ds_remaining_cycle s)) as H3.
  pose proof (Q.le_min_r (Qmin a b) (ds_remaining_cycle s)) as H4.
  pose proof (Q.le_min_l a b) as H5.
  pose proof (Q.le_min_r a b) as H6.
  repeat split; lra.
Qed.

Lemma available64_cases s :
  available64 s
  == Binary64.sub max_drive_hours (driving (totals (ds_day_log s)))
  \/ available64 s
     == Binary64.sub max_on_duty_hours (on_duty (totals (ds_day_log s)))
  \/ available64 s == ds_remaining_cycle s
  \/ available64 s == ds_drive_time s.
Proof.
  unfold available64.
  set (a := Binary64.sub max_drive_hours _).
  set (b := Binary64.sub max_on_duty_hours _).
  destruct (Q.min_spec (Qmin (Qmin a b) (ds_remaining_cycle s))
                       (ds_drive_time s)) as [[_ H1] | [_ H1]];
    [|right; right; right; exact H1].
  destruct (Q.min_spec (Qmin a b) (ds_remaining_cycle s))
    as [[_ H2] | [_ H2]]; [|right; right; left; now rewrite H1].
  destruct (Q.min_spec a b) as [[_ H3] | [_ H3]];
    [left | right; left]; now rewrite H1, H2.
Qed.

(** A difference that is zero is rounded to zero. *)
Lemma sub_self x y : x == y -> Binary64.sub x y == 0.
Proof.
  intros H. unfold Binary64.sub.
  assert (E : x - y == 0) by (rewrite H; ring).
  rewrite (round_comp _ _ E). apply round_0.
Qed.

(** With an on-duty total not within half an hour below 14, the hours
    left of the 14 are none or at least half an hour. *)
Lemma on_duty_budget_coarse o :
  o <= 27 # 2 \/ 14 <= o ->
  Binary64.sub max_on_duty_hours o <= 0
  \/ 1 # 2 <= Binary64.sub max_on_duty_hours o.
Proof.
  unfold Binary64.sub, max_on_duty_hours. intros [H | H].
  - right. assert (E : 1 # 2 == 2 ^ (-1)) by reflexivity. rewrite E.
    apply round_ge_pow2; [lia|]. rewrite <- E. lra.
  - left. apply round_nonpos. lra.
Qed.

(** When fewer than half an hour is left of the 11 hours of driving, the
    hours left are exact, and driving them makes the total 11. *)
Lemma driving_budget_fine d :
  Binary64.representable d ->
  0 < Binary64.sub max_drive_hours d ->
  Binary64.sub max_drive_hours d < 1 # 2 ->
  Binary64.sub max_drive_hours d == 11 - d.
Proof.
  unfold Binary64.sub, max_drive_hours. intros Hd Hpos Hsmall.
  apply sub_11_exact; [exact Hd | |].
  - destruct (Qlt_le_dec (21 # 2) d) as [H | H]; [exact H|].
    assert (E : 1 # 2 == 2 ^ (-1)) by reflexivity.
    assert (H1 : 2 ^ (-1) <= Binary64.round (11 - d)).
    { apply round_ge_pow2; [lia|]. rewrite <- E. lra. }
    rewrite <- E in H1. lra.
  - destruct (Qlt_le_dec d 11) as [H | H]; [exact H|].
    assert (H1 : Binary64.round (11 - d) <= 0) by (apply round_nonpos; lra).
    lra.
Qed.

(** A duration that [timedelta] rounds to no microsecond is less than
    half an hour. *)
Lemma timedelta_zero_small h : timedelta_hours h = 0%Z -> h < 1 # 2.
Proof.
  unfold timedelta_hours. intros H.
  destruct (round_half_even_bounds (h * inject_Z US_PER_HOUR)) as [Hlo _].
  rewrite H in Hlo. change (inject_Z 0) with 0 in Hlo.
  assert (E : inject_Z US_PER_HOUR == 3600000000) by reflexivity.
  rewrite E in Hlo. lra.
Qed.

Lemma ready64_rest s :
  let t1 := rest_start (ds_start_time s) in
  let t2 := (t1 + 10 * US_PER_HOUR)%Z in
  in_range t2 = true ->
  forall rc dt,
    ready64 (mkDrivingState
               (ds_log_sheets s ++ [ds_day_log s])
               (record64
                  (_init_day_log (date_of (ds_start_time s) + 1))
                  Sleeper_berth t1 t2 min_rest_hours None)
               t2 dt rc).
Proof.
  intros t1 t2 Hin rc dt. unfold ready64.
  cbn [ds_start_time ds_day_log record64 totals add_total64
       _init_day_log driving on_duty].
  split; [exact Hin|]. split; [apply round_0 | left; lra].
Qed.

Lemma halts64_fuel s :
  halts64 s ->
  exists fuel r,
    (forall extra, driving_loop64 (fuel + extra) s = Some r)
    /\ (r = OverflowError
        \/ exists s', r = Returned s' /\ ds_drive_time s' <= 0).
Proof.
  induction 1 as [s Hdt | s Hdt Hraise | s s' Hdt Hstep _ (fuel & r & IH & Hr)].
  - exists O, (Returned s). split.
    + intros extra. destruct extra; cbn; now rewrite Hdt.
    + right. exists s. split; [reflexivity | now apply Qle_bool_iff].
  - exists 1%nat, OverflowError. split; [|now left].
    intros extra. cbn. now rewrite Hdt, Hraise.
  - exists (S fuel), r. split; [|exact Hr].
    intros extra. cbn. now rewrite Hdt, Hstep.
Qed.

(** After an iteration that drove for no microsecond, the loop is done,
    raises, or rests. *)
Lemma drive_no_time s :
  ready64 s ->
  Qle_bool (ds_drive_time s) 0 = false ->
  Qle_bool (available64 s) 0 = false ->
  timedelta_hours (available64 s) = 0%Z ->
  forall s',
    driving_iteration64 s = Returned s' ->
    ds_start_time s' = ds_start_time s
    /\ (Qle_bool (ds_drive_time s') 0 = true
        \/ Qle_bool (available64 s') 0 = true).
Proof.
  intros (Hin & Hrep & Hon) Hdt Hav Htd s' Hstep.
  pose proof (proj1 (Qle_bool_false _ _) Hav) as Hpos.
  pose proof (timedelta_zero_small _ Htd) as Hsmall.
  destruct (drive_iteration64 s Hav) as [H | [(Hd & _ & H) | (Hd & _ & H)]];
    rewrite H in Hstep; try discriminate.
  2: { exfalso. cbv zeta in Hd. rewrite Htd, Z.add_0_r in Hd. lia. }
  cbv zeta in H, Hstep. rewrite Htd, Z.add_0_r in Hstep.
  injection Hstep as <-. cbn [ds_start_time ds_drive_time].
  split; [reflexivity|].
  set (avail := available64 s) in *.
  pose proof (available64_bounds s) as (Ha & Hc & _ & _). fold avail in Ha, Hc.
  destruct (available64_cases s) as [E | [E | [E | E]]]; fold avail in E.
  - (* the hours left of the 11 *)
    right. apply Qle_bool_iff.
    assert (Hexact : Binary64.sub max_drive_hours
                       (driving (totals (ds_day_log s)))
                     == 11 - driving (totals (ds_day_log s))).
    { apply driving_budget_fine; [exact Hrep | lra | lra]. }
    set (s1 := mkDrivingState _ _ _ _ _).
    pose proof (available64_bounds s1) as (Ha1 & _).
    assert (Hd1 : driving (totals (ds_day_log s1)) == 11).
    { subst s1. cbn [ds_day_log record64 totals add_total64
                     driving].
      unfold Binary64.add.
      assert (E1 : driving (totals (ds_day_log s)) + avail == 11)
        by (rewrite E, Hexact; ring).
      rewrite (round_comp _ _ E1). reflexivity. }
    assert (Hz : Binary64.sub max_drive_hours (driving (totals (ds_day_log s1)))
                 == 0).
    { apply sub_self. unfold max_drive_hours. now rewrite Hd1. }
    lra.
  - (* the hours left of the 14 *)
    exfalso. destruct (on_duty_budget_coarse _ Hon) as [H1 | H1]; lra.
  - (* the remaining cycle *)
    right. apply Qle_bool_iff.
    set (s1 := mkDrivingState _ _ _ _ _).
    pose proof (available64_bounds s1) as (_ & _ & Hrc & _).
    assert (Hz : ds_remaining_cycle s1 == 0).
    { subst s1. cbn [ds_remaining_cycle]. apply sub_self. now rewrite E. }
    lra.
  - (* the drive time *)
    left. apply Qle_bool_iff.
    assert (Hz : Binary64.sub (ds_drive_time s) avail == 0)
      by (apply sub_self; now rewrite E).
    lra.
Qed.

Lemma us_left_pos s : (0 < us_left s)%nat.
Proof.
  unfold us_left, date_of, US_PER_DAY.
  assert ((ds_start_time s / 86400000000 + 1) * 86400000000
          - ds_start_time s > 0)%Z by time_arith.
  lia.
Qed.

Lemma ready64_drive s t' ls t1 t2 h act dt rc :
  ready64 s -> in_range t' = true ->
  ready64 (mkDrivingState
             ls (record64 (ds_day_log s) Driving t1 t2 h act)
             t' dt rc).
Proof.
  intros (_ & Hrep & Hon) Hin. unfold ready64.
  cbn [ds_start_time ds_day_log record64 totals add_total64
       driving on_duty].
  split; [exact Hin|]. unfold Binary64.representable, Binary64.add.
  split; [apply round_round | exact Hon].
Qed.

Lemma ready64_drive_fresh d t' ls t1 t2 h act dt rc :
  in_range t' = true ->
  ready64 (mkDrivingState
             ls (record64 (_init_day_log d) Driving t1 t2 h act)
             t' dt rc).
Proof.
  intros Hin. unfold ready64.
  cbn [ds_start_time ds_day_log record64 totals add_total64
       _init_day_log driving on_duty].
  split; [exact Hin|]. unfold Binary64.representable, Binary64.add.
  split; [apply round_round | left; lra].
Qed.

(** The loop comes to an end within the day, given that it does from
    every state closer to the end of the date range. *)
Lemma ready64_halts_day N :
  (forall s, ready64 s -> (days_left s < N)%nat -> halts64 s) ->
  forall m s,
    ready64 s -> (days_left s <= N)%nat -> (us_left s <= m)%nat -> halts64 s.
Proof.
  intros IHd.
  assert (Hrest : forall s,
             ready64 s -> (days_left s <= N)%nat ->
             Qle_bool (ds_drive_time s) 0 = false ->
             Qle_bool (available64 s) 0 = true -> halts64 s).
  { intros s Hready Hdays Hdt Hav.
    destruct (rest_iteration64 s Hav) as [H | [Hin H]];
      [now apply halts64_raise|].
    eapply halts64_step; [exact Hdt | exact H|].
    apply IHd; [now apply ready64_rest|].
    apply in_range_spec in Hin. rewrite date_of_rest_end in Hin.
    unfold days_left in *. cbn [ds_start_time].
    rewrite date_of_rest_end. lia. }
  induction m as [|m IH]; intros s Hready Hdays Hus.
  { pose proof (us_left_pos s). lia. }
  destruct (Qle_bool (ds_drive_time s) 0) eqn:Hdt; [now apply halts64_done|].
  destruct (Qle_bool (available64 s) 0) eqn:Hav;
    [now apply Hrest|].
  pose proof (proj1 (Qle_bool_false _ _) Hav) as Hpos.
  assert (Htd : (0 <= timedelta_hours (available64 s))%Z)
    by (apply timedelta_hours_nonneg; lra).
  destruct (drive_iteration64 s Hav)
    as [H | [(Hd & Hin & H) | (Hd & Hin & H)]];
    [now apply halts64_raise | |]; cbv zeta in *.
  - (* the drive ends on the same day *)
    set (s' := mkDrivingState _ _ _ _ _) in H.
    assert (Hready' : ready64 s').
    { subst s'. now apply ready64_drive. }
    assert (Hsame : date_of (ds_start_time s
                             + timedelta_hours (available64 s))
                    = date_of (ds_start_time s)).
    { revert Hd Htd. unfold date_of, US_PER_DAY. intros. time_arith. }
    destruct (Z.eq_dec (timedelta_hours (available64 s)) 0)
      as [Hzero | Hnz].
    + destruct (drive_no_time s Hready Hdt Hav Hzero s' H) as [Ht [Hd' | Ha']].
      * eapply halts64_step; [exact Hdt | exact H|]. now apply halts64_done.
      * eapply halts64_step; [exact Hdt | exact H|].
        destruct (Qle_bool (ds_drive_time s') 0) eqn:Hdt';
          [now apply halts64_done|].
        apply Hrest; [exact Hready' | | exact Hdt' | exact Ha'].
        unfold days_left in *. now rewrite Ht.
    + eapply halts64_step; [exact Hdt | exact H|].
      apply IH; [exact Hready' | |].
      * unfold days_left in *. subst s'. cbn [ds_start_time].
        now rewrite Hsame.
      * unfold us_left in *. subst s'. cbn [ds_start_time].
        rewrite Hsame.
        assert ((date_of (ds_start_time s) + 1) * US_PER_DAY
                - ds_start_time s > 0)%Z.
        { unfold date_of, US_PER_DAY. time_arith. }
        lia.
  - (* the drive crosses into a later day *)
    set (s' := mkDrivingState _ _ _ _ _) in H.
    eapply halts64_step; [exact Hdt | exact H|].
    apply IHd.
    + subst s'. now apply ready64_drive_fresh.
    + apply in_range_spec in Hin.
      assert (Hlater : (date_of (ds_start_time s)
                        < date_of (ds_start_time s'))%Z).
      { subst s'. cbn [ds_start_time].
        pose proof (date_of_anchor (ds_start_time s
                                    + timedelta_hours (available64 s)))
          as Ha.
        revert Hd Htd Ha. unfold date_of, US_PER_DAY. intros. time_arith. }
      unfold days_left in *. subst s'. cbn [ds_start_time] in *. lia.
Qed.

(** From every state the generator reaches, the binary64 loop comes to
    an end. *)
Lemma ready64_halts s : ready64 s -> halts64 s.
Proof.
  assert (H : forall N s0,
             ready64 s0 -> (days_left s0 <= N)%nat -> halts64 s0).
  { induction N as [|N IH]; intros s0 Hready Hdays.
    - apply (ready64_halts_day 0) with (m := us_left s0); auto.
      intros s1 _ H1. lia.
    - apply (ready64_halts_day (S N)) with (m := us_left s0); auto.
      intros s1 Hr1 H1. apply IH; [exact Hr1 | lia]. }
  intros Hready. now apply (H (days_left s)).
Qed.

(** The on-duty totals of the generator are sums of hours and half hours:
    such a total is a multiple of half an hour, stays one when an hour or
    half an hour is added to it, and is not within half an hour below
    14. *)
Lemma half_hours_add (k j : Z) :
  (Z.abs (k + j) <= 2 ^ 53)%Z ->
  Binary64.add (inject_Z k / 2) (inject_Z j / 2) == inject_Z (k + j) / 2.
Proof.
  intros Hk. unfold Binary64.add.
  assert (E : inject_Z k / 2 + inject_Z j / 2 == inject_Z (k + j) * 2 ^ (-1)).
  { rewrite inject_Z_plus.
    assert (E1 : 2 ^ (-1) == 1 # 2) by reflexivity. rewrite E1. field. }
  rewrite (round_comp _ _ E), round_exact by (auto; lia).
  assert (E1 : 2 ^ (-1) == 1 # 2) by reflexivity. rewrite E1. field.
Qed.

Lemma half_hours_coarse (k : Z) :
  inject_Z k / 2 <= 27 # 2 \/ 14 <= inject_Z k / 2.
Proof.
  destruct (Z.le_gt_cases k 27) as [H | H]; [left | right].
  - rewrite Zle_Qle in H. change (inject_Z 27) with 27 in H.
    apply Qle_shift_div_r; [reflexivity | lra].
  - assert (H1 : (28 <= k)%Z) by lia.
    rewrite Zle_Qle in H1. change (inject_Z 28) with 28 in H1.
    apply Qle_shift_div_l; [reflexivity | lra].
Qed.

(** The condition on the on-duty total cannot be dropped.  With an
    on-duty total one unit in the last place below 14 and a driving total
    of [- 2^100], that unit is what is available; driving it moves neither
    the clock nor the driving total, the drive time or the remaining
    cycle, and the loop makes the same iteration again, for ever.  No day
    log of the generator is like that. *)
Lemma stalled_available s :
  stalled s -> available64 s == 1 # 562949953421312.
Proof.
  intros (_ & Hd & Ho & Hrc & Hdt). unfold available64.
  assert (EA : Binary64.sub max_drive_hours (driving (totals (ds_day_log s)))
               = Binary64.round (11 + inject_Z (2 ^ 100))).
  { apply round_comp. rewrite Hd. unfold max_drive_hours. ring. }
  assert (EC : Binary64.sub max_on_duty_hours
                 (on_duty (totals (ds_day_log s)))
               = Binary64.round (1 # 562949953421312)).
  { apply round_comp. rewrite Ho. unfold max_on_duty_hours. ring. }
  assert (VA : Binary64.round (11 + inject_Z (2 ^ 100)) == inject_Z (2 ^ 100))
    by (vm_compute; reflexivity).
  assert (VC : Binary64.round (1 # 562949953421312) == 1 # 562949953421312)
    by (vm_compute; reflexivity).
  assert (Hbig : 1 < inject_Z (2 ^ 100)) by (vm_compute; reflexivity).
  rewrite EA, EC.
  set (a := Binary64.round (11 + inject_Z (2 ^ 100))) in *.
  set (c := Binary64.round (1 # 562949953421312)) in *.
  assert (H1 : Qmin a c == c) by (apply Q.min_r; lra).
  assert (H2 : Qmin (Qmin a c) (ds_remaining_cycle s) == Qmin a c)
    by (apply Q.min_l; lra).
  assert (H3 : Qmin (Qmin (Qmin a c) (ds_remaining_cycle s)) (ds_drive_time s)
               == Qmin (Qmin a c) (ds_remaining_cycle s))
    by (apply Q.min_l; lra).
  lra.
Qed.

Lemma stalled_step s :
  stalled s ->
  exists s', driving_iteration64 s = Returned s' /\ stalled s'.
Proof.
  intros Hs. pose proof (stalled_available s Hs) as Hav.
  destruct Hs as (Hin & Hd & Ho & Hrc & Hdt).
  assert (Hpos : Qle_bool (available64 s) 0 = false)
    by (apply Qle_bool_false; lra).
  assert (Htd : timedelta_hours (available64 s) = 0%Z).
  { unfold timedelta_hours.
    assert (E : available64 s * inject_Z US_PER_HOUR
                == (1 # 562949953421312) * inject_Z US_PER_HOUR)
      by now rewrite Hav.
    now rewrite (round_half_even_comp _ _ E). }
  unfold driving_iteration64. rewrite Hpos.
  rewrite add_event64_same_day;
    rewrite ?Htd, ?Z.add_0_r;
    [|exact Hin | rewrite Z.gtb_ltb; apply Z.ltb_irrefl].
  eexists. split; [reflexivity|]. unfold stalled.
  cbn [ds_start_time ds_day_log ds_remaining_cycle ds_drive_time
       record64 totals add_total64 driving on_duty].
  split; [exact Hin|]. unfold Binary64.add, Binary64.sub.
  split; [|split; [exact Ho | split]].
  - assert (E : driving (totals (ds_day_log s)) + available64 s
                == - inject_Z (2 ^ 100) + (1 # 562949953421312))
      by now rewrite Hd, Hav.
    rewrite (round_comp _ _ E). vm_compute. reflexivity.
  - assert (E : ds_remaining_cycle s - available64 s
                == 70 - (1 # 562949953421312)) by now rewrite Hrc, Hav.
    rewrite (round_comp _ _ E). vm_compute. reflexivity.
  - assert (E : ds_drive_time s - available64 s
                == 100 - (1 # 562949953421312)) by now rewrite Hdt, Hav.
    rewrite (round_comp _ _ E). vm_compute. reflexivity.
Qed.

Lemma stalled_forever fuel :
  forall s, stalled s -> driving_loop64 fuel s = None.
Proof.
  induction fuel as [|fuel IH]; intros s Hs;
    pose proof Hs as (_ & _ & _ & _ & Hdt);
    assert (Hpos : Qle_bool (ds_drive_time s) 0 = false)
      by (apply Qle_bool_false; lra);
    cbn [driving_loop64]; rewrite Hpos; [reflexivity|].
  destruct (stalled_step s Hs) as (s' & -> & Hs'). now apply IH.
Qed.

Lemma stalled_state :
  stalled (mkDrivingState
             []
             (mkDailyLog 738000 (repeat OFF 96) []
                         (mkTotals (- inject_Z (2 ^ 100))
                                   (14 - (1 # 562949953421312)) 0 0))
             (738000 * US_PER_DAY + 9 * US_PER_HOUR) 100 70).
Proof. repeat split. Qed.

(** * Main theorems *)

(** ** C1: the daily budgets *)

(** The sheets of a run stay within the driving budget. *)
Lemma run_within_driving_budget
    (requests_get : string -> HttpResult (option GeocodeBody))
    (requests_post : Coords -> Coords -> HttpResult (option RouteBody))
    (fuel : nat) (now : datetime) (self : Generator)
    (rd : RouteDetails) (sheets : list DailyLog) :
  Forall driving_within_budget (self_log_sheets self) ->
  generate_log_sheets requests_get requests_post fuel now self
  = Some (Return (rd, sheets)) ->
  Forall (fun d => 0 <= driving (totals d) <= 11) sheets.
Proof.
  intros Hsheets0 Hrun. unfold generate_log_sheets in Hrun.
  destruct (resolved_route requests_get requests_post self) as [rd'|];
    [|discriminate].
  destruct (simulate fuel now (self_log_sheets self)
                     (current_cycle_used self) rd') as [l|] eqn:Hsim;
    [|discriminate].
  injection Hrun as _ <-.
  destruct (simulate_invariant budget_invariant budget_invariant_event
              budget_invariant_iteration _ _ _ _ _ _ Hsim)
    as (l' & [Hl1 Hl2] & ->).
  - split; [exact Hsheets0 | apply init_day_log_within_budget].
  - cbn [loc_log_sheets]. unfold _finalize_day.
    apply Forall_app. split; [exact Hl1|]. now constructor.
Qed.

(** C1 (amended).  In the log sheets that a fresh generator returns, every
    day log has a driving total between 0 and 11 hours and an on-duty
    total between 0 and the on-duty hours of the whole run: the 2 hours of
    loading and unloading and half an hour for each fuel stop.  The sum of
    the two totals of a day is therefore at most [13 + fuel_stops / 2]
    hours; it is at most 14 hours on every day of a run with at most two
    fuel stops, which every route under 3000 miles is
    ([fuel_stops_below]). *)
Theorem driving_total_within_budget
    (requests_get : string -> HttpResult (option GeocodeBody))
    (requests_post : Coords -> Coords -> HttpResult (option RouteBody))
    (fuel : nat) (now : datetime) (self : Generator) (rd : RouteDetails)
    (sheets : list DailyLog) :
  self_log_sheets self = [] ->
  generate_log_sheets requests_get requests_post fuel now self
  = Some (Return (rd, sheets)) ->
  Forall (fun d =>
            0 <= driving (totals d) <= 11
            /\ 0 <= on_duty (totals d)
               <= 2 + inject_Z (fuel_stops_of rd) * fuel_time
            /\ driving (totals d) + on_duty (totals d)
               <= 13 + inject_Z (fuel_stops_of rd) * fuel_time)
         sheets
  /\ ((fuel_stops_of rd <= 2)%Z ->
      Forall (fun d => driving (totals d) + on_duty (totals d) <= 14) sheets).
Proof.
  intros Hsheets0 Hrun.
  assert (Hdrv : Forall (fun d => 0 <= driving (totals d) <= 11) sheets).
  { apply (run_within_driving_budget requests_get requests_post fuel now
             self rd sheets); [|exact Hrun].
    rewrite Hsheets0. constructor. }
  pose proof (run_on_duty_nonneg _ _ _ _ _ _ _ Hsheets0 Hrun) as Hnn.
  pose proof (run_on_duty_hours _ _ _ _ _ _ _ Hsheets0 Hrun) as Hsum.
  assert (Hall : Forall (fun d =>
            0 <= driving (totals d) <= 11
            /\ 0 <= on_duty (totals d)
               <= 2 + inject_Z (fuel_stops_of rd) * fuel_time
            /\ driving (totals d) + on_duty (totals d)
               <= 13 + inject_Z (fuel_stops_of rd) * fuel_time) sheets).
  { apply Forall_forall. intros d Hin.
    pose proof (proj1 (Forall_forall _ _) Hdrv d Hin) as Hd.
    pose proof (proj1 (Forall_forall _ _) Hnn d Hin) as Ho.
    pose proof (total_over_bound on_duty sheets d Hnn Hin) as Hle.
    unfold on_duty_nonneg in Ho. rewrite Hsum in Hle.
    cbv beta in Hd. repeat split; lra. }
  split; [exact Hall|].
  intros Hfs. eapply Forall_impl; [|exact Hall]. cbv beta.
  intros d (_ & _ & H).
  assert (Hq : inject_Z (fuel_stops_of rd) <= 2).
  { change 2 with (inject_Z 2). now rewrite <- Zle_Qle. }
  unfold fuel_time in H. lra.
Qed.

Lemma driving_total_within_budget_witness :
  let rd :=
    mkRouteDetails (mkRouteLeg "A" "B" 500 9 "", mkRouteLeg "B" "C" 2000 30 "")
                   2500 39 in
  let self := mkGenerator "A" "B" "C" 0 (Some rd) [] in
  exists sheets,
    generate_log_sheets no_get no_post 20 (738000 * US_PER_DAY) self
    = Some (Return (rd, sheets))
    /\ List.length sheets = 7%nat
    /\ Forall (fun d => 0 <= driving (totals d) <= 11) sheets
    /\ Forall (fun d => driving (totals d) + on_duty (totals d) <= 14) sheets.
Proof.
  intros rd self. eexists. split; [vm_compute; reflexivity|].
  split; [reflexivity|].
  destruct (driving_total_within_budget no_get no_post 20
              (738000 * US_PER_DAY) self rd _ eq_refl
              ltac:(vm_compute; reflexivity)) as [Hall Hsum].
  split.
  - eapply Forall_impl; [|exact Hall]. now intros d (Hd & _).
  - apply Hsum. vm_compute. discriminate.
Defined.

(** A run of 3000 miles whose second leg takes 11 hours: the three
    fuelings, the loading and the unloading add 3.5 on-duty hours to the
    11 hours of driving of the single day. *)
Lemma on_duty_outside_driving_budget :
  let rd :=
    mkRouteDetails (mkRouteLeg "A" "B" 0 0 "", mkRouteLeg "B" "C" 3000 11 "")
                   3000 11 in
  exists log,
    generate_log_sheets no_get no_post 4 (738000 * US_PER_DAY)
                        (mkGenerator "A" "B" "C" 0 (Some rd) [])
    = Some (Return (rd, [log]))
    /\ driving (totals log) == 11
    /\ on_duty (totals log) == 7 # 2
    /\ ~ driving (totals log) + on_duty (totals log) <= 14.
Proof.
  intros rd. eexists. split; [vm_compute; reflexivity|].
  cbn [totals driving on_duty].
  split; [reflexivity|]. split; [reflexivity|].
  intros H. vm_compute in H. now apply H.
Qed.

(** ** C2: the driving loop terminates *)

(** The first iteration of the first leg, with [current_cycle_used] the
    float 69.99999999999999 (which is [70 - 2^-46]) and a leg of 130
    hours, after the Loading event: the remaining cycle is [2^-46] hours,
    so that many hours are available; the iteration records a Driving
    event of that duration, from 09:00 to 09:00, and finalizes no day,
    but the difference [130 - 2^-46] rounds back to 130: the drive time is
    not lowered. *)
Lemma drive_keeps_drive_time :
  let used := 70 - (1 # 70368744177664) in
  let t8 := (738000 * US_PER_DAY + 8 * US_PER_HOUR)%Z in
  let t9 := (738000 * US_PER_DAY + 9 * US_PER_HOUR)%Z in
  let day_log :=
    record64 (_init_day_log 738000) On_duty t8 t9 pickup_dropoff_time
             (Some "Loading"%string) in
  let s :=
    mkDrivingState [] day_log t9 130 (Binary64.sub max_cycle_hours used) in
  Binary64.representable used
  /\ 0 <= used <= 70
  /\ 0 < ds_drive_time s
  /\ 0 < available64 s
  /\ exists s',
       driving_iteration64 s = Returned s'
       /\ ds_log_sheets s' = []
       /\ events (ds_day_log s')
          = events day_log
            ++ [mkEvent Driving "09:00" "09:00" (available64 s) None]
       /\ ds_drive_time s' == ds_drive_time s
       /\ ~ ds_drive_time s' < ds_drive_time s.
Proof.
  intros used t8 t9 day_log s.
  split; [vm_compute; reflexivity|].
  split; [split; vm_compute; discriminate|].
  split; [reflexivity|].
  split; [vm_compute; reflexivity|].
  eexists. split; [vm_compute; reflexivity|].
  cbn [ds_log_sheets ds_day_log ds_drive_time events].
  split; [reflexivity|]. split; [vm_compute; reflexivity|].
  split; [vm_compute; reflexivity|].
  intros H. vm_compute in H. discriminate.
Qed.

(** C2 (amended).  In binary64 arithmetic, every iteration of the loop of
    [_add_driving] that returns either drives: [available] is positive, a
    Driving event of that many hours is recorded, and the drive time and
    the remaining cycle become the rounded differences; or rests: it
    leaves the drive time alone, finalizes the day and opens the next date
    with the 10-hour sleeper-berth event.  From every state whose clock is
    in the date range, whose driving total is a float and whose on-duty
    total is not within half an hour below 14, the loop comes to an end:
    some amount of fuel, and any larger one, makes [driving_loop64] and
    [_add_driving64] return, with no drive time left, or raise
    OverflowError at the end of the date range. *)
Theorem add_driving_terminates :
  (forall s s',
      driving_iteration64 s = Returned s' ->
      (0 < available64 s
       /\ ds_drive_time s'
          = Binary64.sub (ds_drive_time s) (available64 s)
       /\ ds_remaining_cycle s'
          = Binary64.sub (ds_remaining_cycle s) (available64 s)
       /\ exists ev,
            ev_status ev = Driving
            /\ ev_duration ev = available64 s
            /\ history (locals_of s') = history (locals_of s) ++ [ev])
      \/ (available64 s <= 0
          /\ ds_drive_time s' = ds_drive_time s
          /\ ds_log_sheets s' = ds_log_sheets s ++ [ds_day_log s]
          /\ date_of (ds_start_time s') = (date_of (ds_start_time s) + 1)%Z
          /\ log_date (ds_day_log s') = (date_of (ds_start_time s) + 1)%Z
          /\ events (ds_day_log s')
             = [mkEvent Sleeper_berth "08:00" "18:00" min_rest_hours None]))
  /\ (forall s,
         ready64 s ->
         exists fuel r,
           (forall extra, driving_loop64 (fuel + extra) s = Some r)
           /\ (r = OverflowError
               \/ exists s',
                    r = Returned s' /\ ds_drive_time s' <= 0))
  /\ (forall l drive_time,
         ready64 (driving_state_of l drive_time) ->
         exists fuel r,
           forall extra,
             _add_driving64 (fuel + extra) l drive_time = Some r).
Proof.
  split; [|split].
  - intros s s' Hstep.
    destruct (Qle_bool_cases (available64 s)) as [[Hav Hle] | [Hav Hgt]].
    + right. split; [exact Hle|].
      destruct (rest_iteration64 s Hav) as [H | [_ H]];
        rewrite H in Hstep; [discriminate|].
      injection Hstep as <-.
      cbn [ds_drive_time ds_log_sheets ds_start_time ds_day_log log_date
           record64 events _init_day_log app].
      rewrite strftime_rest_start, strftime_rest_end.
      repeat split. apply date_of_rest_end.
    + left. split; [exact Hgt|].
      destruct (drive_iteration64 s Hav) as [H | [(_ & _ & H) | (_ & _ & H)]];
        rewrite H in Hstep; try discriminate; injection Hstep as <-;
        cbn [ds_drive_time ds_remaining_cycle];
        (split; [reflexivity|]); (split; [reflexivity|]);
        eexists; (split; [|split]);
        try (unfold history;
             cbn [locals_of loc_log_sheets loc_day_log ds_log_sheets
                  ds_day_log record64 events _init_day_log];
             rewrite ?flat_map_app; cbn [flat_map app];
             rewrite ?app_nil_r, <- ?app_assoc; reflexivity);
        reflexivity.
  - intros s Hready. apply halts64_fuel. now apply ready64_halts.
  - intros l dt Hready.
    destruct (halts64_fuel _ (ready64_halts _ Hready))
      as (fuel & r & Hloop & _).
    exists fuel.
    exists (match r with
            | OverflowError => OverflowError
            | Returned s => Returned (locals_of s)
            end).
    intros extra. unfold _add_driving64.
    fold (driving_state_of l dt). rewrite Hloop. now destruct r.
Qed.

(** The loop from the state above: it returns after 28 days. *)
Lemma add_driving_terminates_witness :
  let used := 70 - (1 # 70368744177664) in
  let t8 := (738000 * US_PER_DAY + 8 * US_PER_HOUR)%Z in
  let t9 := (738000 * US_PER_DAY + 9 * US_PER_HOUR)%Z in
  let day_log :=
    record64 (_init_day_log 738000) On_duty t8 t9 pickup_dropoff_time
             (Some "Loading"%string) in
  let s :=
    mkDrivingState [] day_log t9 130 (Binary64.sub max_cycle_hours used) in
  ready64 s
  /\ (exists s',
         driving_loop64 60 s = Some (Returned s')
         /\ ds_drive_time s' == 0
         /\ List.length (ds_log_sheets s') = 28%nat)
  /\ exists fuel r,
       (forall extra, driving_loop64 (fuel + extra) s = Some r)
       /\ (r = OverflowError
           \/ exists s', r = Returned s' /\ ds_drive_time s' <= 0).
Proof.
  intros used t8 t9 day_log s.
  assert (Hready : ready64 s).
  { split; [reflexivity|]. split; [vm_compute; reflexivity|].
    left. vm_compute. discriminate. }
  split; [exact Hready|]. split.
  - eexists. split; [vm_compute; reflexivity|].
    split; [vm_compute; reflexivity | reflexivity].
  - exact (proj1 (proj2 add_driving_terminates) s Hready).
Defined.

(** On the last date of the range the loop raises: with no cycle hours
    left on 9999-12-31, the first iteration rests, and the date of the
    next day does not exist. *)
Lemma rest_at_date_end_raises :
  let t := (MAX_ORDINAL * US_PER_DAY + 9 * US_PER_HOUR)%Z in
  let s :=
    mkDrivingState [] (_init_day_log MAX_ORDINAL) t 5 0 in
  ready64 s
  /\ forall fuel,
       driving_loop64 (S fuel) s = Some OverflowError.
Proof.
  intros t s. split.
  - split; [reflexivity|]. split; [vm_compute; reflexivity|].
    left. vm_compute. discriminate.
  - intros fuel. reflexivity.
Qed.

(** ** C3: re-anchoring of an event that crosses the day boundary *)



(** The bound on the duration matters, though no call of the generator
    comes near it: an event of 20 hours that starts at 08:00 on day 1 ends
    at 04:00 on day 2; it is re-anchored to 08:00 on day 2 and then ends
    at 04:00 on day 3, outside the new day. *)
Lemma long_event_leaves_new_day :
  let t := (1 * US_PER_DAY + 8 * US_PER_HOUR)%Z in
  (date_of t < date_of (t + timedelta_hours 20))%Z
  /\ exists end_time dl' ls',
       _add_event [] (_init_day_log 1) On_duty t 20 None = (end_time, dl', ls')
       /\ log_date dl' = 2%Z
       /\ events dl' = [mkEvent On_duty "08:00" "04:00" 20 None]
       /\ date_of end_time = 3%Z
       /\ date_of end_time <> log_date dl'.
Proof.
  split; [reflexivity|].
  eexists _, _, _. split; [vm_compute; reflexivity|].
  cbn [log_date events]. repeat split. discriminate.
Qed.

(** ** C4 and C9: the remaining cycle hours *)

(** C4.  With [current_cycle_used] in [0, 70] the remaining cycle never
    exceeds 70 along a run, and no step raises it but a rest that lands on
    a Monday, which sets it to 70: it starts at [70 - current_cycle_used];
    an iteration of the driving loop keeps it at most 70 and either does
    not raise it or moves to the next date, a Monday, with the cycle at
    70; On-duty events leave it alone; so it is at most 70 whenever
    [_add_driving] returns and when the simulation, which does return,
    ends. *)
Theorem remaining_cycle_bounded (used : Q) :
  0 <= used <= 70 ->
  (forall now sheets0,
      loc_remaining_cycle (initial_locals now sheets0 used)
      <= max_cycle_hours)
  /\ (forall s,
         ds_remaining_cycle s <= max_cycle_hours ->
         ds_remaining_cycle (driving_iteration s) <= max_cycle_hours
         /\ (ds_remaining_cycle (driving_iteration s) <= ds_remaining_cycle s
             \/ (date_of (ds_start_time (driving_iteration s))
                 = (date_of (ds_start_time s) + 1)%Z
                 /\ weekday (ds_start_time (driving_iteration s)) = 0%Z
                 /\ ds_remaining_cycle (driving_iteration s)
                    = max_cycle_hours)))
  /\ (forall l h act,
         loc_remaining_cycle (on_duty_event l h act) = loc_remaining_cycle l)
  /\ (forall fuel l dt l',
         _add_driving fuel l dt = Some l' ->
         loc_remaining_cycle l <= max_cycle_hours ->
         loc_remaining_cycle l' <= max_cycle_hours)
  /\ (forall now sheets0 rd,
         (exists fuel l,
             forall extra,
               simulate (fuel + extra) now sheets0 used rd = Some l)
         /\ (forall fuel l,
                simulate fuel now sheets0 used rd = Some l ->
                loc_remaining_cycle l <= max_cycle_hours)).
Proof.
  intros [Hlo Hhi].
  assert (Hinit : max_cycle_hours - used <= max_cycle_hours)
    by (unfold max_cycle_hours; lra).
  assert (Hev : forall l h act,
             loc_remaining_cycle l <= max_cycle_hours ->
             loc_remaining_cycle (on_duty_event l h act) <= max_cycle_hours).
  { intros l h act H. now rewrite on_duty_event_cycle. }
  assert (Hit : forall s,
             loc_remaining_cycle (locals_of s) <= max_cycle_hours ->
             0 < ds_drive_time s ->
             loc_remaining_cycle (locals_of (driving_iteration s))
             <= max_cycle_hours).
  { intros s H _. now apply iteration_cycle_le_70. }
  split; [now intros now sheets0|].
  split.
  { intros s Hs. split; [now apply iteration_cycle_le_70|].
    destruct (iteration_cycle s)
      as [(_ & Hdate & [[Hw Hrc] | [_ Hrc]]) | [Hpos Hrc]].
    - right. auto.
    - left. rewrite Hrc. lra.
    - left. rewrite Hrc. lra. }
  split; [exact on_duty_event_cycle|].
  split.
  - intros fuel l dt l'.
    apply (add_driving_invariant
             (fun l => loc_remaining_cycle l <= max_cycle_hours) Hit).
  - intros now sheets0 rd. split; [apply simulate_returns|].
    intros fuel l Hrun.
    destruct (simulate_invariant
                (fun l => loc_remaining_cycle l <= max_cycle_hours)
                Hev Hit _ _ _ _ _ _ Hrun Hinit) as (l' & Hl' & ->).
    exact Hl'.
Qed.

(** A Thursday run with 65 cycle hours used: the 5 hours left are driven,
    the loop rests until Monday, and the cycle is back at 70 before the
    last 2 hours are driven. *)
Lemma remaining_cycle_bounded_witness :
  let rd :=
    mkRouteDetails (mkRouteLeg "A" "B" 220 4 "", mkRouteLeg "B" "C" 165 3 "")
                   385 7 in
  exists l,
    simulate 10 (738000 * US_PER_DAY) [] 65 rd = Some l
    /\ List.length (loc_log_sheets l) = 5%nat
    /\ loc_remaining_cycle l == 68
    /\ loc_remaining_cycle l <= max_cycle_hours.
Proof.
  intros rd. eexists. split; [vm_compute; reflexivity|].
  split; [reflexivity|]. split; [reflexivity|].
  destruct (remaining_cycle_bounded 65) as (_ & _ & _ & _ & H);
    [split; lra|].
  refine (proj2 (H (738000 * US_PER_DAY)%Z [] rd) 10%nat _ _).
  vm_compute. reflexivity.
Defined.

(** ** C5: fuel stops and segments *)

(** The events of a run that returns. *)
Lemma run_fuels_between_segments
    (requests_get : string -> HttpResult (option GeocodeBody))
    (requests_post : Coords -> Coords -> HttpResult (option RouteBody))
    (fuel : nat) (now : datetime) (self : Generator)
    (rd : RouteDetails) (sheets : list DailyLog) :
  resolved_route requests_get requests_post self = Return rd ->
  self_log_sheets self = [] ->
  0 <= total_distance rd ->
  0 <= duration (fst (legs rd)) ->
  0 <= duration (snd (legs rd)) ->
  generate_log_sheets requests_get requests_post fuel now self
  = Some (Return (rd, sheets)) ->
  let fuel_stops := fuel_stops_of rd in
  let seg := time_per_segment_of (duration (snd (legs rd))) fuel_stops in
  fuel_stops = Qfloor (total_distance rd / 1000)
  /\ seg * inject_Z (fuel_stops + 1) == duration (snd (legs rd))
  /\ exists loading leg1_events segs body unloading,
       flat_map events sheets
       = loading :: leg1_events ++ body ++ [unloading]
       /\ ev_activity loading = Some "Loading"%string
       /\ ev_activity unloading = Some "Unloading"%string
       /\ drive_events (duration (fst (legs rd))) leg1_events
       /\ interleaved segs body
       /\ Z.of_nat (List.length segs) = (fuel_stops + 1)%Z
       /\ Forall (drive_events seg) segs
       /\ Z.of_nat (List.length (filter fuelingb (flat_map events sheets)))
          = fuel_stops.
Proof.
  intros Hroute Hsheets0 Hdist Hleg1 Hleg2 Hrun fuel_stops seg.
  destruct (fuel_stops_floor rd Hdist) as [Hfloor Hfs].
  fold fuel_stops in Hfloor, Hfs.
  split; [exact Hfloor|].
  split; [now apply time_per_segment_equal|].
  assert (Hseg : 0 <= seg) by now apply time_per_segment_nonneg.
  unfold generate_log_sheets in Hrun. rewrite Hroute, Hsheets0 in Hrun.
  destruct (simulate fuel now [] (current_cycle_used self) rd) as [l|] eqn:Hsim;
    [|discriminate].
  injection Hrun as <-.
  unfold simulate in Hsim.
  fold (initial_locals now [] (current_cycle_used self)) in Hsim.
  fold fuel_stops in Hsim. fold seg in Hsim.
  set (l0 := on_duty_event _ pickup_dropoff_time "Loading") in Hsim.
  destruct (_add_driving fuel l0 (duration (fst (legs rd)))) as [l1|] eqn:H1;
    [|discriminate].
  destruct (segment_loop fuel fuel_stops seg _ l1) as [l2|] eqn:H2;
    [|discriminate].
  injection Hsim as <-.
  destruct (on_duty_event_history
              (initial_locals now [] (current_cycle_used self))
              pickup_dropoff_time "Loading")
    as (loading & _ & _ & Hload & _ & Hh0).
  fold l0 in Hh0.
  change (history (initial_locals _ _ _)) with (@nil Event) in Hh0.
  destruct (add_driving_events fuel l0 _ l1 H1 Hleg1) as (evs1 & Hh1 & Hd1).
  unfold range in H2.
  replace (Z.to_nat (fuel_stops + 1)) with (S (Z.to_nat fuel_stops)) in H2
    by lia.
  destruct (segment_loop_shape fuel fuel_stops seg Hseg (Z.to_nat fuel_stops)
              0 l1 l2 ltac:(lia) H2)
    as (segs & body & Hh2 & Hinter & Hcount & Hall).
  destruct (on_duty_event_history l2 pickup_dropoff_time "Unloading")
    as (unloading & _ & _ & Hunload & _ & Hh3).
  assert (Hflat : flat_map events
                    (_finalize_day
                       (loc_log_sheets
                          (on_duty_event l2 pickup_dropoff_time "Unloading"))
                       (loc_day_log
                          (on_duty_event l2 pickup_dropoff_time "Unloading")))
                  = loading :: evs1 ++ body ++ [unloading]).
  { rewrite history_finalize.
    fold (history (on_duty_event l2 pickup_dropoff_time "Unloading")).
    rewrite Hh3, Hh2, Hh1, Hh0. cbn [app]. now rewrite <- !app_assoc. }
  exists loading, evs1, segs, body, unloading.
  cbn [loc_log_sheets]. rewrite Hflat.
  split; [reflexivity|]. split; [exact Hload|]. split; [exact Hunload|].
  split; [exact Hd1|]. split; [exact Hinter|].
  split; [rewrite Hcount; lia|]. split; [exact Hall|].
  assert (Hsegs : Forall (fun s => Forall drive_event s) segs).
  { eapply Forall_impl; [|exact Hall]. now intros s [Hs _]. }
  pose proof (interleaved_fuelings segs body Hinter Hsegs) as Hn.
  cbn [filter]. unfold fuelingb at 1. rewrite Hload.
  cbn [event_activity String.eqb Ascii.eqb Bool.eqb].
  rewrite !filter_app, (filter_drive_events evs1 (proj1 Hd1)).
  cbn [app filter]. unfold fuelingb at 2. rewrite Hunload.
  cbn [event_activity String.eqb Ascii.eqb Bool.eqb].
  rewrite app_nil_r. lia.
Qed.

(** C5.  For a route with non-negative total distance and leg durations,
    [generate_log_sheets] takes [fuel_stops = floor (total_distance / 1000)],
    drives the second leg in [fuel_stops + 1] segments of equal time
    [leg2 / (fuel_stops + 1)], and records a 0.5-hour On-duty "Fueling"
    event between consecutive segments and none after the last one: the
    run returns, and its events are Loading, the events of driving the
    first leg, the segments interleaved with Fueling events, and
    Unloading; exactly [fuel_stops] events are labelled "Fueling". *)
Theorem fueling_between_segments
    (requests_get : string -> HttpResult (option GeocodeBody))
    (requests_post : Coords -> Coords -> HttpResult (option RouteBody))
    (now : datetime) (self : Generator) (rd : RouteDetails) :
  resolved_route requests_get requests_post self = Return rd ->
  self_log_sheets self = [] ->
  0 <= total_distance rd ->
  0 <= duration (fst (legs rd)) ->
  0 <= duration (snd (legs rd)) ->
  let fuel_stops := fuel_stops_of rd in
  let seg := time_per_segment_of (duration (snd (legs rd))) fuel_stops in
  fuel_stops = Qfloor (total_distance rd / 1000)
  /\ seg * inject_Z (fuel_stops + 1) == duration (snd (legs rd))
  /\ (exists fuel sheets,
         forall extra,
           generate_log_sheets requests_get requests_post (fuel + extra) now
                               self
           = Some (Return (rd, sheets)))
  /\ (forall fuel sheets,
         generate_log_sheets requests_get requests_post fuel now self
         = Some (Return (rd, sheets)) ->
         exists loading leg1_events segs body unloading,
           flat_map events sheets
           = loading :: leg1_events ++ body ++ [unloading]
           /\ ev_activity loading = Some "Loading"%string
           /\ ev_activity unloading = Some "Unloading"%string
           /\ drive_events (duration (fst (legs rd))) leg1_events
           /\ interleaved segs body
           /\ Z.of_nat (List.length segs) = (fuel_stops + 1)%Z
           /\ Forall (drive_events seg) segs
           /\ Z.of_nat
                (List.length (filter fuelingb (flat_map events sheets)))
              = fuel_stops).
Proof.
  intros Hroute Hsheets0 Hdist Hleg1 Hleg2 fuel_stops seg.
  destruct (fuel_stops_floor rd Hdist) as [Hfloor Hfs].
  split; [exact Hfloor|].
  split; [now apply time_per_segment_equal|].
  split; [now apply generate_log_sheets_returns|].
  intros fuel sheets Hrun.
  now apply (run_fuels_between_segments requests_get requests_post fuel now
               self rd sheets).
Qed.

(** 2500 miles, the second leg of 6 hours: two fuel stops between three
    segments of 2 hours. *)
Lemma fueling_between_segments_witness :
  let rd :=
    mkRouteDetails (mkRouteLeg "A" "B" 500 1 "", mkRouteLeg "B" "C" 2000 6 "")
                   2500 7 in
  let self := mkGenerator "A" "B" "C" 0 (Some rd) [] in
  exists sheets,
    generate_log_sheets no_get no_post 10 (738000 * US_PER_DAY) self
    = Some (Return (rd, sheets))
    /\ map ev_activity (flat_map events sheets)
       = [Some "Loading"%string; None; None; Some "Fueling"%string; None;
          Some "Fueling"%string; None; Some "Unloading"%string]
    /\ Z.of_nat (List.length (filter fuelingb (flat_map events sheets)))
       = 2%Z.
Proof.
  intros rd self. eexists. split; [vm_compute; reflexivity|].
  split; [reflexivity|].
  destruct (fueling_between_segments no_get no_post (738000 * US_PER_DAY)
              self rd eq_refl eq_refl)
    as (_ & _ & _ & H); try (vm_compute; discriminate).
  destruct (H 10%nat _ ltac:(vm_compute; reflexivity))
    as (loading & leg1_events & segs & body & unloading & Hcount).
  apply Hcount.
Defined.

(** ** C6: the single-day scenario *)

(** C6.  With a total distance of 500 miles, a first leg of 2 hours, a
    second leg of 3 hours and no cycle hours used, the run produces exactly
    one log sheet, for the current date, whose events are On duty/Loading
    1h, Driving 2h, Driving 3h, On duty/Unloading 1h and whose totals are
    driving 5, on_duty 2, off_duty 0, sleeper 0. *)
Theorem scenario_single_day
    (requests_get : string -> HttpResult (option GeocodeBody))
    (requests_post : Coords -> Coords -> HttpResult (option RouteBody))
    (fuel : nat) (now : datetime) (self : Generator)
    (from1 to1 geometry1 from2 to2 geometry2 : string)
    (distance1 distance2 total : Q) :
  let rd :=
    mkRouteDetails (mkRouteLeg from1 to1 distance1 2 geometry1,
                    mkRouteLeg from2 to2 distance2 3 geometry2) 500 total in
  resolved_route requests_get requests_post self = Return rd ->
  current_cycle_used self = 0 ->
  self_log_sheets self = [] ->
  exists g,
    generate_log_sheets requests_get requests_post (S fuel) now self
    = Some (Return
        (rd,
         [mkDailyLog (date_of now) g
            [mkEvent On_duty "08:00" "09:00" 1 (Some "Loading"%string);
             mkEvent Driving "09:00" "11:00" 2 None;
             mkEvent Driving "11:00" "14:00" 3 None;
             mkEvent On_duty "14:00" "15:00" 1 (Some "Unloading"%string)]
            (mkTotals 5 2 0 0)])).
Proof.
  intros rd Hroute Hused Hsheets.
  destruct (simulate_single_day fuel now from1 to1 geometry1 from2 to2
              geometry2 distance1 distance2 total) as (l & g & Hsim & Hl).
  exists g. unfold generate_log_sheets.
  rewrite Hroute, Hused, Hsheets. subst rd. rewrite Hsim.
  now rewrite Hl.
Qed.

Lemma scenario_single_day_witness :
  let rd :=
    mkRouteDetails (mkRouteLeg "A" "B" 200 2 "", mkRouteLeg "B" "C" 300 3 "")
                   500 5 in
  exists g,
    generate_log_sheets no_get no_post 1 (738000 * US_PER_DAY)
                        (mkGenerator "A" "B" "C" 0 (Some rd) [])
    = Some (Return
        (rd,
         [mkDailyLog 738000 g
            [mkEvent On_duty "08:00" "09:00" 1 (Some "Loading"%string);
             mkEvent Driving "09:00" "11:00" 2 None;
             mkEvent Driving "11:00" "14:00" 3 None;
             mkEvent On_duty "14:00" "15:00" 1 (Some "Unloading"%string)]
            (mkTotals 5 2 0 0)])).
Proof.
  intros rd.
  exact (@scenario_single_day no_get no_post 0 (738000 * US_PER_DAY)
           (mkGenerator "A" "B" "C" 0 (Some rd) [])
           "A" "B" "" "B" "C" "" 200 300 5
           eq_refl eq_refl eq_refl).
Defined.

(** ** C7: an exhausted cycle rests before it drives *)

(** The first iteration, and the sheets of a run that returns. *)
Lemma exhausted_cycle_first_iteration
    (requests_get : string -> HttpResult (option GeocodeBody))
    (requests_post : Coords -> Coords -> HttpResult (option RouteBody))
    (fuel : nat) (now : datetime) (self : Generator)
    (rd : RouteDetails) (sheets : list DailyLog) :
  resolved_route requests_get requests_post self = Return rd ->
  self_log_sheets self = [] ->
  current_cycle_used self == 70 ->
  0 < duration (fst (legs rd)) ->
  let l0 := on_duty_event (initial_locals now [] (current_cycle_used self))
                          pickup_dropoff_time "Loading" in
  let s0 := driving_state_of l0 (duration (fst (legs rd))) in
  let loading := mkEvent On_duty "08:00" "09:00" 1 (Some "Loading"%string) in
  let rest := mkEvent Sleeper_berth "08:00" "18:00" 10 None in
  let day1 := mkDailyLog (date_of now) (paint (repeat OFF 96) 32 36 ON)
                         [loading] (mkTotals 0 (0 + 1) 0 0) in
  loc_remaining_cycle l0 == 0
  /\ loc_log_sheets l0 = [] /\ loc_day_log l0 = day1
  /\ available s0 <= 0
  /\ ds_log_sheets (driving_iteration s0) = [day1]
  /\ log_date (ds_day_log (driving_iteration s0)) = (date_of now + 1)%Z
  /\ events (ds_day_log (driving_iteration s0)) = [rest]
  /\ ds_drive_time (driving_iteration s0) = duration (fst (legs rd))
  /\ (generate_log_sheets requests_get requests_post fuel now self
      = Some (Return (rd, sheets)) ->
      exists days evs,
        sheets = day1 :: days
        /\ flat_map events sheets = loading :: rest :: evs).
Proof.
  intros Hroute Hsheets0 Hused Hleg l0 s0 loading rest day1.
  assert (Hl0 : l0 = mkLocals [] day1
                       (date_of now * US_PER_DAY + 9 * US_PER_HOUR)
                       (max_cycle_hours - current_cycle_used self))
    by apply loading_event.
  assert (Hs0 : s0 = mkDrivingState [] day1
                       (date_of now * US_PER_DAY + 9 * US_PER_HOUR)
                       (duration (fst (legs rd)))
                       (max_cycle_hours - current_cycle_used self))
    by (unfold s0; now rewrite Hl0).
  assert (Hrc : max_cycle_hours - current_cycle_used self == 0)
    by (unfold max_cycle_hours; lra).
  assert (Hav : available s0 <= 0).
  { pose proof (available_bounds s0) as (_ & _ & Hle & _).
    rewrite Hs0 in Hle at 2. cbn [ds_remaining_cycle] in Hle. lra. }
  assert (Hiter : driving_iteration s0
                  = mkDrivingState
                      [day1]
                      (record_event (_init_day_log (date_of now + 1))
                         Sleeper_berth
                         (rest_start (ds_start_time s0))
                         (rest_start (ds_start_time s0) + 10 * US_PER_HOUR)
                         min_rest_hours None)
                      (rest_start (ds_start_time s0) + 10 * US_PER_HOUR)
                      (duration (fst (legs rd)))
                      (if (weekday (rest_start (ds_start_time s0)
                                    + 10 * US_PER_HOUR) =? 0)%Z
                       then max_cycle_hours
                       else max_cycle_hours - current_cycle_used self)).
  { rewrite (rest_iteration s0) by now apply Qle_bool_iff.
    rewrite Hs0. cbn [ds_log_sheets ds_day_log ds_start_time ds_drive_time
                      ds_remaining_cycle app].
    rewrite date_of_day_plus by (vm_compute; split; congruence).
    reflexivity. }
  split; [rewrite Hl0; exact Hrc|].
  split; [now rewrite Hl0|]. split; [now rewrite Hl0|].
  split; [exact Hav|].
  rewrite Hiter. cbn [ds_log_sheets ds_day_log ds_drive_time].
  split; [reflexivity|]. split; [reflexivity|].
  split.
  { cbn [record_event events _init_day_log app]. unfold event_of.
    now rewrite strftime_rest_start, strftime_rest_end. }
  split; [reflexivity|].
  intros Hrun. unfold generate_log_sheets in Hrun.
  rewrite Hroute, Hsheets0 in Hrun.
  destruct (simulate fuel now [] (current_cycle_used self) rd) as [l|] eqn:Hsim;
    [|discriminate].
  injection Hrun as <-.
  unfold simulate in Hsim.
  fold (initial_locals now [] (current_cycle_used self)) in Hsim.
  fold l0 in Hsim.
  destruct (_add_driving fuel l0 (duration (fst (legs rd)))) as [l1|] eqn:H1;
    [|discriminate].
  destruct (segment_loop fuel _ _ _ l1) as [l2|] eqn:H2; [|discriminate].
  injection Hsim as <-.
  set (L1 := locals_of (driving_iteration s0)).
  assert (Hext1 : extends L1 l1).
  { rewrite add_driving_unfold in H1. fold s0 in H1.
    destruct (driving_loop fuel s0) as [s'|] eqn:Hloop; [|discriminate].
    injection H1 as <-.
    assert (Hdt : Qle_bool (ds_drive_time s0) 0 = false).
    { apply Qle_bool_false. now rewrite Hs0. }
    destruct fuel as [|fuel']; cbn [driving_loop] in Hloop;
      rewrite Hdt in Hloop; [discriminate|].
    apply (driving_loop_invariant (extends L1) (extends_iteration L1)
             fuel' _ _ Hloop).
    apply extends_refl. }
  assert (Hext3 : extends L1 (on_duty_event l2 pickup_dropoff_time
                                            "Unloading")).
  { apply extends_event.
    apply (segment_loop_invariant (extends L1) (extends_event L1)
             (extends_iteration L1) _ _ _ _ _ _ H2 Hext1). }
  destruct Hext3 as [[days Hdays] [evs Hevs]].
  cbn [loc_log_sheets]. rewrite history_finalize.
  fold (history (on_duty_event l2 pickup_dropoff_time "Unloading")).
  rewrite Hevs, Hdays.
  unfold L1, history. rewrite Hiter.
  cbn [locals_of loc_log_sheets loc_day_log ds_log_sheets ds_day_log
       record_event events _init_day_log app flat_map day1].
  unfold event_of. rewrite strftime_rest_start, strftime_rest_end.
  exists (days ++ [loc_day_log (on_duty_event l2 pickup_dropoff_time
                                              "Unloading")]), evs.
  split; reflexivity.
Qed.

(** C7.  When [current_cycle_used] is 70 and the first leg takes a
    positive time, the remaining cycle starts at 0, [available] is not
    positive at the first iteration of the driving loop, and that
    iteration drives nothing: it finalizes day 1, which holds the Loading
    event alone, and opens the next day with a 10-hour sleeper-berth
    event.  The run returns; in the returned log sheets day 1 is the first
    one, unchanged, and the rest is the second event of the run. *)
Theorem exhausted_cycle_rests_first
    (requests_get : string -> HttpResult (option GeocodeBody))
    (requests_post : Coords -> Coords -> HttpResult (option RouteBody))
    (now : datetime) (self : Generator) (rd : RouteDetails) :
  resolved_route requests_get requests_post self = Return rd ->
  self_log_sheets self = [] ->
  current_cycle_used self == 70 ->
  0 < duration (fst (legs rd)) ->
  let l0 := on_duty_event (initial_locals now [] (current_cycle_used self))
                          pickup_dropoff_time "Loading" in
  let s0 := driving_state_of l0 (duration (fst (legs rd))) in
  let loading := mkEvent On_duty "08:00" "09:00" 1 (Some "Loading"%string) in
  let rest := mkEvent Sleeper_berth "08:00" "18:00" 10 None in
  let day1 := mkDailyLog (date_of now) (paint (repeat OFF 96) 32 36 ON)
                         [loading] (mkTotals 0 (0 + 1) 0 0) in
  loc_remaining_cycle l0 == 0
  /\ loc_log_sheets l0 = [] /\ loc_day_log l0 = day1
  /\ available s0 <= 0
  /\ ds_log_sheets (driving_iteration s0) = [day1]
  /\ log_date (ds_day_log (driving_iteration s0)) = (date_of now + 1)%Z
  /\ events (ds_day_log (driving_iteration s0)) = [rest]
  /\ ds_drive_time (driving_iteration s0) = duration (fst (legs rd))
  /\ (exists fuel sheets,
         forall extra,
           generate_log_sheets requests_get requests_post (fuel + extra) now
                               self
           = Some (Return (rd, sheets)))
  /\ (forall fuel sheets,
         generate_log_sheets requests_get requests_post fuel now self
         = Some (Return (rd, sheets)) ->
         exists days evs,
           sheets = day1 :: days
           /\ flat_map events sheets = loading :: rest :: evs).
Proof.
  intros Hroute Hsheets0 Hused Hleg l0 s0 loading rest day1.
  destruct (exhausted_cycle_first_iteration requests_get requests_post O now
              self rd [] Hroute Hsheets0 Hused Hleg)
    as (H1 & H2 & H3 & H4 & H5 & H6 & H7 & H8 & _).
  repeat (split; [assumption|]).
  split; [now apply generate_log_sheets_returns|].
  intros fuel sheets.
  apply (exhausted_cycle_first_iteration requests_get requests_post fuel now
           self rd sheets Hroute Hsheets0 Hused Hleg).
Qed.

(** A Thursday run with the cycle exhausted: four days of rest, then the
    drive on Monday. *)
Lemma exhausted_cycle_rests_first_witness :
  let rd :=
    mkRouteDetails (mkRouteLeg "A" "B" 110 2 "", mkRouteLeg "B" "C" 165 3 "")
                   275 5 in
  let self := mkGenerator "A" "B" "C" 70 (Some rd) [] in
  exists sheets days evs,
    generate_log_sheets no_get no_post 10 (738000 * US_PER_DAY) self
    = Some (Return (rd, sheets))
    /\ List.length sheets = 6%nat
    /\ sheets
       = mkDailyLog 738000 (paint (repeat OFF 96) 32 36 ON)
           [mkEvent On_duty "08:00" "09:00" 1 (Some "Loading"%string)]
           (mkTotals 0 (0 + 1) 0 0) :: days
    /\ flat_map events sheets
       = mkEvent On_duty "08:00" "09:00" 1 (Some "Loading"%string)
         :: mkEvent Sleeper_berth "08:00" "18:00" 10 None :: evs.
Proof.
  intros rd self.
  destruct (exhausted_cycle_rests_first no_get no_post (738000 * US_PER_DAY)
              self rd eq_refl eq_refl)
    as (_ & _ & _ & _ & _ & _ & _ & _ & _ & H);
    try reflexivity.
  eexists. 
  assert (Hrun : generate_log_sheets no_get no_post 10 (738000 * US_PER_DAY)
                   self = Some (Return (rd, _)))
    by (vm_compute; reflexivity).
  destruct (H 10%nat _ Hrun) as (days & evs & Hdays & Hevs).
  exists days, evs. split; [exact Hrun|].
  split; [reflexivity|]. split; [exact Hdays | exact Hevs].
Defined.

(** ** C8: provider failures stop the request before the simulation *)

(** C8.  If a geocoding call or a route-leg computation fails,
    [calculate_route] raises one descriptive error, [generate_log_sheets]
    raises it whatever the fuel (zero included: the simulation is not
    entered), and [post] answers 400 with that one message, without log
    sheets, leaving the trip and log-sheet tables as they were. *)
Theorem provider_failure_aborts
    (requests_get : string -> HttpResult (option GeocodeBody))
    (requests_post : Coords -> Coords -> HttpResult (option RouteBody))
    (RequestData : Type)
    (TripInputSerializer : RequestData -> list string + TripData)
    (fuel : nat) (now : datetime) (db : Database)
    (request_data : RequestData) (trip : TripData) :
  TripInputSerializer request_data = inr trip ->
  geocode_failed requests_get trip
  \/ route_leg_failed requests_get requests_post trip ->
  exists message,
    (message = "Failed to geocode one or more locations"%string
     \/ message = "Failed to calculate route"%string)
    /\ calculate_route requests_get requests_post (__init__ trip)
       = Raise message
    /\ generate_log_sheets requests_get requests_post fuel now
                           (__init__ trip) = Some (Raise message)
    /\ generate_log_sheets requests_get requests_post 0 now
                           (__init__ trip) = Some (Raise message)
    /\ post requests_get requests_post RequestData TripInputSerializer fuel
            now db request_data
       = Some (mkResponse (Error_message message) HTTP_400_BAD_REQUEST, db).
Proof.
  intros Hvalid Hfail.
  assert (Hraise : exists message,
             (message = "Failed to geocode one or more locations"%string
              \/ message = "Failed to calculate route"%string)
             /\ calculate_route requests_get requests_post (__init__ trip)
                = Raise message).
  { destruct (calculate_route_failure requests_get requests_post trip Hfail)
      as [H | H];
      eexists; (split; [|exact H]); auto. }
  destruct Hraise as (message & Hmsg & Hcalc).
  assert (Hgen : forall n,
             generate_log_sheets requests_get requests_post n now
                                 (__init__ trip) = Some (Raise message)).
  { intros n. unfold generate_log_sheets, resolved_route.
    cbn [__init__ route_details]. now rewrite Hcalc. }
  exists message. repeat split; auto.
  unfold post. now rewrite Hvalid, Hgen.
Qed.

(** A provider that is down, and a serializer that accepts a request
    which already is the validated data. *)
Lemma provider_failure_aborts_witness :
  let trip := mkTripData "A" "B" "C" 10 in
  let db := mkDatabase [mkTrip 1 trip] [] in
  exists message,
    post no_get no_post TripData (fun r : TripData => inr r) 5 0%Z db trip
    = Some (mkResponse (Error_message message) HTTP_400_BAD_REQUEST, db).
Proof.
  intros trip db.
  destruct (@provider_failure_aborts no_get no_post TripData
              (fun r : TripData => inr r) 5 0%Z db trip trip eq_refl)
    as (message & _ & _ & _ & _ & Hpost).
  - left. left. reflexivity.
  - exists message. exact Hpost.
Defined.

(** ** C9: the remaining cycle is never negative *)

(** C9.  With [current_cycle_used] in [0, 70] the remaining cycle is
    non-negative all along a run: it starts at [70 - current_cycle_used],
    which is non-negative; every iteration of the driving loop keeps it
    non-negative, a drive taking off [available] hours, which are at most
    the remaining cycle; On-duty events leave it alone; hence it is
    non-negative whenever [_add_driving] returns and when the simulation,
    which does return, ends. *)
Theorem remaining_cycle_nonneg (used : Q) :
  0 <= used <= 70 ->
  (forall now sheets0,
      loc_remaining_cycle (initial_locals now sheets0 used)
      = max_cycle_hours - used
      /\ 0 <= max_cycle_hours - used)
  /\ (forall s, available s <= ds_remaining_cycle s)
  /\ (forall s, 0 <= ds_remaining_cycle s ->
                0 <= ds_remaining_cycle (driving_iteration s))
  /\ (forall l h act,
         loc_remaining_cycle (on_duty_event l h act) = loc_remaining_cycle l)
  /\ (forall fuel l dt l',
         _add_driving fuel l dt = Some l' ->
         0 <= loc_remaining_cycle l -> 0 <= loc_remaining_cycle l')
  /\ (forall now sheets0 rd,
         (exists fuel l,
             forall extra,
               simulate (fuel + extra) now sheets0 used rd = Some l)
         /\ (forall fuel l,
                simulate fuel now sheets0 used rd = Some l ->
                0 <= loc_remaining_cycle l)).
Proof.
  intros [Hlo Hhi].
  assert (Hinit : 0 <= max_cycle_hours - used)
    by (unfold max_cycle_hours; lra).
  assert (Hev : forall l h act,
             0 <= loc_remaining_cycle l ->
             0 <= loc_remaining_cycle (on_duty_event l h act)).
  { intros l h act H. now rewrite on_duty_event_cycle. }
  assert (Hit : forall s,
             0 <= loc_remaining_cycle (locals_of s) -> 0 < ds_drive_time s ->
             0 <= loc_remaining_cycle (locals_of (driving_iteration s))).
  { intros s H _. now apply iteration_cycle_nonneg. }
  split; [now intros now sheets0|].
  split; [intros s; apply (available_bounds s)|].
  split; [exact iteration_cycle_nonneg|].
  split; [exact on_duty_event_cycle|].
  split.
  - intros fuel l dt l'.
    apply (add_driving_invariant (fun l => 0 <= loc_remaining_cycle l) Hit).
  - intros now sheets0 rd. split; [apply simulate_returns|].
    intros fuel l Hrun.
    destruct (simulate_invariant (fun l => 0 <= loc_remaining_cycle l)
                Hev Hit _ _ _ _ _ _ Hrun Hinit) as (l' & Hl' & ->).
    exact Hl'.
Qed.

(** 66 cycle hours used and 4 hours to drive: the cycle ends at 0. *)
Lemma remaining_cycle_nonneg_witness :
  let rd :=
    mkRouteDetails (mkRouteLeg "A" "B" 110 2 "", mkRouteLeg "B" "C" 110 2 "")
                   220 4 in
  exists l,
    simulate 10 (738000 * US_PER_DAY) [] 66 rd = Some l
    /\ loc_remaining_cycle l == 0
    /\ 0 <= loc_remaining_cycle l.
Proof.
  intros rd. eexists. split; [vm_compute; reflexivity|].
  split; [reflexivity|].
  destruct (remaining_cycle_nonneg 66) as (_ & _ & _ & _ & _ & H);
    [split; lra|].
  refine (proj2 (H (738000 * US_PER_DAY)%Z [] rd) 10%nat _ _).
  vm_compute. reflexivity.
Defined.

(** ** C10: the finalized day is untouched by a crossing event *)

(** C10.  When [_add_event] crosses the day boundary, the day log that was
    current is appended to the sheets exactly as it was passed in, and the
    event is recorded in the newly begun day only: that day holds the one
    event record, its totals are the event's duration under the event's
    status and zero elsewhere, and its grid is the all-OFF grid painted
    from the anchor's slot. *)
Theorem add_event_crossing_frame ls dl st t h act :
  (date_of t < date_of (t + timedelta_hours h))%Z ->
  let anchor := replace_hour_minute (t + timedelta_hours h) 8 0 in
  exists t' dl',
    _add_event ls dl st t h act = (t', dl', ls ++ [dl])
    /\ log_date dl' = date_of (t + timedelta_hours h)
    /\ events dl' = [event_of st anchor t' h act]
    /\ get_total (totals dl') st == h
    /\ (forall s, s <> st -> get_total (totals dl') s = 0)
    /\ grid dl' = paint (repeat OFF 96) (slot_index anchor)
                        (Z.min (slot_index t') 96) (status_code st).
Proof.
  intros Hcross anchor.
  eexists _, _. split.
  { rewrite (add_event_next_day ls dl st t h act (crossing_gtb _ _ Hcross)).
    reflexivity. }
  cbn [log_date events totals grid record_event _init_day_log app].
  repeat split.
  - destruct st; cbn; lra.
  - intros s Hs. destruct st, s; cbn; congruence.
Qed.

Lemma add_event_crossing_frame_witness :
  exists t' dl',
    _add_event [_init_day_log 0] (_init_day_log 1) On_duty
               (1 * US_PER_DAY + 23 * US_PER_HOUR + 30 * US_PER_MINUTE)
               1 (Some "Unloading"%string)
    = (t', dl', [_init_day_log 0; _init_day_log 1])
    /\ log_date dl' = 2%Z
    /\ get_total (totals dl') On_duty == 1
    /\ get_total (totals dl') Driving = 0.
Proof.
  destruct (@add_event_crossing_frame [_init_day_log 0] (_init_day_log 1)
              On_duty (1 * US_PER_DAY + 23 * US_PER_HOUR + 30 * US_PER_MINUTE)
              1 (Some "Unloading"%string))
    as (t' & dl' & Hcall & Hdate & _ & Hself & Hother & _).
  - reflexivity.
  - exists t', dl'. split; [exact Hcall|]. split; [exact Hdate|].
    split; [exact Hself|]. apply Hother. discriminate.
Defined.

(** * Further properties *)

(** ** The grid *)

Lemma set_slot_length g : forall i c, List.length (set_slot g i c) = List.length g.
Proof.
  induction g as [|x g IH]; intros [|i] c; cbn; auto.
Qed.

Lemma paint_length g a b c : List.length (paint g a b c) = List.length g.
Proof.
  unfold paint. generalize (seq (Z.to_nat a) (Z.to_nat (b - a))) as idx.
  intros idx. revert g.
  induction idx as [|i idx IH]; intros g; cbn [fold_left]; [reflexivity|].
  now rewrite IH, set_slot_length.
Qed.

Lemma set_slot_nth g : forall i j c,
  (j < List.length g)%nat ->
  nth j (set_slot g i c) OFF = if Nat.eqb j i then c else nth j g OFF.
Proof.
  induction g as [|x g IH]; intros i j c Hj; cbn in Hj; [lia|].
  destruct i as [|i], j as [|j]; cbn [set_slot nth Nat.eqb]; try reflexivity.
  apply IH. lia.
Qed.

Lemma paint_seq_nth idx : forall g j c,
  (j < List.length g)%nat ->
  nth j (fold_left (fun g' i => set_slot g' i c) idx g) OFF
  = if existsb (Nat.eqb j) idx then c else nth j g OFF.
Proof.
  induction idx as [|i idx IH]; intros g j c Hj; cbn [fold_left existsb];
    [reflexivity|].
  rewrite IH by now rewrite set_slot_length.
  rewrite set_slot_nth by assumption.
  destruct (existsb (Nat.eqb j) idx), (Nat.eqb j i); reflexivity.
Qed.

(** The slots from [start_idx] up to [stop] get the code; the others keep
    theirs. *)
Lemma paint_nth g start_idx stop c j :
  (0 <= start_idx)%Z -> (j < List.length g)%nat ->
  nth j (paint g start_idx stop c) OFF
  = if ((start_idx <=? Z.of_nat j) && (Z.of_nat j <? stop))%Z%bool
    then c else nth j g OFF.
Proof.
  intros Ha Hj. unfold paint. rewrite paint_seq_nth by assumption.
  match goal with
  | |- (if ?b1 then _ else _) = (if ?b2 then _ else _) =>
      assert (Hb : b1 = b2); [|now rewrite Hb]
  end.
  apply eq_true_iff_eq. rewrite existsb_exists, andb_true_iff.
  rewrite Z.leb_le, Z.ltb_lt. split.
  - intros (i & Hin & Heq). apply Nat.eqb_eq in Heq. subst i.
    apply in_seq in Hin. lia.
  - intros [H1 H2]. exists j. split; [|apply Nat.eqb_refl].
    apply in_seq. lia.
Qed.

Lemma slot_index_bounds t : (0 <= slot_index t <= 95)%Z.
Proof.
  unfold slot_index, hour, minute, US_PER_DAY, US_PER_HOUR, US_PER_MINUTE.
  time_arith.
Qed.

Lemma record_event_grid_length dl st t1 t2 h act :
  List.length (grid (record_event dl st t1 t2 h act)) = List.length (grid dl).
Proof. cbn [record_event grid]. apply paint_length. Qed.

(** X1.  The grid of every returned day log has 96 slots, provided the
    sheets the generator starts with have (a fresh generator has none). *)
Theorem grids_have_96_slots requests_get requests_post fuel now self rd
    sheets :
  Forall (fun d => List.length (grid d) = 96%nat) (self_log_sheets self) ->
  generate_log_sheets requests_get requests_post fuel now self
  = Some (Return (rd, sheets)) ->
  Forall (fun d => List.length (grid d) = 96%nat) sheets.
Proof.
  apply (run_all_days (fun d => List.length (grid d) = 96%nat)).
  - intros d. apply repeat_length.
  - intros dl st t1 t2 h act _ H. now rewrite record_event_grid_length.
  - intros d t1 t2. rewrite record_event_grid_length. apply repeat_length.
Qed.

Lemma grids_have_96_slots_witness :
  let rd :=
    mkRouteDetails (mkRouteLeg "A" "B" 330 6 "", mkRouteLeg "B" "C" 660 12 "")
                   990 18 in
  let self := mkGenerator "A" "B" "C" 20 (Some rd) [] in
  exists sheets,
    generate_log_sheets no_get no_post 10 (738000 * US_PER_DAY) self
    = Some (Return (rd, sheets))
    /\ List.length sheets = 3%nat
    /\ Forall (fun d => List.length (grid d) = 96%nat) sheets.
Proof.
  intros rd self. eexists. split; [vm_compute; reflexivity|].
  split; [reflexivity|].
  refine (grids_have_96_slots no_get no_post 10 (738000 * US_PER_DAY) self rd
            _ (Forall_nil _) _).
  vm_compute. reflexivity.
Defined.

(** X2.  What [_add_event] paints.  With a grid of 96 slots, the returned
    day log has 96 slots again; slot [j] holds the code of the status when
    it lies from the slot of the event's start (the start time, or the
    08:00 anchor when the event crossed midnight) up to, not including,
    the slot of the returned end time; every other slot keeps what it held
    (OFF, in the fresh grid of a crossing).  In particular nothing is
    painted when the end slot is not after the start slot. *)
Theorem add_event_grid ls dl st t h act j :
  List.length (grid dl) = 96%nat -> (j < 96)%nat ->
  let crossing := (date_of (t + timedelta_hours h) >? date_of t)%Z in
  let start :=
    if crossing then replace_hour_minute (t + timedelta_hours h) 8 0
    else t in
  let base := if crossing then repeat OFF 96 else grid dl in
  exists dl' ls',
    _add_event ls dl st t h act = ((start + timedelta_hours h)%Z, dl', ls')
    /\ List.length (grid dl') = 96%nat
    /\ nth j (grid dl') OFF
       = if ((slot_index start <=? Z.of_nat j)
             && (Z.of_nat j <? slot_index (start + timedelta_hours h)))%Z%bool
         then status_code st else nth j base OFF.
Proof.
  intros Hlen Hj crossing start base.
  assert (Hmin : forall e,
             (0 <= e <= 95)%Z ->
             (Z.of_nat j <? Z.min e 96)%Z = (Z.of_nat j <? e)%Z).
  { intros e He. now rewrite Z.min_l by lia. }
  pose proof (slot_index_bounds start) as Hs.
  pose proof (slot_index_bounds (start + timedelta_hours h)) as He.
  subst crossing start base.
  destruct (date_of (t + timedelta_hours h) >? date_of t)%Z eqn:Hc.
  - rewrite (add_event_next_day ls dl st t h act Hc). cbv zeta.
    eexists _, _. split; [reflexivity|].
    split; [rewrite record_event_grid_length; apply repeat_length|].
    cbn [record_event grid _init_day_log].
    rewrite paint_nth by (rewrite ?repeat_length; lia).
    now rewrite Hmin.
  - rewrite (add_event_same_day ls dl st t h act Hc).
    eexists _, _. split; [reflexivity|].
    split; [now rewrite record_event_grid_length|].
    cbn [record_event grid].
    rewrite paint_nth by lia. now rewrite Hmin.
Qed.

(** Fueling for half an hour from 11:45: slots 47 and 48 turn ON. *)
Lemma add_event_grid_witness :
  exists dl' ls',
    _add_event [] (_init_day_log 1) On_duty
               (1 * US_PER_DAY + 11 * US_PER_HOUR + 45 * US_PER_MINUTE)
               fuel_time (Some "Fueling"%string)
    = ((1 * US_PER_DAY + 12 * US_PER_HOUR + 15 * US_PER_MINUTE)%Z, dl', ls')
    /\ nth 47 (grid dl') OFF = ON.
Proof.
  destruct (add_event_grid [] (_init_day_log 1) On_duty
              (1 * US_PER_DAY + 11 * US_PER_HOUR + 45 * US_PER_MINUTE)
              fuel_time (Some "Fueling"%string) 47)
    as (dl' & ls' & Hcall & _ & Hslot).
  - reflexivity.
  - vm_compute. lia.
  - exists dl', ls'. split; [exact Hcall | exact Hslot].
Defined.

(** ** Totals and events *)

(** X3.  In every returned day log each of the four totals is the sum of
    the durations of the day's events of that status, provided that holds
    of the sheets the generator starts with. *)
Theorem totals_are_event_sums requests_get requests_post fuel now self rd
    sheets :
  Forall totals_match_events (self_log_sheets self) ->
  generate_log_sheets requests_get requests_post fuel now self
  = Some (Return (rd, sheets)) ->
  Forall (fun d =>
            driving (totals d) == status_hours Driving (events d)
            /\ on_duty (totals d) == status_hours On_duty (events d)
            /\ off_duty (totals d) == status_hours Off_duty (events d)
            /\ sleeper (totals d) == status_hours Sleeper_berth (events d))
         sheets.
Proof.
  intros Hsheets0 Hrun.
  assert (H : Forall totals_match_events sheets).
  { revert Hsheets0 Hrun. apply run_all_days.
    - apply totals_match_init.
    - intros dl st t1 t2 h act _. apply totals_match_record.
    - intros d t1 t2. apply totals_match_record, totals_match_init. }
  eapply Forall_impl; [|exact H]. intros d Hd.
  repeat split;
    [apply (Hd Driving) | apply (Hd On_duty) | apply (Hd Off_duty)
     | apply (Hd Sleeper_berth)].
Qed.

Lemma totals_are_event_sums_witness :
  let rd :=
    mkRouteDetails (mkRouteLeg "A" "B" 500 1 "", mkRouteLeg "B" "C" 2000 6 "")
                   2500 7 in
  let self := mkGenerator "A" "B" "C" 0 (Some rd) [] in
  exists d,
    generate_log_sheets no_get no_post 10 (738000 * US_PER_DAY) self
    = Some (Return (rd, [d]))
    /\ on_duty (totals d) == 3
    /\ on_duty (totals d) == status_hours On_duty (events d).
Proof.
  intros rd self. eexists. split; [vm_compute; reflexivity|].
  split; [reflexivity|].
  pose proof (totals_are_event_sums no_get no_post 10 (738000 * US_PER_DAY)
                self rd _ (Forall_nil _)
                ltac:(vm_compute; reflexivity)) as H.
  inversion H as [|? ? (_ & Hon & _) _]. exact Hon.
Defined.

(** X4.  The generator records no off-duty time and at most one rest a
    day: in every returned day log the off-duty total is 0, no event has
    the Off-duty status, and the sleeper total is 0 or the 10 hours of one
    rest. *)
Theorem no_off_duty_one_rest requests_get requests_post fuel now self rd
    sheets :
  Forall rest_and_off_duty (self_log_sheets self) ->
  generate_log_sheets requests_get requests_post fuel now self
  = Some (Return (rd, sheets)) ->
  Forall (fun d =>
            off_duty (totals d) = 0
            /\ Forall (fun ev => ev_status ev <> Off_duty) (events d)
            /\ (sleeper (totals d) == 0 \/ sleeper (totals d) == 10))
         sheets.
Proof.
  intros Hsheets0 Hrun.
  assert (H : Forall rest_and_off_duty sheets).
  { revert Hsheets0 Hrun. apply run_all_days.
    - intros d. repeat split; [constructor | now left].
    - intros dl st t1 t2 h act Hst (Hoff & Hev & Hsl).
      unfold rest_and_off_duty. cbn [record_event totals events].
      destruct Hst; subst st; cbn [add_total off_duty sleeper].
      + split; [exact Hoff|]. split; [|exact Hsl].
        apply Forall_app. split; [exact Hev|].
        constructor; [discriminate | constructor].
      + split; [exact Hoff|]. split; [|exact Hsl].
        apply Forall_app. split; [exact Hev|].
        constructor; [discriminate | constructor].
    - intros d t1 t2. unfold rest_and_off_duty.
      cbn [record_event totals events _init_day_log add_total off_duty
           sleeper app].
      split; [reflexivity|]. split; [|now right].
      constructor; [discriminate | constructor]. }
  eapply Forall_impl; [|exact H]. intros d (Hoff & Hev & Hsl).
  split; [exact Hoff|]. split; [exact Hev|].
  destruct Hsl as [-> | ->]; [left | right]; reflexivity.
Qed.

Lemma no_off_duty_one_rest_witness :
  let rd :=
    mkRouteDetails (mkRouteLeg "A" "B" 330 6 "", mkRouteLeg "B" "C" 660 12 "")
                   990 18 in
  let self := mkGenerator "A" "B" "C" 20 (Some rd) [] in
  exists sheets,
    generate_log_sheets no_get no_post 10 (738000 * US_PER_DAY) self
    = Some (Return (rd, sheets))
    /\ map (fun d => sleeper (totals d)) sheets = [0; 0 + 10; 0]
    /\ Forall (fun d => off_duty (totals d) = 0) sheets.
Proof.
  intros rd self. eexists. split; [vm_compute; reflexivity|].
  split; [reflexivity|].
  pose proof (no_off_duty_one_rest no_get no_post 10 (738000 * US_PER_DAY)
                self rd _ (Forall_nil _)
                ltac:(vm_compute; reflexivity)) as H.
  eapply Forall_impl; [|exact H]. now intros d (Hoff & _).
Defined.

(** ** The hours of a run *)

(** X5.  The on-duty hours of a run: the on-duty totals of the sheets a
    fresh generator returns add up to the 2 hours of loading and unloading
    plus half an hour for each fuel stop, and none of them is negative. *)
Theorem on_duty_hours_account_for_stops requests_get requests_post fuel now
    self rd sheets :
  self_log_sheets self = [] ->
  generate_log_sheets requests_get requests_post fuel now self
  = Some (Return (rd, sheets)) ->
  total_over on_duty sheets == 2 + inject_Z (fuel_stops_of rd) * fuel_time
  /\ Forall (fun d => 0 <= on_duty (totals d)) sheets.
Proof.
  intros Hsheets0 Hrun. split.
  - now apply (run_on_duty_hours requests_get requests_post fuel now self).
  - now apply (run_on_duty_nonneg requests_get requests_post fuel now self
                 rd).
Qed.

Lemma on_duty_hours_account_for_stops_witness :
  let rd :=
    mkRouteDetails (mkRouteLeg "A" "B" 500 9 "", mkRouteLeg "B" "C" 2000 30 "")
                   2500 39 in
  let self := mkGenerator "A" "B" "C" 0 (Some rd) [] in
  exists sheets,
    generate_log_sheets no_get no_post 20 (738000 * US_PER_DAY) self
    = Some (Return (rd, sheets))
    /\ List.length sheets = 7%nat
    /\ total_over on_duty sheets == 3.
Proof.
  intros rd self. eexists. split; [vm_compute; reflexivity|].
  split; [reflexivity|].
  destruct (on_duty_hours_account_for_stops no_get no_post 20
              (738000 * US_PER_DAY) self rd _ eq_refl
              ltac:(vm_compute; reflexivity)) as [Ho _].
  rewrite Ho. reflexivity.
Defined.

(** ** The calendar of a run *)

Lemma sorted_snoc l x :
  StronglySorted Z.lt l -> Forall (fun y => (y < x)%Z) l ->
  StronglySorted Z.lt (l ++ [x]).
Proof.
  induction 1 as [|y l Hs IH Hy]; intros Hall; cbn [app].
  - repeat constructor.
  - inversion Hall as [|? ? Hyx Hl]; subst.
    constructor; [now apply IH|].
    apply Forall_app. split; [exact Hy | now constructor].
Qed.

(** An event of at most 15 hours keeps the calendar. *)
Lemma calendar_add_event today ls dl st t h act rc rc' :
  0 <= h <= 15 ->
  calendar_invariant today (mkLocals ls dl t rc) ->
  forall t' dl' ls',
    _add_event ls dl st t h act = (t', dl', ls') ->
    calendar_invariant today (mkLocals ls' dl' t' rc').
Proof.
  intros [Hh0 Hh15] (Hdate & Hsorted & Hbefore & Hfull & Hday & Hfirst)
         t' dl' ls' Hcall.
  cbn [loc_log_sheets loc_day_log loc_current_time] in *.
  pose proof (timedelta_hours_nonneg h Hh0) as Htd0.
  pose proof (timedelta_hours_le h 15 Hh15) as Htd15.
  unfold calendar_invariant.
  cbn [loc_log_sheets loc_day_log loc_current_time].
  destruct (date_of (t + timedelta_hours h) >? date_of t)%Z eqn:Hc.
  - rewrite (add_event_next_day ls dl st t h act Hc) in Hcall.
    cbv zeta in Hcall. injection Hcall as <- <- <-.
    apply Z.gtb_lt in Hc.
    cbn [record_event log_date events _init_day_log app].
    unfold _finalize_day. rewrite map_app. cbn [map].
    split.
    { apply date_of_anchor_plus; [lia|].
      unfold US_PER_DAY, US_PER_HOUR, US_PER_MINUTE in *. time_arith. }
    split.
    { apply sorted_snoc; [exact Hsorted|].
      apply Forall_map. exact Hbefore. }
    split.
    { apply Forall_app. split.
      - eapply Forall_impl; [|exact Hbefore]. cbn. intros d Hd. lia.
      - constructor; [lia | constructor]. }
    split; [apply Forall_app; split; [exact Hfull | now constructor]|].
    split; [discriminate|].
    destruct ls as [|d ls]; cbn [map app hd] in *; [exact Hfirst|].
    exact Hfirst.
  - rewrite (add_event_same_day ls dl st t h act Hc) in Hcall.
    injection Hcall as <- <- <-.
    cbn [record_event log_date events].
    split.
    { rewrite <- Hdate. rewrite Z.gtb_ltb in Hc. apply Z.ltb_ge in Hc.
      unfold date_of, US_PER_DAY in *. time_arith. }
    split; [exact Hsorted|]. split; [exact Hbefore|].
    split; [exact Hfull|].
    split; [|exact Hfirst].
    destruct (events dl); discriminate.
Qed.

Lemma calendar_event today l h act :
  h = pickup_dropoff_time \/ h = fuel_time ->
  calendar_and_budget today l ->
  calendar_and_budget today (on_duty_event l h act).
Proof.
  intros Hh [Hcal Hbud]. split; [|now apply budget_invariant_event].
  destruct l as [ls dl t rc]. unfold on_duty_event.
  cbn [loc_log_sheets loc_day_log loc_current_time loc_remaining_cycle].
  destruct (_add_event ls dl On_duty t h (Some act)) as [[t' dl'] ls'] eqn:He.
  apply (calendar_add_event today ls dl On_duty t h (Some act) rc rc);
    [|exact Hcal | exact He].
  destruct Hh as [-> | ->]; unfold pickup_dropoff_time, fuel_time; lra.
Qed.

Lemma calendar_iteration today s :
  calendar_and_budget today (locals_of s) -> 0 < ds_drive_time s ->
  calendar_and_budget today (locals_of (driving_iteration s)).
Proof.
  intros [Hcal Hbud] Hdt.
  split; [|now apply budget_invariant_iteration].
  destruct (Qle_bool (available s) 0) eqn:Hav.
  - destruct Hcal as (Hdate & Hsorted & Hbefore & Hfull & Hday & Hfirst).
    cbn [locals_of loc_log_sheets loc_day_log loc_current_time] in *.
    rewrite (rest_iteration s Hav). unfold calendar_invariant.
    cbn [locals_of loc_log_sheets loc_day_log loc_current_time ds_log_sheets
         ds_day_log ds_start_time record_event log_date events _init_day_log
         app].
    rewrite map_app. cbn [map].
    split; [apply date_of_rest_end|].
    split.
    { apply sorted_snoc; [exact Hsorted|]. apply Forall_map. exact Hbefore. }
    split.
    { apply Forall_app. split.
      - eapply Forall_impl; [|exact Hbefore]. cbn. intros d Hd. lia.
      - constructor; [lia | constructor]. }
    split; [apply Forall_app; split; [exact Hfull | now constructor]|].
    split; [discriminate|].
    destruct (ds_log_sheets s); cbn [map app hd] in *; exact Hfirst.
  - destruct s as [ls dl t dt rc]. unfold driving_iteration.
    rewrite Hav.
    cbn [ds_log_sheets ds_day_log ds_start_time ds_drive_time
         ds_remaining_cycle locals_of] in *.
    set (a := available (mkDrivingState ls dl t dt rc)) in *.
    destruct (_add_event ls dl Driving t a None) as [[t' dl'] ls'] eqn:He.
    cbn [locals_of ds_log_sheets ds_day_log ds_start_time
         ds_remaining_cycle].
    apply (calendar_add_event today ls dl Driving t a None rc (rc - a));
      [|exact Hcal | exact He].
    apply Qle_bool_false in Hav.
    pose proof (available_bounds (mkDrivingState ls dl t dt rc)) as (Hle & _).
    destruct Hbud as [_ [Hd0 _]].
    cbn [ds_day_log locals_of loc_day_log] in *. fold a in Hle.
    unfold max_drive_hours in *. split; lra.
Qed.

Lemma calendar_after_loading now rc :
  calendar_and_budget (date_of now)
    (mkLocals []
       (mkDailyLog (date_of now) (paint (repeat OFF 96) 32 36 ON)
          [mkEvent On_duty "08:00" "09:00" 1 (Some "Loading"%string)]
          (mkTotals 0 (0 + 1) 0 0))
       (date_of now * US_PER_DAY + 9 * US_PER_HOUR) rc).
Proof.
  split.
  - unfold calendar_invariant.
    cbn [loc_log_sheets loc_day_log loc_current_time log_date events map
         hd].
    split.
    { apply date_of_day_plus. vm_compute. split; congruence. }
    repeat split; try constructor. discriminate.
  - split; [constructor|].
    unfold driving_within_budget, max_drive_hours.
    cbn [loc_day_log totals driving]. lra.
Qed.

(** The calendar of the sheets of a run. *)
Lemma run_calendar requests_get requests_post fuel now self rd
    sheets :
  self_log_sheets self = [] ->
  generate_log_sheets requests_get requests_post fuel now self
  = Some (Return (rd, sheets)) ->
  StronglySorted Z.lt (map log_date sheets)
  /\ hd_error (map log_date sheets) = Some (date_of now)
  /\ Forall (fun d => events d <> []) sheets.
Proof.
  intros Hsheets0 Hrun. unfold generate_log_sheets in Hrun.
  destruct (resolved_route requests_get requests_post self) as [rd'|];
    [|discriminate].
  rewrite Hsheets0 in Hrun.
  destruct (simulate fuel now [] (current_cycle_used self) rd') as [l|]
    eqn:Hsim; [|discriminate].
  injection Hrun as _ <-.
  destruct (simulate_run_invariant (calendar_and_budget (date_of now))
              (calendar_event (date_of now))
              (calendar_iteration (date_of now)) _ _ _ _ _ _ Hsim)
    as (l' & [Hcal _] & ->).
  - rewrite loading_event. split.
    + unfold calendar_invariant.
      cbn [loc_log_sheets loc_day_log loc_current_time log_date events map
           hd].
      split.
      { apply date_of_day_plus. vm_compute. split; congruence. }
      repeat split; try constructor. discriminate.
    + split; [constructor|].
      unfold driving_within_budget, max_drive_hours.
      cbn [loc_day_log totals driving]. lra.
  - destruct Hcal as (_ & Hsorted & Hbefore & Hfull & Hday & Hfirst).
    cbn [loc_log_sheets]. unfold _finalize_day. rewrite map_app. cbn [map].
    split.
    { apply sorted_snoc; [exact Hsorted|]. apply Forall_map. exact Hbefore. }
    split.
    { destruct (loc_log_sheets l'); cbn [map app hd hd_error] in *;
        now rewrite Hfirst. }
    apply Forall_app. split; [exact Hfull | now constructor].
Qed.

(** X6.  A fresh generator returns one sheet per calendar date, in order:
    the dates of the returned sheets increase strictly, the first being
    the current date, and every sheet holds at least one event. *)
Theorem sheets_one_per_date requests_get requests_post fuel now self rd
    sheets :
  self_log_sheets self = [] ->
  generate_log_sheets requests_get requests_post fuel now self
  = Some (Return (rd, sheets)) ->
  StronglySorted Z.lt (map log_date sheets)
  /\ hd_error (map log_date sheets) = Some (date_of now)
  /\ Forall (fun d => events d <> []) sheets.
Proof. apply run_calendar. Qed.

Lemma sheets_one_per_date_witness :
  let rd :=
    mkRouteDetails (mkRouteLeg "A" "B" 500 9 "", mkRouteLeg "B" "C" 2000 30 "")
                   2500 39 in
  let self := mkGenerator "A" "B" "C" 0 (Some rd) [] in
  exists sheets,
    generate_log_sheets no_get no_post 20 (738000 * US_PER_DAY) self
    = Some (Return (rd, sheets))
    /\ map log_date sheets
       = [738000; 738001; 738002; 738003; 738004; 738005; 738006]%Z
    /\ StronglySorted Z.lt (map log_date sheets).
Proof.
  intros rd self. eexists. split; [vm_compute; reflexivity|].
  split; [reflexivity|].
  apply (sheets_one_per_date no_get no_post 20 (738000 * US_PER_DAY) self rd
           _ eq_refl).
  vm_compute. reflexivity.
Defined.

(** ** The schedule of a day *)

Lemma last_event_snoc evs ev : last_event (evs ++ [ev]) = Some ev.
Proof.
  induction evs as [|e evs IH]; [reflexivity|].
  cbn [app last_event]. destruct (evs ++ [ev]) eqn:E; [|exact IH].
  now destruct evs.
Qed.

Lemma contiguous_snoc evs ev :
  contiguous evs ->
  match last_event evs with
  | Some e => ev_end e = ev_start ev
  | None => True
  end ->
  contiguous (evs ++ [ev]).
Proof.
  induction evs as [|e1 evs IH]; intros Hc Hlast; [exact I|].
  destruct evs as [|e2 evs].
  - cbn in *. split; [exact Hlast | exact I].
  - destruct Hc as [H12 Hc]. split; [exact H12|].
    apply IH; [exact Hc | exact Hlast].
Qed.

(** Recording an event that starts when the clock says keeps the schedule
    of the day. *)
Lemma day_schedule_record dl st t1 t2 h act :
  day_schedule dl ->
  match last_event (events dl) with
  | Some e => ev_end e = strftime_HM t1
  | None => strftime_HM t1 = "08:00"%string
  end ->
  day_schedule (record_event dl st t1 t2 h act).
Proof.
  intros [Hc Hfirst] Hlast. unfold day_schedule.
  cbn [record_event events].
  split.
  - apply contiguous_snoc; [exact Hc|].
    destruct (last_event (events dl)); [exact Hlast | exact I].
  - destruct (events dl) as [|e evs]; cbn [app]; [exact Hlast | exact Hfirst].
Qed.

Lemma day_schedule_init d : day_schedule (_init_day_log d).
Proof. split; exact I. Qed.

Lemma schedule_add_event ls dl st t h act rc rc' :
  schedule_invariant (mkLocals ls dl t rc) ->
  forall t' dl' ls',
    _add_event ls dl st t h act = (t', dl', ls') ->
    schedule_invariant (mkLocals ls' dl' t' rc').
Proof.
  intros [[Hsheets Hday] Hclock] t' dl' ls' Hcall.
  cbn [loc_log_sheets loc_day_log loc_current_time] in *.
  unfold schedule_invariant, all_days.
  cbn [loc_log_sheets loc_day_log loc_current_time].
  destruct (date_of (t + timedelta_hours h) >? date_of t)%Z eqn:Hc.
  - rewrite (add_event_next_day ls dl st t h act Hc) in Hcall.
    cbv zeta in Hcall. injection Hcall as <- <- <-.
    split; [split|].
    + apply Forall_app. split; [exact Hsheets | now constructor].
    + apply day_schedule_record; [apply day_schedule_init|].
      cbn [_init_day_log events last_event]. apply strftime_anchor.
    + cbn [record_event events]. now rewrite last_event_snoc.
  - rewrite (add_event_same_day ls dl st t h act Hc) in Hcall.
    injection Hcall as <- <- <-.
    split; [split|].
    + exact Hsheets.
    + now apply day_schedule_record.
    + cbn [record_event events]. now rewrite last_event_snoc.
Qed.

Lemma schedule_event l h act :
  schedule_invariant l -> schedule_invariant (on_duty_event l h act).
Proof.
  intros H. destruct l as [ls dl t rc]. unfold on_duty_event.
  cbn [loc_log_sheets loc_day_log loc_current_time loc_remaining_cycle].
  destruct (_add_event ls dl On_duty t h (Some act)) as [[t' dl'] ls'] eqn:He.
  exact (schedule_add_event ls dl On_duty t h (Some act) rc rc H _ _ _ He).
Qed.

Lemma schedule_iteration s :
  schedule_invariant (locals_of s) -> 0 < ds_drive_time s ->
  schedule_invariant (locals_of (driving_iteration s)).
Proof.
  intros H _.
  destruct (Qle_bool (available s) 0) eqn:Hav.
  - destruct H as [[Hsheets Hday] _].
    cbn [locals_of loc_log_sheets loc_day_log] in *.
    rewrite (rest_iteration s Hav). unfold schedule_invariant, all_days.
    cbn [locals_of loc_log_sheets loc_day_log loc_current_time ds_log_sheets
         ds_day_log ds_start_time].
    split; [split|].
    + apply Forall_app. split; [exact Hsheets | now constructor].
    + apply day_schedule_record; [apply day_schedule_init|].
      cbn [_init_day_log events last_event]. apply strftime_rest_start.
    + cbn [record_event events]. now rewrite last_event_snoc.
  - destruct s as [ls dl t dt rc]. unfold driving_iteration. rewrite Hav.
    cbn [ds_log_sheets ds_day_log ds_start_time ds_drive_time
         ds_remaining_cycle locals_of] in *.
    set (a := available (mkDrivingState ls dl t dt rc)) in *.
    destruct (_add_event ls dl Driving t a None) as [[t' dl'] ls'] eqn:He.
    cbn [locals_of ds_log_sheets ds_day_log ds_start_time
         ds_remaining_cycle].
    exact (schedule_add_event ls dl Driving t a None rc (rc - a) H _ _ _ He).
Qed.

(** X7.  In every day log a fresh generator returns, the first event
    starts at 08:00 and each further event starts at the time of day
    (HH:MM) at which the event before it ended. *)
Theorem days_are_scheduled requests_get requests_post fuel now self rd
    sheets :
  self_log_sheets self = [] ->
  generate_log_sheets requests_get requests_post fuel now self
  = Some (Return (rd, sheets)) ->
  Forall (fun d =>
            contiguous (events d)
            /\ exists ev evs,
                 events d = ev :: evs /\ ev_start ev = "08:00"%string)
         sheets.
Proof.
  intros Hsheets0 Hrun.
  destruct (run_calendar requests_get requests_post fuel now self rd
              sheets Hsheets0 Hrun) as (_ & _ & Hfull).
  assert (Hsched : Forall day_schedule sheets).
  { unfold generate_log_sheets in Hrun.
    destruct (resolved_route requests_get requests_post self) as [rd'|];
      [|discriminate].
    rewrite Hsheets0 in Hrun.
    destruct (simulate fuel now [] (current_cycle_used self) rd') as [l|]
      eqn:Hsim; [|discriminate].
    injection Hrun as _ <-.
    destruct (simulate_invariant schedule_invariant schedule_event
                schedule_iteration _ _ _ _ _ _ Hsim)
      as (l' & [[Hl1 Hl2] _] & ->).
    - split; [split; [constructor | apply day_schedule_init]|].
      unfold initial_locals.
      cbn [loc_day_log loc_current_time _init_day_log events last_event].
      rewrite replace_hmsu_8, strftime_day_plus. reflexivity.
    - cbn [loc_log_sheets]. unfold _finalize_day.
      apply Forall_app. split; [exact Hl1 | now constructor]. }
  clear Hrun. induction Hsched as [|d sheets' [Hc Hfirst] _ IH];
    [constructor|].
  inversion Hfull as [|? ? Hd Hrest]; subst.
  constructor; [|now apply IH].
  split; [exact Hc|].
  destruct (events d) as [|ev evs]; [congruence|]. now exists ev, evs.
Qed.

Lemma days_are_scheduled_witness :
  let rd :=
    mkRouteDetails (mkRouteLeg "A" "B" 500 9 "", mkRouteLeg "B" "C" 2000 30 "")
                   2500 39 in
  let self := mkGenerator "A" "B" "C" 0 (Some rd) [] in
  exists sheets,
    generate_log_sheets no_get no_post 20 (738000 * US_PER_DAY) self
    = Some (Return (rd, sheets))
    /\ List.length sheets = 7%nat
    /\ Forall (fun d => contiguous (events d)) sheets.
Proof.
  intros rd self. eexists. split; [vm_compute; reflexivity|].
  split; [reflexivity|].
  pose proof (days_are_scheduled no_get no_post 20 (738000 * US_PER_DAY) self
                rd _ eq_refl ltac:(vm_compute; reflexivity)) as H.
  eapply Forall_impl; [|exact H]. now intros d [Hc _].
Defined.

(** ** A generator that already holds sheets *)

Lemma add_event_prepend p ls dl st t h act :
  _add_event (p ++ ls) dl st t h act
  = let '(t', dl', ls') := _add_event ls dl st t h act in (t', dl', p ++ ls').
Proof.
  unfold _add_event, _finalize_day.
  destruct (date_of (t + timedelta_hours h) >? date_of t)%Z;
    [now rewrite app_assoc | reflexivity].
Qed.

Lemma on_duty_event_prepend p l h act :
  on_duty_event (prepend_sheets p l) h act
  = prepend_sheets p (on_duty_event l h act).
Proof.
  unfold on_duty_event, prepend_sheets.
  cbn [loc_log_sheets loc_day_log loc_current_time loc_remaining_cycle].
  rewrite add_event_prepend.
  now destruct (_add_event (loc_log_sheets l) _ _ _ _ _) as [[t' dl'] ls'].
Qed.

Lemma driving_iteration_prepend p s :
  driving_iteration (prepend_state p s)
  = prepend_state p (driving_iteration s).
Proof.
  unfold driving_iteration.
  change (available (prepend_state p s)) with (available s).
  cbn [prepend_state ds_log_sheets ds_day_log ds_start_time ds_drive_time
       ds_remaining_cycle].
  destruct (Qle_bool (available s) 0).
  - unfold _finalize_day. rewrite <- app_assoc, add_event_prepend.
    now destruct (_add_event (ds_log_sheets s ++ _) _ _ _ _ _)
      as [[t' dl'] ls'].
  - rewrite add_event_prepend.
    now destruct (_add_event (ds_log_sheets s) _ _ _ _ _) as [[t' dl'] ls'].
Qed.

Lemma driving_loop_prepend p fuel :
  forall s,
    driving_loop fuel (prepend_state p s)
    = option_map (prepend_state p) (driving_loop fuel s).
Proof.
  induction fuel as [|fuel IH]; intros s; cbn [driving_loop];
    change (ds_drive_time (prepend_state p s)) with (ds_drive_time s);
    destruct (Qle_bool (ds_drive_time s) 0); try reflexivity.
  now rewrite driving_iteration_prepend, IH.
Qed.

Lemma add_driving_prepend p fuel l dt :
  _add_driving fuel (prepend_sheets p l) dt
  = option_map (prepend_sheets p) (_add_driving fuel l dt).
Proof.
  rewrite !add_driving_unfold.
  change (driving_state_of (prepend_sheets p l) dt)
    with (prepend_state p (driving_state_of l dt)).
  rewrite driving_loop_prepend.
  now destruct (driving_loop fuel (driving_state_of l dt)).
Qed.

Lemma segment_loop_prepend p fuel fuel_stops seg indices :
  forall l,
    segment_loop fuel fuel_stops seg indices (prepend_sheets p l)
    = option_map (prepend_sheets p)
                 (segment_loop fuel fuel_stops seg indices l).
Proof.
  induction indices as [|i indices IH]; intros l; cbn [segment_loop];
    [reflexivity|].
  rewrite add_driving_prepend.
  destruct (_add_driving fuel l seg) as [l1|]; cbn [option_map];
    [|reflexivity].
  destruct (i <? fuel_stops)%Z; [rewrite on_duty_event_prepend|];
    apply IH.
Qed.

Lemma simulate_prepend p fuel now used rd :
  simulate fuel now p used rd
  = option_map (prepend_sheets p) (simulate fuel now [] used rd).
Proof.
  unfold simulate. cbv zeta.
  fold (initial_locals now [] used).
  replace (mkLocals p (_init_day_log (date_of (replace_hmsu now 8 0)))
                    (replace_hmsu now 8 0) (max_cycle_hours - used))
    with (prepend_sheets p (initial_locals now [] used))
    by (unfold prepend_sheets, initial_locals;
        cbn [loc_log_sheets loc_day_log loc_current_time
             loc_remaining_cycle];
        now rewrite app_nil_r).
  rewrite on_duty_event_prepend, add_driving_prepend.
  destruct (_add_driving fuel _ (duration (fst (legs rd)))) as [l1|];
    cbn [option_map]; [|reflexivity].
  rewrite segment_loop_prepend.
  destruct (segment_loop fuel _ _ _ l1) as [l2|]; cbn [option_map];
    [|reflexivity].
  rewrite on_duty_event_prepend.
  unfold prepend_sheets, _finalize_day.
  cbn [loc_log_sheets loc_day_log loc_current_time loc_remaining_cycle].
  now rewrite app_assoc.
Qed.

(** X12.  [generate_log_sheets] appends to [self.log_sheets]: on a
    generator that already holds sheets it returns those sheets followed
    by the sheets a generator without sheets returns, and raises, or runs
    out of fuel, exactly when that one does.  So a second call on the same
    generator returns the sheets of the first call in front of its own. *)
Theorem generate_appends_to_log_sheets requests_get requests_post fuel now
    self previous :
  generate_log_sheets requests_get requests_post fuel now
                      (with_log_sheets self previous)
  = match generate_log_sheets requests_get requests_post fuel now
                              (with_log_sheets self []) with
    | Some (Return (rd, sheets)) => Some (Return (rd, previous ++ sheets))
    | other => other
    end.
Proof.
  unfold generate_log_sheets.
  change (resolved_route requests_get requests_post
            (with_log_sheets self previous))
    with (resolved_route requests_get requests_post
            (with_log_sheets self [])).
  destruct (resolved_route requests_get requests_post
              (with_log_sheets self [])) as [rd|message]; [|reflexivity].
  cbn [with_log_sheets self_log_sheets current_cycle_used].
  rewrite (simulate_prepend previous).
  now destruct (simulate fuel now [] (current_cycle_used self) rd).
Qed.

(** ** The route *)

Lemma round2_accuracy x :
  x - (1 # 200) <= round2 x <= x + (1 # 200) /\ two_decimals (round2 x).
Proof.
  unfold round2.
  destruct (round_half_even_bounds (x * 100)) as [Hlo Hhi].
  split; [|now exists (round_half_even (x * 100))].
  set (r := inject_Z (round_half_even (x * 100))) in *.
  split.
  - apply Qle_shift_div_l; [reflexivity | lra].
  - apply Qle_shift_div_r; [reflexivity | lra].
Qed.

Lemma round2_nonneg x : 0 <= x -> 0 <= round2 x.
Proof.
  intros Hx. unfold round2.
  apply Qle_shift_div_l; [reflexivity|].
  destruct (round_half_even_bounds (x * 100)) as [Hlo _].
  assert (Hq : inject_Z (-1) < inject_Z (round_half_even (x * 100))).
  { change (inject_Z (-1)) with (-1). lra. }
  rewrite <- Zlt_Qlt in Hq.
  assert (Hz : (0 <= round_half_even (x * 100))%Z) by lia.
  rewrite (Zle_Qle 0) in Hz. change (inject_Z 0) with 0 in Hz. lra.
Qed.

(** X9.  A leg that [get_route_leg] returns comes from a response with
    status 200: its distance is the summary distance in metres over
    1609.34, and its duration the summary duration in seconds over 3600,
    each rounded to two decimals, so within 0.005 of the exact value and
    non-negative when the summary value is; the geometry is passed
    through. *)
Theorem get_route_leg_accuracy requests_post start_coords end_coords leg :
  get_route_leg requests_post start_coords end_coords = Some leg ->
  exists route,
    requests_post start_coords end_coords = Http_response 200 (Some route)
    /\ ld_geometry leg = route_geometry route
    /\ two_decimals (ld_distance leg) /\ two_decimals (ld_duration leg)
    /\ summary_distance route / (160934 # 100) - (1 # 200)
       <= ld_distance leg
       <= summary_distance route / (160934 # 100) + (1 # 200)
    /\ summary_duration route / 3600 - (1 # 200)
       <= ld_duration leg
       <= summary_duration route / 3600 + (1 # 200)
    /\ (0 <= summary_distance route -> 0 <= ld_distance leg)
    /\ (0 <= summary_duration route -> 0 <= ld_duration leg).
Proof.
  unfold get_route_leg.
  destruct (requests_post start_coords end_coords)
    as [|status_code [route|]]; try discriminate;
    destruct (status_code =? 200)%Z eqn:Hcode; try discriminate.
  apply Z.eqb_eq in Hcode. subst status_code.
  intros H. injection H as <-. exists route.
  cbn [ld_distance ld_duration ld_geometry].
  split; [reflexivity|]. split; [reflexivity|].
  split; [apply round2_accuracy|]. split; [apply round2_accuracy|].
  split; [apply round2_accuracy|]. split; [apply round2_accuracy|].
  split; intros H; apply round2_nonneg;
    (apply Qle_shift_div_l; [reflexivity | lra]).
Qed.

(** A leg of 100 km in 1 hour and a quarter: 62.14 miles, 1.25 hours. *)
Lemma get_route_leg_accuracy_witness :
  let post := fun _ _ : Coords =>
                Http_response 200 (Some (mkRouteBody 100000 4500 "g")) in
  exists leg,
    get_route_leg post [1; 2] [3; 4] = Some leg
    /\ ld_distance leg == 6214 # 100
    /\ ld_duration leg == 5 # 4
    /\ 0 <= ld_distance leg.
Proof.
  intros post. eexists. split; [reflexivity|].
  split; [reflexivity|]. split; [reflexivity|].
  destruct (get_route_leg_accuracy post [1; 2] [3; 4] _ eq_refl)
    as (route & Hpost & _ & _ & _ & _ & _ & Hd & _).
  apply Hd. injection Hpost as <-. discriminate.
Defined.

Lemma get_route_leg_two_decimals requests_post a b leg :
  get_route_leg requests_post a b = Some leg ->
  two_decimals (ld_distance leg) /\ two_decimals (ld_duration leg).
Proof.
  unfold get_route_leg.
  destruct (requests_post a b) as [|status_code [route|]]; try discriminate;
    destruct (status_code =? 200)%Z; try discriminate.
  intros H. injection H as <-. cbn [ld_distance ld_duration].
  split; apply round2_accuracy.
Qed.

Lemma calculate_route_consistent requests_get requests_post self rd :
  calculate_route requests_get requests_post self = Return rd ->
  truthy_coords (get_coordinates requests_get (current_location self)) = true
  /\ truthy_coords (get_coordinates requests_get (pickup_location self))
     = true
  /\ truthy_coords (get_coordinates requests_get (dropoff_location self))
     = true
  /\ leg_from (fst (legs rd)) = current_location self
  /\ leg_to (fst (legs rd)) = pickup_location self
  /\ leg_from (snd (legs rd)) = pickup_location self
  /\ leg_to (snd (legs rd)) = dropoff_location self
  /\ total_distance rd
     = distance (fst (legs rd)) + distance (snd (legs rd))
  /\ total_duration rd
     = duration (fst (legs rd)) + duration (snd (legs rd))
  /\ two_decimals (distance (fst (legs rd)))
  /\ two_decimals (duration (fst (legs rd)))
  /\ two_decimals (distance (snd (legs rd)))
  /\ two_decimals (duration (snd (legs rd))).
Proof.
  unfold calculate_route.
  destruct (get_coordinates requests_get (current_location self))
    as [[|c1 c]|]; cbn [truthy_coords andb negb]; try discriminate.
  destruct (get_coordinates requests_get (pickup_location self))
    as [[|p1 p]|]; cbn [truthy_coords andb negb]; try discriminate.
  destruct (get_coordinates requests_get (dropoff_location self))
    as [[|d1 d]|]; cbn [truthy_coords andb negb]; try discriminate.
  destruct (get_route_leg requests_post (c1 :: c) (p1 :: p)) as [leg1|] eqn:H1;
    [|discriminate].
  destruct (get_route_leg requests_post (p1 :: p) (d1 :: d)) as [leg2|] eqn:H2;
    [|discriminate].
  intros H. injection H as <-.
  destruct (get_route_leg_two_decimals _ _ _ _ H1) as [Hd1 Ht1].
  destruct (get_route_leg_two_decimals _ _ _ _ H2) as [Hd2 Ht2].
  cbn [legs fst snd leg_from leg_to distance duration total_distance
       total_duration].
  repeat split; assumption.
Qed.

(** X8.  The route a generator without a route runs on is the one
    [calculate_route] builds: when [generate_log_sheets] returns, the three
    locations were geocoded to non-empty coordinates, the first leg goes
    from the current location to the pickup and the second from the pickup
    to the dropoff, the total distance and duration are the sums of the
    two legs', and each leg's distance and duration has two decimals. *)
Theorem generated_route_is_consistent requests_get requests_post fuel now
    self rd sheets :
  route_details self = None ->
  generate_log_sheets requests_get requests_post fuel now self
  = Some (Return (rd, sheets)) ->
  truthy_coords (get_coordinates requests_get (current_location self)) = true
  /\ truthy_coords (get_coordinates requests_get (pickup_location self))
     = true
  /\ truthy_coords (get_coordinates requests_get (dropoff_location self))
     = true
  /\ leg_from (fst (legs rd)) = current_location self
  /\ leg_to (fst (legs rd)) = pickup_location self
  /\ leg_from (snd (legs rd)) = pickup_location self
  /\ leg_to (snd (legs rd)) = dropoff_location self
  /\ total_distance rd
     = distance (fst (legs rd)) + distance (snd (legs rd))
  /\ total_duration rd
     = duration (fst (legs rd)) + duration (snd (legs rd))
  /\ two_decimals (distance (fst (legs rd)))
  /\ two_decimals (duration (fst (legs rd)))
  /\ two_decimals (distance (snd (legs rd)))
  /\ two_decimals (duration (snd (legs rd))).
Proof.
  intros Hnone Hrun. unfold generate_log_sheets, resolved_route in Hrun.
  rewrite Hnone in Hrun.
  destruct (calculate_route requests_get requests_post self) as [rd'|] eqn:Hc;
    [|discriminate].
  destruct (simulate fuel now _ _ rd'); [|discriminate].
  injection Hrun as <- _.
  now apply (calculate_route_consistent requests_get requests_post).
Qed.

(** ** The request *)

Lemma create_logsheets_rows trip sheets :
  forall db,
    create_logsheets db trip sheets
    = mkDatabase (trips db) (logsheets db ++ logsheet_rows trip sheets).
Proof.
  unfold create_logsheets, logsheet_rows.
  induction sheets as [|log sheets IH]; intros db; cbn [fold_left map].
  - rewrite app_nil_r. now destruct db.
  - rewrite IH. cbn [trips logsheets]. now rewrite <- app_assoc.
Qed.

(** What [post] answers and stores, by the result of the generator. *)
Lemma post_cases requests_get requests_post RequestData TripInputSerializer
    fuel now db request_data :
  post requests_get requests_post RequestData TripInputSerializer fuel now db
       request_data
  = match TripInputSerializer request_data with
    | inl errors =>
        Some (mkResponse (Serializer_errors errors) HTTP_400_BAD_REQUEST, db)
    | inr trip =>
        match generate_log_sheets requests_get requests_post fuel now
                                  (__init__ trip) with
        | None => None
        | Some (Raise e) =>
            Some (mkResponse (Error_message e) HTTP_400_BAD_REQUEST, db)
        | Some (Return (rd, sheets)) =>
            let row := mkTrip (S (List.length (trips db))) trip in
            Some (mkResponse (Trip_result rd sheets) HTTP_201_CREATED,
                  mkDatabase (trips db ++ [row])
                             (logsheets db ++ logsheet_rows row sheets))
        end
    end.
Proof.
  unfold post.
  destruct (TripInputSerializer request_data) as [errors|trip];
    [reflexivity|].
  destruct (generate_log_sheets _ _ fuel now (__init__ trip))
    as [[[rd sheets]|e]|]; try reflexivity.
  unfold create_trip. now rewrite create_logsheets_rows.
Qed.

Lemma generated_route_is_consistent_witness :
  let self := __init__ (mkTripData "A" "B" "C" 0) in
  exists rd sheets,
    generate_log_sheets one_place_get one_road_post 5 (738000 * US_PER_DAY)
                        self
    = Some (Return (rd, sheets))
    /\ leg_to (fst (legs rd)) = "B"%string
    /\ total_duration rd
       = duration (fst (legs rd)) + duration (snd (legs rd)).
Proof.
  intros self.
  assert (Hrun : exists rd sheets,
             generate_log_sheets one_place_get one_road_post 5
                                 (738000 * US_PER_DAY) self
             = Some (Return (rd, sheets)))
    by (eexists _, _; vm_compute; reflexivity).
  destruct Hrun as (rd & sheets & Hrun). exists rd, sheets.
  split; [exact Hrun|].
  destruct (generated_route_is_consistent one_place_get one_road_post 5
              (738000 * US_PER_DAY) self rd sheets eq_refl Hrun)
    as (_ & _ & _ & _ & Hto & _ & _ & _ & Hdur & _).
  split; [exact Hto | exact Hdur].
Defined.

(** X10.  A valid request whose route is computed is answered 201 with
    the route and the log sheets of the generator, once the fuel suffices;
    the tables get one new trip row with the validated fields, after the
    rows there were, and one new log-sheet row per returned sheet, in
    order, each with the sheet as its data, the sheet's date and the new
    trip; the dates of the new rows increase strictly. *)
Theorem post_stores_trip_and_sheets
    requests_get requests_post RequestData
    (TripInputSerializer : RequestData -> list string + TripData)
    now db request_data trip rd :
  TripInputSerializer request_data = inr trip ->
  calculate_route requests_get requests_post (__init__ trip) = Return rd ->
  let row := mkTrip (S (List.length (trips db))) trip in
  exists fuel sheets,
    StronglySorted Z.lt (map ls_date (logsheet_rows row sheets))
    /\ map ls_log_data (logsheet_rows row sheets) = sheets
    /\ Forall (fun r => ls_trip r = trip_id row) (logsheet_rows row sheets)
    /\ forall extra,
         generate_log_sheets requests_get requests_post (fuel + extra) now
                             (__init__ trip)
         = Some (Return (rd, sheets))
         /\ post requests_get requests_post RequestData TripInputSerializer
                 (fuel + extra) now db request_data
            = Some (mkResponse (Trip_result rd sheets) HTTP_201_CREATED,
                    mkDatabase (trips db ++ [row])
                               (logsheets db ++ logsheet_rows row sheets)).
Proof.
  intros Hvalid Hroute row.
  destruct (generate_log_sheets_returns requests_get requests_post now
              (__init__ trip) rd Hroute) as (fuel & sheets & Hgen).
  exists fuel, sheets.
  destruct (run_calendar requests_get requests_post (fuel + 0) now
              (__init__ trip) rd sheets eq_refl (Hgen O))
    as (Hsorted & _ & _).
  split.
  { unfold logsheet_rows. rewrite map_map. exact Hsorted. }
  split.
  { unfold logsheet_rows. rewrite map_map. apply map_id. }
  split.
  { unfold logsheet_rows. apply Forall_map, Forall_forall. now intros. }
  intros extra. split; [apply Hgen|].
  rewrite post_cases, Hvalid, Hgen. reflexivity.
Qed.

Lemma post_stores_trip_and_sheets_witness :
  let trip := mkTripData "A" "B" "C" 0 in
  let db := mkDatabase [mkTrip 1 trip] [] in
  exists fuel rd sheets,
    post one_place_get one_road_post TripData (fun r : TripData => inr r)
         fuel (738000 * US_PER_DAY) db trip
    = Some (mkResponse (Trip_result rd sheets) HTTP_201_CREATED,
            mkDatabase [mkTrip 1 trip; mkTrip 2 trip]
                       (logsheet_rows (mkTrip 2 trip) sheets)).
Proof.
  intros trip db.
  destruct (@post_stores_trip_and_sheets one_place_get one_road_post TripData
              (fun r : TripData => inr r) (738000 * US_PER_DAY) db trip trip
              (mkRouteDetails
                 (mkRouteLeg "A" "B" (round2 (100000 / (160934 # 100)))
                             (round2 (4500 / 3600)) "g",
                  mkRouteLeg "B" "C" (round2 (100000 / (160934 # 100)))
                             (round2 (4500 / 3600)) "g")
                 (round2 (100000 / (160934 # 100))
                  + round2 (100000 / (160934 # 100)))
                 (round2 (4500 / 3600) + round2 (4500 / 3600)))
              eq_refl eq_refl)
    as (fuel & sheets & _ & _ & _ & H).
  destruct (H O) as [_ Hpost].
  eexists (fuel + 0)%nat, _, sheets. exact Hpost.
Defined.

(** ** The grid of a day is one block *)

Lemma slot_index_quarters t :
  slot_index t = ((t mod US_PER_DAY) / (15 * US_PER_MINUTE))%Z.
Proof.
  unfold slot_index, hour, minute, US_PER_DAY, US_PER_HOUR, US_PER_MINUTE.
  time_arith.
Qed.

Lemma slot_index_monotone t t' :
  date_of t = date_of t' -> (t <= t')%Z ->
  (slot_index t <= slot_index t')%Z.
Proof.
  rewrite !slot_index_quarters.
  unfold date_of, US_PER_DAY, US_PER_MINUTE. intros Hd Hle. time_arith.
Qed.

Lemma slot_index_anchor t : slot_index (replace_hour_minute t 8 0) = 32%Z.
Proof. unfold slot_index. now rewrite hour_anchor, minute_anchor. Qed.

Lemma paint_block g a b c :
  grid_block a g -> (32 <= a <= b)%Z -> (b <= 95)%Z -> c <> OFF ->
  grid_block b (paint g a (Z.min b 96) c).
Proof.
  intros [Hlen Hg] Hab Hb Hc. split; [now rewrite paint_length|].
  intros j Hj. rewrite paint_nth by lia. rewrite Z.min_l by lia.
  specialize (Hg j Hj).
  destruct (a <=? Z.of_nat j)%Z eqn:H1; destruct (Z.of_nat j <? b)%Z eqn:H2;
    cbn [andb];
    rewrite ?Z.leb_le, ?Z.leb_gt, ?Z.ltb_lt, ?Z.ltb_ge in H1, H2.
  - split; [intros H; now elim Hc | lia].
  - rewrite Hg. lia.
  - rewrite Hg. lia.
  - rewrite Hg. lia.
Qed.

Lemma grid_block_fresh : grid_block 32 (repeat OFF 96).
Proof.
  split; [apply repeat_length|]. intros j Hj. split; [lia|]. intros _.
  apply nth_repeat.
Qed.

Lemma status_code_not_off st : st <> Off_duty -> status_code st <> OFF.
Proof. destruct st; intros H; try discriminate. now elim H. Qed.

(** An event of at most 15 hours that is not off duty extends the block of
    the day, or starts the block of a new day. *)
Lemma grid_add_event ls dl st t h act :
  st <> Off_duty -> 0 <= h <= 15 ->
  (32 <= slot_index t)%Z -> grid_block (slot_index t) (grid dl) ->
  forall t' dl' ls',
    _add_event ls dl st t h act = (t', dl', ls') ->
    (32 <= slot_index t')%Z
    /\ grid_block (slot_index t') (grid dl')
    /\ (ls' = ls \/ ls' = ls ++ [dl]).
Proof.
  intros Hst [Hh0 Hh15] Hslot Hblock t' dl' ls' Hcall.
  pose proof (timedelta_hours_nonneg h Hh0) as Htd0.
  pose proof (timedelta_hours_le h 15 Hh15) as Htd15.
  pose proof (status_code_not_off st Hst) as Hcode.
  destruct (date_of (t + timedelta_hours h) >? date_of t)%Z eqn:Hc.
  - rewrite (add_event_next_day ls dl st t h act Hc) in Hcall.
    cbv zeta in Hcall. injection Hcall as <- <- <-.
    set (anchor := replace_hour_minute (t + timedelta_hours h) 8 0).
    assert (Hdate : date_of anchor = date_of (anchor + timedelta_hours h)).
    { unfold anchor. rewrite date_of_anchor. symmetry.
      apply date_of_anchor_plus; [lia|].
      unfold US_PER_DAY, US_PER_HOUR, US_PER_MINUTE in *. time_arith. }
    pose proof (slot_index_monotone anchor (anchor + timedelta_hours h)
                  Hdate ltac:(lia)) as Hmono.
    pose proof (slot_index_bounds (anchor + timedelta_hours h)) as Hb.
    assert (Ha : slot_index anchor = 32%Z) by apply slot_index_anchor.
    split; [lia|]. split; [|now right].
    cbn [record_event grid _init_day_log]. rewrite Ha.
    apply paint_block; [apply grid_block_fresh | lia | lia | exact Hcode].
  - rewrite (add_event_same_day ls dl st t h act Hc) in Hcall.
    injection Hcall as <- <- <-.
    assert (Hdate : date_of t = date_of (t + timedelta_hours h)).
    { rewrite Z.gtb_ltb in Hc. apply Z.ltb_ge in Hc.
      unfold date_of, US_PER_DAY in *. time_arith. }
    pose proof (slot_index_monotone t (t + timedelta_hours h) Hdate
                  ltac:(lia)) as Hmono.
    pose proof (slot_index_bounds (t + timedelta_hours h)) as Hb.
    split; [lia|]. split; [|now left].
    cbn [record_event grid].
    apply paint_block; [exact Hblock | lia | lia | exact Hcode].
Qed.

Lemma slot_index_rest_start t : slot_index (rest_start t) = 32%Z.
Proof.
  unfold slot_index, hour, minute, rest_start, timedelta_days,
    replace_hour_minute, date_of, US_PER_DAY, US_PER_HOUR, US_PER_MINUTE.
  time_arith.
Qed.

Lemma slot_index_rest_end t :
  slot_index (rest_start t + 10 * US_PER_HOUR) = 72%Z.
Proof.
  unfold slot_index, hour, minute, rest_start, timedelta_days,
    replace_hour_minute, date_of, US_PER_DAY, US_PER_HOUR, US_PER_MINUTE.
  time_arith.
Qed.

Lemma grid_event today l h act :
  h = pickup_dropoff_time \/ h = fuel_time ->
  grid_invariant today l -> grid_invariant today (on_duty_event l h act).
Proof.
  intros Hh (Hcal & Hsheets & Hslot & Hblock).
  split; [now apply calendar_event|].
  destruct l as [ls dl t rc]. unfold on_duty_event.
  cbn [loc_log_sheets loc_day_log loc_current_time loc_remaining_cycle] in *.
  destruct (_add_event ls dl On_duty t h (Some act)) as [[t' dl'] ls'] eqn:He.
  cbn [loc_log_sheets loc_day_log loc_current_time].
  assert (Hh' : 0 <= h <= 15)
    by (destruct Hh as [-> | ->]; unfold pickup_dropoff_time, fuel_time;
        lra).
  destruct (grid_add_event ls dl On_duty t h (Some act)
              ltac:(discriminate) Hh' Hslot Hblock _ _ _ He)
    as (Hslot' & Hblock' & Hls).
  split; [|now split].
  destruct Hls as [-> | ->]; [exact Hsheets|].
  apply Forall_app. split; [exact Hsheets|].
  constructor; [|constructor].
  exists (slot_index t). pose proof (slot_index_bounds t). split; [lia|].
  exact Hblock.
Qed.

Lemma grid_iteration today s :
  grid_invariant today (locals_of s) -> 0 < ds_drive_time s ->
  grid_invariant today (locals_of (driving_iteration s)).
Proof.
  intros (Hcal & Hsheets & Hslot & Hblock) Hdt.
  split; [now apply calendar_iteration|].
  assert (Hold : Forall (fun d => exists k, (32 <= k <= 95)%Z
                                            /\ grid_block k (grid d))
                        (ds_log_sheets s ++ [ds_day_log s])).
  { apply Forall_app. split; [exact Hsheets|].
    constructor; [|constructor].
    exists (slot_index (ds_start_time s)).
    pose proof (slot_index_bounds (ds_start_time s)).
    split; [cbn [locals_of loc_current_time] in Hslot; lia | exact Hblock]. }
  destruct (Qle_bool (available s) 0) eqn:Hav.
  - rewrite (rest_iteration s Hav).
    cbn [locals_of loc_log_sheets loc_day_log loc_current_time ds_log_sheets
         ds_day_log ds_start_time record_event grid _init_day_log].
    split; [exact Hold|].
    rewrite slot_index_rest_start, slot_index_rest_end.
    split; [lia|].
    apply paint_block; [apply grid_block_fresh | lia | lia | discriminate].
  - destruct s as [ls dl t dt rc]. unfold driving_iteration. rewrite Hav.
    cbn [ds_log_sheets ds_day_log ds_start_time ds_drive_time
         ds_remaining_cycle locals_of loc_log_sheets loc_day_log
         loc_current_time] in *.
    set (a := available (mkDrivingState ls dl t dt rc)) in *.
    destruct (_add_event ls dl Driving t a None) as [[t' dl'] ls'] eqn:He.
    cbn [locals_of ds_log_sheets ds_day_log ds_start_time
         ds_remaining_cycle loc_log_sheets loc_day_log loc_current_time].
    assert (Ha : 0 <= a <= 15).
    { apply Qle_bool_false in Hav.
      pose proof (available_bounds (mkDrivingState ls dl t dt rc))
        as (Hle & _).
      destruct Hcal as [_ [_ [Hd0 _]]].
      cbn [ds_day_log locals_of loc_day_log] in *. fold a in Hle.
      unfold max_drive_hours in *. split; lra. }
    destruct (grid_add_event ls dl Driving t a None
                ltac:(discriminate) Ha Hslot Hblock _ _ _ He)
      as (Hslot' & Hblock' & Hls).
    split; [|now split].
    destruct Hls as [-> | ->]; [exact Hsheets | exact Hold].
Qed.

(** X13.  The grid of every day log a fresh generator returns is one
    block of activity: it is OFF before slot 32 (08:00), holds the codes
    of the day's events, none of them OFF, from slot 32 up to some slot
    [k], and is OFF from slot [k] on; [k] is at most 95, so the last
    quarter of an hour of a day is never painted. *)
Theorem grids_are_one_block requests_get requests_post fuel now self rd
    sheets :
  self_log_sheets self = [] ->
  generate_log_sheets requests_get requests_post fuel now self
  = Some (Return (rd, sheets)) ->
  Forall (fun d =>
            exists k,
              (32 <= k <= 95)%Z
              /\ List.length (grid d) = 96%nat
              /\ forall j, (j < 96)%nat ->
                           nth j (grid d) OFF = OFF
                           <-> (Z.of_nat j < 32 \/ k <= Z.of_nat j)%Z)
         sheets.
Proof.
  intros Hsheets0 Hrun. unfold generate_log_sheets in Hrun.
  destruct (resolved_route requests_get requests_post self) as [rd'|];
    [|discriminate].
  rewrite Hsheets0 in Hrun.
  destruct (simulate fuel now [] (current_cycle_used self) rd') as [l|]
    eqn:Hsim; [|discriminate].
  injection Hrun as _ <-.
  destruct (simulate_run_invariant (grid_invariant (date_of now))
              (grid_event (date_of now)) (grid_iteration (date_of now))
              _ _ _ _ _ _ Hsim)
    as (l' & (_ & Hsheets & Hslot & Hblock) & ->).
  - rewrite loading_event. split; [apply calendar_after_loading|].
    cbn [loc_log_sheets loc_day_log loc_current_time grid].
    rewrite slot_index_day_plus.
    change (slot_index (9 * US_PER_HOUR)) with 36%Z.
    split; [constructor|]. split; [lia|].
    apply (paint_block (repeat OFF 96) 32 36 ON);
      [apply grid_block_fresh | lia | lia | discriminate].
  - cbn [loc_log_sheets]. unfold _finalize_day.
    apply Forall_app. split; [exact Hsheets|].
    constructor; [|constructor].
    exists (slot_index (loc_current_time l')).
    pose proof (slot_index_bounds (loc_current_time l')).
    split; [lia | exact Hblock].
Qed.

Lemma grids_are_one_block_witness :
  let rd :=
    mkRouteDetails (mkRouteLeg "A" "B" 500 9 "", mkRouteLeg "B" "C" 2000 30 "")
                   2500 39 in
  let self := mkGenerator "A" "B" "C" 0 (Some rd) [] in
  exists sheets,
    generate_log_sheets no_get no_post 20 (738000 * US_PER_DAY) self
    = Some (Return (rd, sheets))
    /\ List.length sheets = 7%nat
    /\ Forall (fun d => nth 95 (grid d) OFF = OFF) sheets.
Proof.
  intros rd self. eexists. split; [vm_compute; reflexivity|].
  split; [reflexivity|].
  pose proof (grids_are_one_block no_get no_post 20 (738000 * US_PER_DAY)
                self rd _ eq_refl ltac:(vm_compute; reflexivity)) as H.
  eapply Forall_impl; [|exact H].
  intros d (k & Hk & _ & Hd). apply (Hd 95%nat); lia.
Defined.
